(** * The TIXBOT desktop shell: gateway supervisor (apps/windows/main.cjs)

    A shallow embedding of the Electron main script that boots the local
    gateway: configuration bootstrap ([ensureGatewayConfig]), token
    generation ([generateToken]), child-process supervision
    ([startGateway] and the [exit]/[error]/[quit] handlers) and the
    control-UI attachment with its bounded retry ([did-fail-load]).

    JavaScript strings are sequences of UTF-16 code units, modelled as
    [list N].  The Node built-ins the script calls ([JSON.parse],
    [JSON.stringify], [String.prototype.trim], [URLSearchParams],
    [Buffer.toString("hex")], [path.join]) are modelled after ECMA-262,
    WHATWG URL and Node's [lib/path.js]; the functions of the script
    itself are transcribed line by line. *)

From Stdlib Require Import List NArith ZArith Lia Bool String Ascii Arith DecimalString.
From Stdlib.Strings Require Import Byte.
From Stdlib Require Import Permutation Sorted.
Import ListNotations.

Set Warnings "-register-all".

Local Open Scope N_scope.
Local Open Scope list_scope.

(* ================================================================== *)
(** ** JavaScript strings *)

(** A string value: its UTF-16 code units. *)
Definition jsstring : Type := list N.

(** A source-code string literal (ASCII) as a string value. *)
Definition str (s : string) : jsstring := map N_of_ascii (list_ascii_of_string s).

Fixpoint str_eqb (a b : jsstring) : bool :=
  match a, b with
  | [], [] => true
  | x :: a', y :: b' => (x =? y) && str_eqb a' b'
  | _, _ => false
  end.

(** [s.startsWith(p)]. *)
Fixpoint startsWith (p s : jsstring) : bool :=
  match p, s with
  | [], _ => true
  | x :: p', y :: s' => (x =? y) && startsWith p' s'
  | _ :: _, [] => false
  end.

(** Truthiness of a string: non-empty. *)
Definition str_truthy (s : jsstring) : bool :=
  match s with [] => false | _ :: _ => true end.

(** WhiteSpace and LineTerminator code points of ECMA-262, the
    characters [trim] strips. *)
Definition is_space (c : N) : bool :=
  ((9 <=? c) && (c <=? 13)) || (c =? 32) || (c =? 160) || (c =? 5760)
  || ((8192 <=? c) && (c <=? 8202)) || (c =? 8232) || (c =? 8233)
  || (c =? 8239) || (c =? 8287) || (c =? 12288) || (c =? 65279).

Fixpoint trimStart (s : jsstring) : jsstring :=
  match s with
  | [] => []
  | c :: s' => if is_space c then trimStart s' else s
  end.

Definition trimEnd (s : jsstring) : jsstring := rev (trimStart (rev s)).

(** [s.trim()]. *)
Definition trim (s : jsstring) : jsstring := trimEnd (trimStart s).

(** [String(n)] for a non-negative integer (its decimal digits). *)
Definition string_of_N (n : N) : jsstring := str (NilZero.string_of_uint (N.to_uint n)).

(** [sep]-joined concatenation, [Array.prototype.join]. *)
Fixpoint join (sep : jsstring) (xs : list jsstring) : jsstring :=
  match xs with
  | [] => []
  | [x] => x
  | x :: rest => x ++ sep ++ join sep rest
  end.


(* ================================================================== *)
(** ** JSON values, [JSON.stringify] and [JSON.parse] *)

(** A JSON value.  A number is kept as its decimal text: the script
    never inspects a number it has parsed, and the only number it
    serialises is the integer port.  An object is the list of its
    members in source order; a later member with the same key shadows an
    earlier one, as [JSON.parse] overwrites the property. *)
Inductive json : Type :=
| JNull
| JBool (b : bool)
| JNum (text : jsstring)
| JStr (s : jsstring)
| JArr (elements : list json)
| JObj (members : list (jsstring * json)).

(** *** Serialisation *)

Definition hexdigit (d : N) : N := if d <? 10 then 48 + d else 87 + d.

(** The six-character escape [\uXXXX], lowercase. *)
Definition unicode_escape (c : N) : jsstring :=
  [92; 117; hexdigit (c / 4096 mod 16); hexdigit (c / 256 mod 16);
   hexdigit (c / 16 mod 16); hexdigit (c mod 16)].

Definition is_high_surrogate (c : N) : bool := (55296 <=? c) && (c <=? 56319).
Definition is_low_surrogate (c : N) : bool := (56320 <=? c) && (c <=? 57343).

(** One code unit that is not a surrogate, as QuoteJSONString writes it. *)
Definition quote_unit (c : N) : jsstring :=
  if c =? 8 then [92; 98]
  else if c =? 9 then [92; 116]
  else if c =? 10 then [92; 110]
  else if c =? 12 then [92; 102]
  else if c =? 13 then [92; 114]
  else if c =? 34 then [92; 34]
  else if c =? 92 then [92; 92]
  else if c <? 32 then unicode_escape c
  else [c].

(** The characters between the quotes: a surrogate pair is written as
    it is, a lone surrogate is escaped (well-formed JSON.stringify). *)
Fixpoint quote_chars (s : jsstring) : jsstring :=
  match s with
  | [] => []
  | c :: rest =>
      if is_high_surrogate c then
        match rest with
        | d :: rest' =>
            if is_low_surrogate d then c :: d :: quote_chars rest'
            else unicode_escape c ++ quote_chars rest
        | [] => unicode_escape c
        end
      else if is_low_surrogate c then unicode_escape c ++ quote_chars rest
      else quote_unit c ++ quote_chars rest
  end.

(** QuoteJSONString. *)
Definition quote (s : jsstring) : jsstring := 34 :: quote_chars s ++ [34].

(** SerializeJSONProperty with a non-empty [gap] (the script passes
    the indentation 2, a gap of two spaces); [indent] is the current
    indentation. *)
Fixpoint serialize (gap indent : jsstring) (v : json) : jsstring :=
  match v with
  | JNull => str "null"
  | JBool true => str "true"
  | JBool false => str "false"
  | JNum text => text
  | JStr s => quote s
  | JArr [] => str "[]"
  | JArr xs =>
      let inner := indent ++ gap in
      str "[" ++ [10] ++ inner
        ++ join ([44; 10] ++ inner) (map (serialize gap inner) xs)
        ++ [10] ++ indent ++ str "]"
  | JObj [] => str "{}"
  | JObj ms =>
      let inner := indent ++ gap in
      str "{" ++ [10] ++ inner
        ++ join ([44; 10] ++ inner)
             (map (fun m => quote (fst m) ++ str ": " ++ serialize gap inner (snd m)) ms)
        ++ [10] ++ indent ++ str "}"
  end.

(** [JSON.stringify(v, null, 2)]. *)
Definition JSON_stringify2 (v : json) : jsstring := serialize (str "  ") [] v.

(** *** Parsing *)

Definition is_ws (c : N) : bool := (c =? 32) || (c =? 9) || (c =? 10) || (c =? 13).

Fixpoint skip_ws (inp : jsstring) : jsstring :=
  match inp with
  | [] => []
  | c :: rest => if is_ws c then skip_ws rest else inp
  end.

Definition unhex (c : N) : option N :=
  if (48 <=? c) && (c <=? 57) then Some (c - 48)
  else if (97 <=? c) && (c <=? 102) then Some (c - 87)
  else if (65 <=? c) && (c <=? 70) then Some (c - 55)
  else None.

(** The character a single-letter escape stands for. *)
Definition unescape (e : N) : option N :=
  if e =? 34 then Some 34
  else if e =? 92 then Some 92
  else if e =? 47 then Some 47
  else if e =? 98 then Some 8
  else if e =? 102 then Some 12
  else if e =? 110 then Some 10
  else if e =? 114 then Some 13
  else if e =? 116 then Some 9
  else None.

Definition cons_unit (c : N) (r : option (jsstring * jsstring))
  : option (jsstring * jsstring) :=
  match r with
  | Some (s, rest) => Some (c :: s, rest)
  | None => None
  end.

(** The rest of a string literal after its opening quote: the decoded
    characters and the input after the closing quote. *)
Fixpoint parse_chars (inp : jsstring) : option (jsstring * jsstring) :=
  match inp with
  | [] => None
  | c :: rest =>
      if c =? 34 then Some ([], rest)
      else if c =? 92 then
        match rest with
        | [] => None
        | e :: rest1 =>
            if e =? 117 then
              match rest1 with
              | h1 :: h2 :: h3 :: h4 :: rest2 =>
                  match unhex h1, unhex h2, unhex h3, unhex h4 with
                  | Some a, Some b, Some c', Some d =>
                      cons_unit (((a * 16 + b) * 16 + c') * 16 + d) (parse_chars rest2)
                  | _, _, _, _ => None
                  end
              | _ => None
              end
            else
              match unescape e with
              | Some u => cons_unit u (parse_chars rest1)
              | None => None
              end
        end
      else if c <? 32 then None
      else cons_unit c (parse_chars rest)
  end.

Definition is_digit (c : N) : bool := (48 <=? c) && (c <=? 57).

Fixpoint span_digits (inp : jsstring) : jsstring * jsstring :=
  match inp with
  | [] => ([], [])
  | c :: rest =>
      if is_digit c then let (ds, r) := span_digits rest in (c :: ds, r)
      else ([], inp)
  end.

(** The integer part of a number: [0], or a non-zero digit and digits. *)
Definition lex_int (inp : jsstring) : option (jsstring * jsstring) :=
  match inp with
  | [] => None
  | c :: rest =>
      if c =? 48 then Some ([48], rest)
      else if is_digit c then Some (span_digits inp)
      else None
  end.

(** An optional fraction: a point and at least one digit. *)
Definition lex_frac (inp : jsstring) : option (jsstring * jsstring) :=
  match inp with
  | c :: rest =>
      if c =? 46 then
        match span_digits rest with
        | ([], _) => None
        | (ds, r) => Some (46 :: ds, r)
        end
      else Some ([], inp)
  | [] => Some ([], inp)
  end.

(** An optional exponent: [e] or [E], an optional sign, digits. *)
Definition lex_exp (inp : jsstring) : option (jsstring * jsstring) :=
  match inp with
  | c :: rest =>
      if (c =? 101) || (c =? 69) then
        let (sign, rest1) :=
          match rest with
          | s :: r => if (s =? 43) || (s =? 45) then ([s], r) else ([], rest)
          | [] => ([], rest)
          end in
        match span_digits rest1 with
        | ([], _) => None
        | (ds, r) => Some (c :: sign ++ ds, r)
        end
      else Some ([], inp)
  | [] => Some ([], inp)
  end.

(** A JSON number: its text and the input after it. *)
Definition lex_number (inp : jsstring) : option (jsstring * jsstring) :=
  let (sign, rest0) :=
    match inp with
    | c :: r => if c =? 45 then ([45], r) else ([], inp)
    | [] => ([], inp)
    end in
  match lex_int rest0 with
  | None => None
  | Some (i, rest1) =>
      match lex_frac rest1 with
      | None => None
      | Some (f, rest2) =>
          match lex_exp rest2 with
          | None => None
          | Some (e, rest3) => Some (sign ++ i ++ f ++ e, rest3)
          end
      end
  end.

(** [inp] with the literal [lit] taken off its front. *)
Fixpoint strip_prefix (lit inp : jsstring) : option jsstring :=
  match lit, inp with
  | [], _ => Some inp
  | x :: lit', y :: inp' => if x =? y then strip_prefix lit' inp' else None
  | _ :: _, [] => None
  end.

(** Recursive descent over the JSON grammar.  A value, a member and an
    element each take at most two calls for every character they read,
    so fuel above twice the length of the input is never exhausted
    (see [parse_value_fuel]). *)
Fixpoint parse_value (fuel : nat) (inp : jsstring) : option (json * jsstring) :=
  match fuel with
  | O => None
  | S fuel' =>
      match skip_ws inp with
      | [] => None
      | c :: rest =>
          if c =? 123 then
            match skip_ws rest with
            | [] => None
            | c1 :: rest1 =>
                if c1 =? 125 then Some (JObj [], rest1)
                else
                  match parse_members fuel' (c1 :: rest1) with
                  | Some (ms, r) => Some (JObj ms, r)
                  | None => None
                  end
            end
          else if c =? 91 then
            match skip_ws rest with
            | [] => None
            | c1 :: rest1 =>
                if c1 =? 93 then Some (JArr [], rest1)
                else
                  match parse_elements fuel' (c1 :: rest1) with
                  | Some (xs, r) => Some (JArr xs, r)
                  | None => None
                  end
            end
          else if c =? 34 then
            match parse_chars rest with
            | Some (s, r) => Some (JStr s, r)
            | None => None
            end
          else if c =? 116 then
            match strip_prefix (str "true") (c :: rest) with
            | Some r => Some (JBool true, r)
            | None => None
            end
          else if c =? 102 then
            match strip_prefix (str "false") (c :: rest) with
            | Some r => Some (JBool false, r)
            | None => None
            end
          else if c =? 110 then
            match strip_prefix (str "null") (c :: rest) with
            | Some r => Some (JNull, r)
            | None => None
            end
          else
            match lex_number (c :: rest) with
            | Some (text, r) => Some (JNum text, r)
            | None => None
            end
      end
  end

with parse_members (fuel : nat) (inp : jsstring)
  : option (list (jsstring * json) * jsstring) :=
  match fuel with
  | O => None
  | S fuel' =>
      match skip_ws inp with
      | [] => None
      | q :: rest =>
          if q =? 34 then
            match parse_chars rest with
            | None => None
            | Some (key, r1) =>
                match skip_ws r1 with
                | [] => None
                | colon :: r2 =>
                    if colon =? 58 then
                      match parse_value fuel' r2 with
                      | None => None
                      | Some (v, r3) =>
                          match skip_ws r3 with
                          | [] => None
                          | sep :: r4 =>
                              if sep =? 44 then
                                match parse_members fuel' r4 with
                                | Some (ms, r5) => Some ((key, v) :: ms, r5)
                                | None => None
                                end
                              else if sep =? 125 then Some ([(key, v)], r4)
                              else None
                          end
                      end
                    else None
                end
            end
          else None
      end
  end

with parse_elements (fuel : nat) (inp : jsstring)
  : option (list json * jsstring) :=
  match fuel with
  | O => None
  | S fuel' =>
      match parse_value fuel' inp with
      | None => None
      | Some (v, r1) =>
          match skip_ws r1 with
          | [] => None
          | sep :: r2 =>
              if sep =? 44 then
                match parse_elements fuel' r2 with
                | Some (xs, r3) => Some (v :: xs, r3)
                | None => None
                end
              else if sep =? 93 then Some ([v], r2)
              else None
          end
      end
  end.

(** [JSON.parse(text)]: [None] is the thrown [SyntaxError]. *)
Definition JSON_parse (text : jsstring) : option json :=
  match parse_value (S (2 * List.length text)) text with
  | Some (v, rest) =>
      match skip_ws rest with
      | [] => Some v
      | _ :: _ => None
      end
  | None => None
  end.

(* ================================================================== *)
(** ** Form-urlencoded serialisation ([URLSearchParams.toString]) *)

(** The string as scalar values: a surrogate pair is one code point, a
    lone surrogate becomes U+FFFD. *)
Fixpoint code_points (s : jsstring) : list N :=
  match s with
  | [] => []
  | c :: rest =>
      if is_high_surrogate c then
        match rest with
        | d :: rest' =>
            if is_low_surrogate d
            then (65536 + (c - 55296) * 1024 + (d - 56320)) :: code_points rest'
            else 65533 :: code_points rest
        | [] => [65533]
        end
      else if is_low_surrogate c then 65533 :: code_points rest
      else c :: code_points rest
  end.

Definition utf8 (cp : N) : list N :=
  if cp <? 128 then [cp]
  else if cp <? 2048 then [192 + cp / 64; 128 + cp mod 64]
  else if cp <? 65536 then [224 + cp / 4096; 128 + cp / 64 mod 64; 128 + cp mod 64]
  else [240 + cp / 262144; 128 + cp / 4096 mod 64; 128 + cp / 64 mod 64; 128 + cp mod 64].

Definition is_alnum (c : N) : bool :=
  ((48 <=? c) && (c <=? 57)) || ((65 <=? c) && (c <=? 90)) || ((97 <=? c) && (c <=? 122)).

(** Bytes the form-urlencoded serialiser leaves as they are. *)
Definition form_safe (c : N) : bool :=
  is_alnum c || (c =? 42) || (c =? 45) || (c =? 46) || (c =? 95).

Definition upper_hexdigit (d : N) : N := if d <? 10 then 48 + d else 55 + d.

Definition form_byte (b : N) : jsstring :=
  if form_safe b then [b]
  else if b =? 32 then [43]
  else [37; upper_hexdigit (b / 16); upper_hexdigit (b mod 16)].

Definition form_urlencode (s : jsstring) : jsstring :=
  flat_map form_byte (flat_map utf8 (code_points s)).

(** [new URLSearchParams({ name: value }).toString()]. *)
Definition URLSearchParams_toString (name value : jsstring) : jsstring :=
  form_urlencode name ++ str "=" ++ form_urlencode value.

(* ================================================================== *)
(** ** Hexadecimal text of a buffer ([Buffer.toString("hex")]) *)

Definition hex_of_byte (b : byte) : jsstring :=
  [hexdigit (Byte.to_N b / 16); hexdigit (Byte.to_N b mod 16)].

Definition toString_hex (bytes : list byte) : jsstring := flat_map hex_of_byte bytes.



(* ================================================================== *)
(** ** The host, the module state and the effects *)

(** A variable that holds an object, [null] or [undefined]
    ([let mainWindow;], [gatewayProcess = null]). *)
Inductive ref : Type :=
| Undefined
| Null
| Object (id : nat).

Definition ref_truthy (r : ref) : bool :=
  match r with Object _ => true | _ => false end.

(** A thrown value: its [stack] property, when it has one, and what
    [String(err)] gives. *)
Record js_error : Type := {
  err_stack : option jsstring;
  err_text : jsstring
}.

(** What the script reads from Electron, Node and the operating
    system and never changes. *)
Record Host : Type := {
  isPackaged : bool;            (* app.isPackaged *)
  resourcesPath : jsstring;     (* process.resourcesPath *)
  dirname : jsstring;           (* __dirname *)
  execPath : jsstring;          (* process.execPath *)
  userData : jsstring;          (* app.getPath("userData") *)
  platform : jsstring;          (* process.platform *)
  process_env : list (jsstring * jsstring);
  entropy : nat -> byte;        (* the stream crypto.randomBytes draws from *)
  clock : nat -> jsstring;      (* new Date().toISOString() at the n-th log line *)
  syntax_error : jsstring -> js_error
                                (* the SyntaxError JSON.parse throws on a text *)
}.

(** The functions the script hands to [setTimeout]. *)
Inductive callback : Type :=
| RetryLoad.                    (* lines 183-187 *)

(** The arguments of one [child_process.spawn] call. *)
Record spawn_call : Type := {
  sp_command : jsstring;
  sp_args : list jsstring;
  sp_cwd : jsstring;
  sp_env : list (jsstring * jsstring)
}.

(** What the script does to the outside, in the order it does it.  A
    log line is recorded without its timestamp; the line itself is in
    the log file. *)
Inductive effect : Type :=
| Mkdir (dir : jsstring)
| CreateWriteStream (path : jsstring)
| WriteFile (path content : jsstring)
| Log (level message : jsstring)
| NewWindow (window : nat)
| Spawn (child : nat) (call : spawn_call)
| Kill (child : nat)
| SetTimeout (handler : callback) (delay : N)
| LoadURL (window : nat) (url : jsstring)
| AppQuit.

Record World : Type := {
  host : Host;
  (* the module-level variables of main.cjs *)
  mainWindow : ref;
  gatewayProcess : ref;
  gatewayToken : jsstring;
  gatewayConfigPath : jsstring;
  gatewayStateDir : jsstring;
  gatewayPort : N;
  controlUiUrl : jsstring;
  uiRetries : N;
  (* the outside; directories and failing file operations are not modelled *)
  files : jsstring -> option jsstring;   (* regular files by path *)
  drawn : nat;                           (* random bytes drawn so far *)
  children : nat;                        (* child processes spawned so far *)
  windows : nat;                         (* windows created so far *)
  logged : nat;                          (* log lines written so far *)
  trace : list effect                    (* effects, oldest first *)
}.

(** The module state when main.cjs has been loaded (lines 7-14). *)
Definition initial (h : Host) (fs : jsstring -> option jsstring) : World :=
  {| host := h;
     mainWindow := Undefined;
     gatewayProcess := Undefined;
     gatewayToken := [];
     gatewayConfigPath := [];
     gatewayStateDir := [];
     gatewayPort := 18789;
     controlUiUrl := [];
     uiRetries := 0;
     files := fs;
     drawn := 0;
     children := 0;
     windows := 0;
     logged := 0;
     trace := [] |}.

(** Assignments.  There is none to [gatewayPort]: the script never
    assigns it after its declaration. *)
Definition set_mainWindow (v : ref) (w : World) : World :=
  {| host := host w; mainWindow := v; gatewayProcess := gatewayProcess w;
     gatewayToken := gatewayToken w; gatewayConfigPath := gatewayConfigPath w;
     gatewayStateDir := gatewayStateDir w; gatewayPort := gatewayPort w;
     controlUiUrl := controlUiUrl w; uiRetries := uiRetries w; files := files w;
     drawn := drawn w; children := children w; windows := windows w;
     logged := logged w; trace := trace w |}.

Definition set_gatewayProcess (v : ref) (w : World) : World :=
  {| host := host w; mainWindow := mainWindow w; gatewayProcess := v;
     gatewayToken := gatewayToken w; gatewayConfigPath := gatewayConfigPath w;
     gatewayStateDir := gatewayStateDir w; gatewayPort := gatewayPort w;
     controlUiUrl := controlUiUrl w; uiRetries := uiRetries w; files := files w;
     drawn := drawn w; children := children w; windows := windows w;
     logged := logged w; trace := trace w |}.

Definition set_gatewayToken (v : jsstring) (w : World) : World :=
  {| host := host w; mainWindow := mainWindow w; gatewayProcess := gatewayProcess w;
     gatewayToken := v; gatewayConfigPath := gatewayConfigPath w;
     gatewayStateDir := gatewayStateDir w; gatewayPort := gatewayPort w;
     controlUiUrl := controlUiUrl w; uiRetries := uiRetries w; files := files w;
     drawn := drawn w; children := children w; windows := windows w;
     logged := logged w; trace := trace w |}.

Definition set_gatewayConfigPath (v : jsstring) (w : World) : World :=
  {| host := host w; mainWindow := mainWindow w; gatewayProcess := gatewayProcess w;
     gatewayToken := gatewayToken w; gatewayConfigPath := v;
     gatewayStateDir := gatewayStateDir w; gatewayPort := gatewayPort w;
     controlUiUrl := controlUiUrl w; uiRetries := uiRetries w; files := files w;
     drawn := drawn w; children := children w; windows := windows w;
     logged := logged w; trace := trace w |}.

Definition set_gatewayStateDir (v : jsstring) (w : World) : World :=
  {| host := host w; mainWindow := mainWindow w; gatewayProcess := gatewayProcess w;
     gatewayToken := gatewayToken w; gatewayConfigPath := gatewayConfigPath w;
     gatewayStateDir := v; gatewayPort := gatewayPort w;
     controlUiUrl := controlUiUrl w; uiRetries := uiRetries w; files := files w;
     drawn := drawn w; children := children w; windows := windows w;
     logged := logged w; trace := trace w |}.

Definition set_controlUiUrl (v : jsstring) (w : World) : World :=
  {| host := host w; mainWindow := mainWindow w; gatewayProcess := gatewayProcess w;
     gatewayToken := gatewayToken w; gatewayConfigPath := gatewayConfigPath w;
     gatewayStateDir := gatewayStateDir w; gatewayPort := gatewayPort w;
     controlUiUrl := v; uiRetries := uiRetries w; files := files w;
     drawn := drawn w; children := children w; windows := windows w;
     logged := logged w; trace := trace w |}.

Definition set_uiRetries (v : N) (w : World) : World :=
  {| host := host w; mainWindow := mainWindow w; gatewayProcess := gatewayProcess w;
     gatewayToken := gatewayToken w; gatewayConfigPath := gatewayConfigPath w;
     gatewayStateDir := gatewayStateDir w; gatewayPort := gatewayPort w;
     controlUiUrl := controlUiUrl w; uiRetries := v; files := files w;
     drawn := drawn w; children := children w; windows := windows w;
     logged := logged w; trace := trace w |}.

Definition set_files (v : jsstring -> option jsstring) (w : World) : World :=
  {| host := host w; mainWindow := mainWindow w; gatewayProcess := gatewayProcess w;
     gatewayToken := gatewayToken w; gatewayConfigPath := gatewayConfigPath w;
     gatewayStateDir := gatewayStateDir w; gatewayPort := gatewayPort w;
     controlUiUrl := controlUiUrl w; uiRetries := uiRetries w; files := v;
     drawn := drawn w; children := children w; windows := windows w;
     logged := logged w; trace := trace w |}.

Definition set_drawn (v : nat) (w : World) : World :=
  {| host := host w; mainWindow := mainWindow w; gatewayProcess := gatewayProcess w;
     gatewayToken := gatewayToken w; gatewayConfigPath := gatewayConfigPath w;
     gatewayStateDir := gatewayStateDir w; gatewayPort := gatewayPort w;
     controlUiUrl := controlUiUrl w; uiRetries := uiRetries w; files := files w;
     drawn := v; children := children w; windows := windows w;
     logged := logged w; trace := trace w |}.

Definition set_children (v : nat) (w : World) : World :=
  {| host := host w; mainWindow := mainWindow w; gatewayProcess := gatewayProcess w;
     gatewayToken := gatewayToken w; gatewayConfigPath := gatewayConfigPath w;
     gatewayStateDir := gatewayStateDir w; gatewayPort := gatewayPort w;
     controlUiUrl := controlUiUrl w; uiRetries := uiRetries w; files := files w;
     drawn := drawn w; children := v; windows := windows w;
     logged := logged w; trace := trace w |}.

Definition set_windows (v : nat) (w : World) : World :=
  {| host := host w; mainWindow := mainWindow w; gatewayProcess := gatewayProcess w;
     gatewayToken := gatewayToken w; gatewayConfigPath := gatewayConfigPath w;
     gatewayStateDir := gatewayStateDir w; gatewayPort := gatewayPort w;
     controlUiUrl := controlUiUrl w; uiRetries := uiRetries w; files := files w;
     drawn := drawn w; children := children w; windows := v;
     logged := logged w; trace := trace w |}.

Definition set_logged (v : nat) (w : World) : World :=
  {| host := host w; mainWindow := mainWindow w; gatewayProcess := gatewayProcess w;
     gatewayToken := gatewayToken w; gatewayConfigPath := gatewayConfigPath w;
     gatewayStateDir := gatewayStateDir w; gatewayPort := gatewayPort w;
     controlUiUrl := controlUiUrl w; uiRetries := uiRetries w; files := files w;
     drawn := drawn w; children := children w; windows := windows w;
     logged := v; trace := trace w |}.

Definition set_trace (v : list effect) (w : World) : World :=
  {| host := host w; mainWindow := mainWindow w; gatewayProcess := gatewayProcess w;
     gatewayToken := gatewayToken w; gatewayConfigPath := gatewayConfigPath w;
     gatewayStateDir := gatewayStateDir w; gatewayPort := gatewayPort w;
     controlUiUrl := controlUiUrl w; uiRetries := uiRetries w; files := files w;
     drawn := drawn w; children := children w; windows := windows w;
     logged := logged w; trace := v |}.

(** *** A state monad over the world *)

Definition M (A : Type) : Type := World -> A * World.

Definition ret {A : Type} (a : A) : M A := fun w => (a, w).

Definition bind {A B : Type} (m : M A) (k : A -> M B) : M B :=
  fun w => let '(a, w') := m w in k a w'.

Notation "x <- m ;; k" := (bind m (fun x => k))
  (at level 61, m at next level, right associativity).
Notation "m ;; k" := (bind m (fun _ => k))
  (at level 61, right associativity).

Definition read {A : Type} (field : World -> A) : M A := fun w => (field w, w).
Definition assign (set : World -> World) : M unit := fun w => (tt, set w).
Definition perform (e : effect) : M unit :=
  assign (fun w => set_trace (trace w ++ [e]) w).

(** The world an action leaves. *)
Definition exec {A : Type} (m : M A) (w : World) : World := snd (m w).

(* ================================================================== *)
(** ** Values, exceptions and property access *)

Inductive result (A : Type) : Type :=
| Ok (a : A)
| Throw (e : js_error).
Arguments Ok {A} a.
Arguments Throw {A} e.

Definition and_then {A B : Type} (r : result A) (k : A -> result B) : result B :=
  match r with
  | Ok a => k a
  | Throw e => Throw e
  end.

(** The error [JSON.parse] throws on [text]; the wording of its
    message depends on the text and is the engine's own. *)
Definition json_syntax_error (h : Host) (text : jsstring) : js_error :=
  syntax_error h text.

Definition type_error : js_error :=
  {| err_stack := Some (str "TypeError: Cannot read properties");
     err_text := str "TypeError: Cannot read properties" |}.

Definition enoent_error : js_error :=
  {| err_stack := Some (str "Error: ENOENT: no such file or directory");
     err_text := str "Error: ENOENT: no such file or directory" |}.

(** What an expression over the parsed document evaluates to. *)
Inductive value : Type :=
| VUndefined
| Val (j : json).

(** Whether a number text denotes zero: every digit of its mantissa
    is 0.  (A text with a non-zero digit and a very negative exponent
    also reads as 0; [token_of_parsed_number_blind] shows that the
    truthiness of numbers cannot change what the script extracts.) *)
Fixpoint mantissa_zero (text : jsstring) : bool :=
  match text with
  | [] => true
  | c :: rest =>
      if (c =? 101) || (c =? 69) then true
      else if is_digit c && negb (c =? 48) then false
      else mantissa_zero rest
  end.

Section Truthiness.

(** Truthiness of a number, by its text. *)
Variable number_truthy : jsstring -> bool.

(** ToBoolean. *)
Definition truthy_with (v : value) : bool :=
  match v with
  | VUndefined => false
  | Val JNull => false
  | Val (JBool b) => b
  | Val (JNum text) => number_truthy text
  | Val (JStr s) => str_truthy s
  | Val (JArr _) => true
  | Val (JObj _) => true
  end.

End Truthiness.

Definition truthy : value -> bool := truthy_with (fun text => negb (mantissa_zero text)).

(** The member an object holds under [key]: the last one written. *)
Fixpoint lookup (key : jsstring) (ms : list (jsstring * json)) : value :=
  match ms with
  | [] => VUndefined
  | (k, v) :: rest =>
      match lookup key rest with
      | Val later => Val later
      | VUndefined => if str_eqb k key then Val v else VUndefined
      end
  end.

(** [v.key] for the three keys the script reads ([gateway], [auth],
    [token]); none of them is a property of a built-in prototype, so
    only an object holds one, and reading a property of [null] or
    [undefined] throws. *)
Definition get_prop (v : value) (key : jsstring) : result value :=
  match v with
  | VUndefined => Throw type_error
  | Val JNull => Throw type_error
  | Val (JObj ms) => Ok (lookup key ms)
  | Val _ => Ok VUndefined
  end.

(** [typeof v === "string"]. *)
Definition is_string (v : value) : bool :=
  match v with Val (JStr _) => true | _ => false end.

(** [v.trim()]: only a string has the method. *)
Definition call_trim (v : value) : result value :=
  match v with
  | Val (JStr s) => Ok (Val (JStr (trim s)))
  | _ => Throw type_error
  end.

(* ================================================================== *)
(** ** main.cjs *)

(** *** [path.join], as [path.win32] of Node has it *)

(** A path separator, [/] or [\]. *)
Definition is_sep (c : N) : bool := (c =? 47) || (c =? 92).

(** isWindowsDeviceRoot: a drive letter. *)
Definition is_drive_letter (c : N) : bool :=
  ((65 <=? c) && (c <=? 90)) || ((97 <=? c) && (c <=? 122)).

(** The pieces of a path between its separators; two separators in
    a row leave an empty piece between them. *)
Fixpoint segments (s : jsstring) : list jsstring :=
  match s with
  | [] => [[]]
  | c :: rest =>
      if is_sep c then [] :: segments rest
      else
        match segments rest with
        | segment :: more => (c :: segment) :: more
        | [] => [[c]]
        end
  end.

(** normalizeString: empty pieces and [.] are dropped, [..] takes back
    the piece before it, or stays when there is none to take back and
    the path is relative.  [kept] holds the pieces kept so far, the last
    one first. *)
Fixpoint resolve (allowAboveRoot : bool) (pieces kept : list jsstring) : list jsstring :=
  match pieces with
  | [] => rev kept
  | piece :: rest =>
      if str_eqb piece [] || str_eqb piece (str ".") then resolve allowAboveRoot rest kept
      else if str_eqb piece (str "..") then
        match kept with
        | top :: below =>
            if str_eqb top (str "..")
            then resolve allowAboveRoot rest (if allowAboveRoot then piece :: kept else kept)
            else resolve allowAboveRoot rest below
        | [] => resolve allowAboveRoot rest (if allowAboveRoot then [piece] else [])
        end
      else resolve allowAboveRoot rest (piece :: kept)
  end.

(** The pieces after the separators at their front. *)
Fixpoint drop_empty (pieces : list jsstring) : list jsstring :=
  match pieces with
  | [] :: rest => drop_empty rest
  | _ => pieces
  end.

Fixpoint skip_seps (s : jsstring) : jsstring :=
  match s with
  | [] => []
  | c :: rest => if is_sep c then skip_seps rest else s
  end.

(** The end of [normalize]: the root, the pieces that remain and the
    separator the path ended with. *)
Definition finish (path : jsstring) (device : option jsstring) (isAbsolute : bool)
    (pieces : list jsstring) : jsstring :=
  let tail0 := join [92] (resolve (negb isAbsolute) pieces []) in
  let tail1 :=
    match tail0 with
    | [] => if isAbsolute then [] else str "."
    | _ :: _ => tail0
    end in
  let tail :=
    match tail1 with
    | [] => []
    | _ :: _ => if is_sep (last path 0) then tail1 ++ [92] else tail1
    end in
  match device with
  | None => if isAbsolute then 92 :: tail else tail
  | Some d => if isAbsolute then d ++ 92 :: tail else d ++ tail
  end.

(** [path.win32.normalize]: a UNC root ([\\server\share]), a drive
    ([C:], absolute when a separator follows) or no root. *)
Definition path_normalize (path : jsstring) : jsstring :=
  match path with
  | [] => str "."
  | [c] => if c =? 47 then [92] else [c]
  | c0 :: c1 :: rest =>
      if is_sep c0 then
        if is_sep c1 then
          match segments rest with
          | firstPart :: more =>
              match firstPart, more with
              | _ :: _, _ :: _ =>
                  match drop_empty more with
                  | [] => finish path None true (segments path)
                  | [share] => [92; 92] ++ firstPart ++ [92] ++ share ++ [92]
                  | share :: below =>
                      finish path (Some ([92; 92] ++ firstPart ++ [92] ++ share)) true below
                  end
              | _, _ => finish path None true (segments path)
              end
          | [] => finish path None true (segments path)
          end
        else finish path None true (segments path)
      else if is_drive_letter c0 && (c1 =? 58) then
        match rest with
        | c2 :: rest3 =>
            if is_sep c2 then finish path (Some [c0; c1]) true (segments rest3)
            else finish path (Some [c0; c1]) false (segments rest)
        | [] => finish path (Some [c0; c1]) false (segments rest)
        end
      else finish path None false (segments path)
  end.

(** [path.join(dir, name)]: the non-empty arguments joined by [\],
    separators doubled at the front reduced to one unless [dir] begins
    like a UNC path, and the result normalised. *)
Definition path_join (dir name : jsstring) : jsstring :=
  let joined :=
    match dir, name with
    | [], _ => name
    | _, [] => dir
    | _, _ => dir ++ [92] ++ name
    end in
  let firstPart := match dir with [] => name | _ => dir end in
  let unc :=
    match firstPart with
    | a :: b :: c :: _ => is_sep a && is_sep b && negb (is_sep c)
    | _ => false
    end in
  let doubled :=
    match joined with
    | a :: b :: _ => is_sep a && is_sep b
    | _ => false
    end in
  path_normalize (if negb unc && doubled then 92 :: skip_seps joined else joined).

(** [s] ends with a separator and [name]. *)
Definition tailed (name s : jsstring) : Prop :=
  exists p c, is_sep c = true /\ s = p ++ c :: name.

(** What [path.join] gives for a file name: something, the name, and
    at most a separator. *)
Definition ends_in_name (name s : jsstring) : Prop :=
  exists before, s = before ++ name \/ s = before ++ name ++ [92].

(** The last character of a path, a final [\] left aside. *)
Definition final (s : jsstring) : N :=
  match rev s with
  | [] => 0
  | c :: before => if c =? 92 then hd 0 before else c
  end.

(** *** Node and Electron calls *)

Definition fs_mkdirSync (dir : jsstring) : M unit := perform (Mkdir dir).

(** The file at [path] with [text] added at its end; the file is
    created when there is none. *)
Definition append_file (path text : jsstring) (fs : jsstring -> option jsstring)
  : jsstring -> option jsstring :=
  fun p =>
    if str_eqb p path
    then Some (match fs p with Some old => old ++ text | None => text end)
    else fs p.

(** The file at [path] opened for appending: created empty when there
    is none. *)
Definition touch (path : jsstring) (fs : jsstring -> option jsstring)
  : jsstring -> option jsstring :=
  fun p =>
    if str_eqb p path
    then Some (match fs p with Some old => old | None => [] end)
    else fs p.

(** [fs.createWriteStream(path, { flags: "a" })].  The stream opens
    the file, and writes what it is given, some time after the call;
    nothing in the script reads the log, so the model lets both happen
    at the call. *)
Definition fs_createWriteStream (path : jsstring) : M unit :=
  assign (fun w => set_files (touch path (files w)) w) ;;
  perform (CreateWriteStream path).

(** The path every log stream of the script is opened on (lines
    24-25). *)
Definition log_path (h : Host) : jsstring := path_join (userData h) (str "tixbot.log").

(** Line 29: one line of the log. *)
Definition log_line (stamp level message : jsstring) : jsstring :=
  str "[" ++ stamp ++ str "] [" ++ level ++ str "] " ++ message ++ [10].

(** [log.write(level, msg)], lines 28-31: the line goes to the stream
    opened on [log_path]. *)
Definition log_write (level message : jsstring) : M unit :=
  h <- read host ;;
  n <- read logged ;;
  let line := log_line (clock h n) level message in
  assign (fun w => set_files (append_file (log_path h) line (files w)) w) ;;
  assign (set_logged (S n)) ;;
  perform (Log level message).

Definition fs_existsSync (path : jsstring) : M bool :=
  fun w => (match files w path with Some _ => true | None => false end, w).

Definition fs_readFileSync (path : jsstring) : M (result jsstring) :=
  fun w => (match files w path with
            | Some content => Ok content
            | None => Throw enoent_error
            end, w).

Definition write_file (path content : jsstring) (fs : jsstring -> option jsstring)
  : jsstring -> option jsstring :=
  fun p => if str_eqb p path then Some content else fs p.

Definition fs_writeFileSync (path content : jsstring) : M unit :=
  assign (fun w => set_files (write_file path content (files w)) w) ;;
  perform (WriteFile path content).

(** The bytes the next [crypto.randomBytes(n)] returns. *)
Definition next_bytes (n : nat) (w : World) : list byte :=
  map (fun i => entropy (host w) (drawn w + i)%nat) (seq 0 n).

Definition crypto_randomBytes (n : nat) : M (list byte) :=
  fun w => (next_bytes n w, set_drawn (drawn w + n)%nat w).

(** [spawn(command, args, options)]: the new child, numbered in order
    of creation.  A failure to start it is reported later, by the
    child's [error] event. *)
Definition child_process_spawn (call : spawn_call) : M nat :=
  fun w => (children w,
            set_trace (trace w ++ [Spawn (children w) call])
              (set_children (S (children w)) w)).

Definition new_BrowserWindow : M nat :=
  fun w => (windows w,
            set_trace (trace w ++ [NewWindow (windows w)])
              (set_windows (S (windows w)) w)).

(** [r.loadURL(url)] / [r.kill()] on the object [r] refers to. *)
Definition loadURL (r : ref) (url : jsstring) : M unit :=
  match r with
  | Object win => perform (LoadURL win url)
  | _ => ret tt
  end.

Definition kill (r : ref) : M unit :=
  match r with
  | Object child => perform (Kill child)
  | _ => ret tt
  end.

(** [{ ...base, key: v }]: the property is overwritten in place or
    added at the end. *)
Fixpoint set_property (key v : jsstring) (obj : list (jsstring * jsstring))
  : list (jsstring * jsstring) :=
  match obj with
  | [] => [(key, v)]
  | (k, old) :: rest =>
      if str_eqb k key then (k, v) :: rest else (k, old) :: set_property key v rest
  end.

(** *** Lines 16-37 *)

Definition resolveRootDir : M jsstring :=
  h <- read host ;;
  if negb (isPackaged h) then ret (path_join (dirname h) (str "../.."))
  else ret (resourcesPath h).

(** The object it returns is [{ logPath, write }]; [write] is
    [log_write]. *)
Definition ensureLogStream : M unit :=
  h <- read host ;;
  let logDir := userData h in
  let logPath := path_join logDir (str "tixbot.log") in
  fs_mkdirSync logDir ;;
  fs_createWriteStream logPath.

Definition generateToken : M jsstring :=
  bytes <- crypto_randomBytes 24 ;;
  ret (toString_hex bytes).

(** *** Lines 39-55 *)

Definition minimal_config (token : jsstring) (port : N) : json :=
  JObj
    [(str "gateway", JObj
       [(str "mode", JStr (str "local"));
        (str "bind", JStr (str "loopback"));
        (str "port", JNum (string_of_N port));
        (str "auth", JObj
           [(str "mode", JStr (str "token"));
            (str "token", JStr token)]);
        (str "controlUi", JObj
           [(str "enabled", JBool true);
            (str "allowInsecureAuth", JBool true)])])].

Definition buildMinimalGatewayConfig (token : jsstring) : M json :=
  port <- read gatewayPort ;;
  ret (minimal_config token port).

(** *** Lines 57-85 *)

Section TokenExpression.

Variable number_truthy : jsstring -> bool.
Let truthy' := truthy_with number_truthy.

(** [parsed.gateway.auth.token]. *)
Definition token_property (parsed : json) : result value :=
  and_then (get_prop (Val parsed) (str "gateway")) (fun gateway =>
  and_then (get_prop gateway (str "auth")) (fun auth =>
  get_prop auth (str "token"))).

(** The condition of lines 68-72, a left-to-right chain of [&&]:
    each operand is evaluated only when all before it are truthy. *)
Definition token_condition (parsed : json) : result value :=
  let c1 := Val parsed in
  and_then (if truthy' c1 then get_prop (Val parsed) (str "gateway") else Ok c1)
    (fun c2 =>
  and_then (if truthy' c2
            then and_then (get_prop (Val parsed) (str "gateway"))
                   (fun gateway => get_prop gateway (str "auth"))
            else Ok c2)
    (fun c3 =>
  and_then (if truthy' c3
            then and_then (token_property parsed)
                   (fun token => Ok (Val (JBool (is_string token))))
            else Ok c3)
    (fun c4 =>
  if truthy' c4 then and_then (token_property parsed) call_trim else Ok c4))).

(** Lines 67-74: the token the parsed document holds, or [""]. *)
Definition token_of_parsed_with (parsed : json) : result jsstring :=
  and_then (token_condition parsed) (fun c =>
    if truthy' c then
      and_then (and_then (token_property parsed) call_trim) (fun t =>
        match t with
        | Val (JStr s) => Ok s
        | _ => Throw type_error
        end)
    else Ok []).

End TokenExpression.

Definition token_of_parsed : json -> result jsstring :=
  token_of_parsed_with (fun text => negb (mantissa_zero text)).

(** The body of the [try] block, lines 65-75. *)
Definition read_existing_token (path : jsstring) : M (result jsstring) :=
  h <- read host ;;
  r <- fs_readFileSync path ;;
  ret (and_then r (fun raw =>
         match JSON_parse raw with
         | None => Throw (json_syntax_error h raw)
         | Some parsed => token_of_parsed parsed
         end)).

Definition ensureGatewayConfig : M unit :=
  h <- read host ;;
  assign (set_gatewayStateDir (userData h)) ;;
  stateDir <- read gatewayStateDir ;;
  assign (set_gatewayConfigPath (path_join stateDir (str "openclaw.json"))) ;;
  fs_mkdirSync stateDir ;;
  configPath <- read gatewayConfigPath ;;
  present <- fs_existsSync configPath ;;
  existingToken <-
    (if present : bool then
       r <- read_existing_token configPath ;;
       match r with
       | Ok token => ret token
       | Throw err =>
           log_write (str "warn")
             (str "Failed to parse config, regenerating: " ++ err_text err) ;;
           ret []
       end
     else ret []) ;;
  token <- (if str_truthy existingToken then ret existingToken else generateToken) ;;
  assign (set_gatewayToken token) ;;
  current <- read gatewayToken ;;
  nextConfig <- buildMinimalGatewayConfig current ;;
  fs_writeFileSync configPath (JSON_stringify2 nextConfig ++ [10]) ;;
  log_write (str "info") (str "Wrote gateway config: " ++ configPath).

(** *** Lines 87-149 *)

Definition gateway_args (entryPath token : jsstring) (port : N) : list jsstring :=
  [entryPath; str "gateway"; str "--allow-unconfigured"; str "--auth"; str "token";
   str "--token"; token; str "--port"; string_of_N port; str "--bind"; str "loopback"].

Definition gateway_env (base : list (jsstring * jsstring))
    (stateDir configPath token : jsstring) : list (jsstring * jsstring) :=
  set_property (str "NODE_ENV") (str "production")
    (set_property (str "OPENCLAW_GATEWAY_TOKEN") token
    (set_property (str "OPENCLAW_CONFIG_PATH") configPath
    (set_property (str "OPENCLAW_STATE_DIR") stateDir
    (set_property (str "OPENCLAW_SKIP_RUNTIME_GUARD") (str "1")
    (set_property (str "OPENCLAW_SKIP_CHANNELS") (str "1")
    (set_property (str "OPENCLAW_NO_RESPAWN") (str "1")
    (set_property (str "ELECTRON_RUN_AS_NODE") (str "1") base))))))).

(** The four listeners of lines 129-148 are attached to the new child;
    they are [on_gateway_stdout], [on_gateway_stderr], [on_gateway_exit]
    and [on_gateway_error] below. *)
Definition startGateway (rootDir : jsstring) : M unit :=
  running <- read gatewayProcess ;;
  if ref_truthy running then ret tt
  else
    let entryPath := path_join rootDir (str "openclaw.mjs") in
    log_write (str "info") (str "Starting gateway via Electron-as-Node: " ++ entryPath) ;;
    configPath <- read gatewayConfigPath ;;
    log_write (str "info") (str "Gateway config: " ++ configPath) ;;
    h <- read host ;;
    token <- read gatewayToken ;;
    port <- read gatewayPort ;;
    stateDir <- read gatewayStateDir ;;
    child <- child_process_spawn
      {| sp_command := execPath h;
         sp_args := gateway_args entryPath token port;
         sp_cwd := rootDir;
         sp_env := gateway_env (process_env h) stateDir configPath token |} ;;
    assign (set_gatewayProcess (Object child)).

(** [String(data).trim()] of a chunk, already as text. *)
Definition on_gateway_stdout (data : jsstring) : M unit :=
  log_write (str "info") (str "gateway stdout: " ++ trim data).

Definition on_gateway_stderr (data : jsstring) : M unit :=
  log_write (str "error") (str "gateway stderr: " ++ trim data).

(** [x ?? "null"] inside a template literal. *)
Definition code_text (code : option N) : jsstring :=
  match code with Some n => string_of_N n | None => str "null" end.

Definition signal_text (signal : option jsstring) : jsstring :=
  match signal with Some s => s | None => str "null" end.

Definition on_gateway_exit (code : option N) (signal : option jsstring) : M unit :=
  log_write (str "error")
    (str "gateway exited: code=" ++ code_text code ++ str " signal=" ++ signal_text signal) ;;
  assign (set_gatewayProcess Null).

(** [err && err.stack ? err.stack : String(err)]. *)
Definition error_detail (err : js_error) : jsstring :=
  match err_stack err with
  | Some stack => if str_truthy stack then stack else err_text err
  | None => err_text err
  end.

Definition on_gateway_error (err : js_error) : M unit :=
  log_write (str "error") (str "gateway spawn error: " ++ error_detail err) ;;
  assign (set_gatewayProcess Null).

(** *** Lines 151-155 *)

Definition buildControlUiUrl : M jsstring :=
  port <- read gatewayPort ;;
  token <- read gatewayToken ;;
  let baseUrl := str "http://127.0.0.1:" ++ string_of_N port ++ str "/" in
  let params := URLSearchParams_toString (str "token") token in
  ret (baseUrl ++ str "?" ++ params).

(** *** Lines 157-201 *)

(** [String(errorCode)], a signed integer. *)
Definition string_of_Z (z : Z) : jsstring := str (NilZero.string_of_int (Z.to_int z)).

(** The timer callback of lines 183-187. *)
Definition retry_load : M unit :=
  win <- read mainWindow ;;
  if ref_truthy win then
    url <- read controlUiUrl ;;
    loadURL win url
  else ret tt.

(** The [did-fail-load] listener, lines 175-189. *)
Definition on_did_fail_load (errorCode : Z) (errorDescription validatedURL : jsstring)
  : M unit :=
  log_write (str "error")
    (str "UI failed to load: " ++ string_of_Z errorCode ++ str " "
       ++ errorDescription ++ str " " ++ validatedURL) ;;
  retries <- read uiRetries ;;
  if str_truthy validatedURL
     && startsWith (str "http://127.0.0.1") validatedURL
     && (retries <? 20)
  then
    assign (fun w => set_uiRetries (uiRetries w + 1) w) ;;
    perform (SetTimeout RetryLoad 500)
  else ret tt.

(** The [closed] listener, lines 198-200. *)
Definition on_closed : M unit := assign (set_mainWindow Null).

(** [createWindow()].  The listeners it attaches to the new window
    are [on_did_fail_load] and [on_closed]; the event loop delivers
    their events. *)
Definition createWindow : M unit :=
  ensureLogStream ;;
  log_write (str "info") (str "TIXBOT starting...") ;;
  win <- new_BrowserWindow ;;
  assign (set_mainWindow (Object win)) ;;
  rootDir <- resolveRootDir ;;
  log_write (str "info") (str "Root dir: " ++ rootDir) ;;
  ensureGatewayConfig ;;
  startGateway rootDir ;;
  url <- buildControlUiUrl ;;
  assign (set_controlUiUrl url) ;;
  current <- read controlUiUrl ;;
  log_write (str "info") (str "Loading UI: " ++ current) ;;
  window <- read mainWindow ;;
  loadURL window current.

(** *** Lines 203-221 *)

Definition on_window_all_closed : M unit :=
  h <- read host ;;
  if negb (str_eqb (platform h) (str "darwin")) then perform AppQuit else ret tt.

Definition on_quit : M unit :=
  running <- read gatewayProcess ;;
  if ref_truthy running then kill running else ret tt.

Definition on_activate : M unit :=
  win <- read mainWindow ;;
  match win with
  | Null => createWindow
  | _ => ret tt
  end.

(** *** The event loop *)

(** What a timer runs when it fires. *)
Definition call (handler : callback) : M unit :=
  match handler with
  | RetryLoad => retry_load
  end.

(** What the shell, a window, a timer or the child can deliver. *)
Inductive event : Type :=
| Ready
| WindowAllClosed
| Quit
| Activate
| DidFailLoad (errorCode : Z) (errorDescription validatedURL : jsstring)
| RetryTimer
| Closed
| GatewayStdout (data : jsstring)
| GatewayStderr (data : jsstring)
| GatewayExit (code : option N) (signal : option jsstring)
| GatewayError (err : js_error).

Definition dispatch (e : event) : M unit :=
  match e with
  | Ready => createWindow
  | WindowAllClosed => on_window_all_closed
  | Quit => on_quit
  | Activate => on_activate
  | DidFailLoad code description url => on_did_fail_load code description url
  | RetryTimer => call RetryLoad
  | Closed => on_closed
  | GatewayStdout data => on_gateway_stdout data
  | GatewayStderr data => on_gateway_stderr data
  | GatewayExit code signal => on_gateway_exit code signal
  | GatewayError err => on_gateway_error err
  end.

(** The world after the events [evs], delivered in order. *)
Fixpoint run (evs : list event) (w : World) : World :=
  match evs with
  | [] => w
  | e :: rest => run rest (exec (dispatch e) w)
  end.

(** *** Reading the trace *)

Definition is_spawn (e : effect) : bool :=
  match e with Spawn _ _ => true | _ => false end.

Definition is_timeout (e : effect) : bool :=
  match e with SetTimeout _ _ => true | _ => false end.

Definition is_kill (e : effect) : bool :=
  match e with Kill _ => true | _ => false end.

Definition is_write (e : effect) : bool :=
  match e with WriteFile _ _ => true | _ => false end.

Definition is_log (e : effect) : bool :=
  match e with Log _ _ => true | _ => false end.

Definition is_open (e : effect) : bool :=
  match e with CreateWriteStream _ => true | _ => false end.

Definition spawns (w : World) : list effect := filter is_spawn (trace w).
Definition retries_scheduled (w : World) : list effect := filter is_timeout (trace w).

(** The number of log lines among some effects. *)
Definition count_logs (effs : list effect) : nat := List.length (filter is_log effs).

(** The files after the effects [effs], when [n] lines had been logged
    before them: a [Log] entry is a line at the end of the log file, a
    [WriteFile] entry a file replaced, a [CreateWriteStream] entry a
    file opened for appending. *)
Fixpoint files_after (h : Host) (n : nat) (effs : list effect)
    (fs : jsstring -> option jsstring) : jsstring -> option jsstring :=
  match effs with
  | [] => fs
  | e :: rest =>
      match e with
      | WriteFile path content => files_after h n rest (write_file path content fs)
      | CreateWriteStream path => files_after h n rest (touch path fs)
      | Log level message =>
          files_after h (S n) rest
            (append_file (log_path h) (log_line (clock h n) level message) fs)
      | _ => files_after h n rest fs
      end
  end.

(** An effect that is no write to the file at [p] and does not open
    it. *)
Definition spares (p : jsstring) (e : effect) : Prop :=
  match e with
  | WriteFile q _ | CreateWriteStream q => q <> p
  | _ => True
  end.

(** [now] holds what [before] held, and maybe more after it. *)
Definition extends (before now : option jsstring) : Prop :=
  forall old, before = Some old -> exists added, now = Some (old ++ added).

(** The world after the line [message] has been logged at [level]:
    the line is at the end of the log file, with the time the clock
    gives it. *)
Definition with_log (level message : jsstring) (w : World) : World :=
  set_trace (trace w ++ [Log level message])
    (set_logged (S (logged w))
       (set_files
          (append_file (log_path (host w))
             (log_line (clock (host w) (logged w)) level message) (files w)) w)).

(** *** What the bootstrap finds *)

(** The path of the config file, [<userData>\openclaw.json]. *)
Definition config_path (w : World) : jsstring :=
  path_join (userData (host w)) (str "openclaw.json").

(** What lines 62-79 find in the state directory: the token of the
    config file, [""] when there is no file or no usable token, or the
    exception the [try] block catches. *)
Definition stored_token (w : World) : result jsstring :=
  match files w (config_path w) with
  | None => Ok []
  | Some raw =>
      match JSON_parse raw with
      | None => Throw (json_syntax_error (host w) raw)
      | Some parsed => token_of_parsed parsed
      end
  end.

(** Effects that write no file but the config file and open no file
    but the log. *)
Definition trace_targets (w : World) (effs : list effect) : Prop :=
  Forall (fun e => match e with
                   | WriteFile path _ => path = config_path w
                   | CreateWriteStream path => path = log_path (host w)
                   | _ => True
                   end) effs.

(** The token found, [""] also when the [try] block threw. *)
Definition existing_token (w : World) : jsstring :=
  match stored_token w with
  | Ok token => token
  | Throw _ => []
  end.

(** The warning of line 77, when the [try] block threw. *)
Definition parse_warning (w : World) : list effect :=
  match stored_token w with
  | Ok _ => []
  | Throw err =>
      [Log (str "warn") (str "Failed to parse config, regenerating: " ++ err_text err)]
  end.

(** The token line 81 settles on. *)
Definition resolved_token (w : World) : jsstring :=
  if str_truthy (existing_token w) then existing_token w
  else toString_hex (next_bytes 24 w).

(** The text line 83 writes. *)
Definition written_config (w : World) : jsstring :=
  JSON_stringify2 (minimal_config (resolved_token w) (gatewayPort w)) ++ [10].

(** The [spawn] call [startGateway(rootDir)] makes in the world [w]. *)
Definition gateway_call (rootDir : jsstring) (w : World) : spawn_call :=
  {| sp_command := execPath (host w);
     sp_args := gateway_args (path_join rootDir (str "openclaw.mjs"))
                  (gatewayToken w) (gatewayPort w);
     sp_cwd := rootDir;
     sp_env := gateway_env (process_env (host w)) (gatewayStateDir w)
                 (gatewayConfigPath w) (gatewayToken w) |}.

(** What [ensureGatewayConfig] does. *)
Definition bootstrap_effects (w : World) : list effect :=
  [Mkdir (userData (host w))] ++ parse_warning w
    ++ [WriteFile (config_path w) (written_config w);
        Log (str "info") (str "Wrote gateway config: " ++ config_path w)].

(** What [startGateway(rootDir)] does when no child is held. *)
Definition start_effects (rootDir : jsstring) (w : World) : list effect :=
  [Log (str "info")
     (str "Starting gateway via Electron-as-Node: "
        ++ path_join rootDir (str "openclaw.mjs"));
   Log (str "info") (str "Gateway config: " ++ gatewayConfigPath w);
   Spawn (children w) (gateway_call rootDir w)].

(** [resolveRootDir()]. *)
Definition root_dir (h : Host) : jsstring :=
  if negb (isPackaged h) then path_join (dirname h) (str "../..") else resourcesPath h.

(** The world in which [createWindow] calls [startGateway]: the window
    is created and the bootstrap has run; the log and the trace are left
    out. *)
Definition booted (w : World) : World :=
  {| host := host w;
     mainWindow := Object (windows w);
     gatewayProcess := gatewayProcess w;
     gatewayToken := resolved_token w;
     gatewayConfigPath := config_path w;
     gatewayStateDir := userData (host w);
     gatewayPort := gatewayPort w;
     controlUiUrl := controlUiUrl w;
     uiRetries := uiRetries w;
     files := write_file (config_path w) (written_config w) (files w);
     drawn := if str_truthy (existing_token w) then drawn w else (drawn w + 24)%nat;
     children := children w;
     windows := S (windows w);
     logged := logged w;
     trace := [] |}.

(** The URL [buildControlUiUrl()] returns for a port and a token. *)
Definition control_url (port : N) (token : jsstring) : jsstring :=
  str "http://127.0.0.1:" ++ string_of_N port ++ str "/?token=" ++ form_urlencode token.

(** What [createWindow] does. *)
Definition window_effects (w : World) : list effect :=
  let url := control_url (gatewayPort w) (resolved_token w) in
  [Mkdir (userData (host w));
   CreateWriteStream (log_path (host w));
   Log (str "info") (str "TIXBOT starting...");
   NewWindow (windows w);
   Log (str "info") (str "Root dir: " ++ root_dir (host w))]
    ++ bootstrap_effects w
    ++ (if ref_truthy (gatewayProcess w) then []
        else start_effects (root_dir (host w)) (booted w))
    ++ [Log (str "info") (str "Loading UI: " ++ url);
        LoadURL (windows w) url].

(** An effect that names a port names [port]: the config written, the
    child's arguments, the URL loaded. *)
Definition carries_port (port : N) (e : effect) : Prop :=
  match e with
  | WriteFile _ content =>
      exists token, content = JSON_stringify2 (minimal_config token port) ++ [10]
  | Spawn _ call => exists entry token, sp_args call = gateway_args entry token port
  | LoadURL _ url => exists token, url = control_url port token
  | _ => True
  end.

(** What holds of the module state after any sequence of events. *)
Record invariant (w : World) : Prop := {
  inv_port : gatewayPort w = 18789;
  inv_retries : uiRetries w <= 20;
  inv_timers : List.length (retries_scheduled w) = N.to_nat (uiRetries w);
  inv_effects : Forall (carries_port 18789) (trace w);
  inv_url : ref_truthy (mainWindow w) = true ->
            exists token, controlUiUrl w = control_url 18789 token
}.

(** Effects that set no timer and name no port. *)
Definition plain (e : effect) : bool :=
  match e with
  | Mkdir _ | CreateWriteStream _ | Log _ _ | NewWindow _ | Kill _ | AppQuit => true
  | _ => false
  end.

(** The prefix the [did-fail-load] listener looks for. *)
Definition loopback_prefix : jsstring := str "http://127.0.0.1".

(** The listener's test of the failing URL (lines 178-179): not empty
    and beginning with [loopback_prefix]. *)
Definition loopback_url (url : jsstring) : bool :=
  str_truthy url && startsWith loopback_prefix url.

(** A load failure whose failing URL passes that test. *)
Definition loopback_failure (e : event) : bool :=
  match e with
  | DidFailLoad _ _ url => loopback_url url
  | _ => false
  end.

(** The line the listener logs first. *)
Definition load_failure_message (errorCode : Z) (errorDescription validatedURL : jsstring)
  : jsstring :=
  str "UI failed to load: " ++ string_of_Z errorCode ++ str " "
    ++ errorDescription ++ str " " ++ validatedURL.

Definition load_failure_log (errorCode : Z) (errorDescription validatedURL : jsstring)
  : effect :=
  Log (str "error") (load_failure_message errorCode errorDescription validatedURL).

(** *** Loopback URLs, as the specification has them *)

(** What follows the scheme and [//] in a URL. *)
Fixpoint after_scheme (url : jsstring) : option jsstring :=
  match url with
  | [] => None
  | c :: rest => if c =? 58 then strip_prefix (str "//") rest else after_scheme rest
  end.

(** The authority: up to the first [/], [\], [?] or [#]. *)
Fixpoint authority (s : jsstring) : jsstring :=
  match s with
  | [] => []
  | c :: rest =>
      if (c =? 47) || (c =? 92) || (c =? 63) || (c =? 35) then [] else c :: authority rest
  end.

(** The authority without its user information: after the last [@]. *)
Fixpoint after_last_at (s : jsstring) : jsstring :=
  match s with
  | [] => []
  | c :: rest => if existsb (N.eqb 64) s then after_last_at rest else s
  end.

(** The host: up to the [:] of the port. *)
Fixpoint hostname (s : jsstring) : jsstring :=
  match s with
  | [] => []
  | c :: rest => if c =? 58 then [] else c :: hostname rest
  end.

Definition url_host (url : jsstring) : option jsstring :=
  match after_scheme url with
  | Some rest => Some (hostname (after_last_at (authority rest)))
  | None => None
  end.

(** A loopback URL in the words of the specification (glossary:
    loopback is the interface reachable only from the same host,
    127.0.0.1): a URL whose host is [127.0.0.1]. *)
Definition spec_loopback_url (url : jsstring) : bool :=
  match url_host url with
  | Some h => str_eqb h (str "127.0.0.1")
  | None => false
  end.

(** A URL on a remote host whose name begins like the loopback
    address. *)
Definition lookalike_url : jsstring := str "http://127.0.0.1.example.com/".

(** *** Sample data *)

(** Text with each apostrophe read as a double quote, to write JSON
    documents down. *)
Definition dq (s : string) : jsstring :=
  map (fun c => if c =? 39 then 34 else c) (str s).

(** A clock that ticks once a line, and the error V8 reports for a
    JSON text that ends too early. *)
Definition sample_clock (n : nat) : jsstring :=
  str "2026-01-01T00:00:00."
    ++ [48 + N.of_nat n / 100 mod 10; 48 + N.of_nat n / 10 mod 10; 48 + N.of_nat n mod 10]
    ++ str "Z".

Definition sample_syntax_error : js_error :=
  {| err_stack :=
       Some (str "SyntaxError: Unexpected end of JSON input"
               ++ [10] ++ str "    at JSON.parse (<anonymous>)");
     err_text := str "SyntaxError: Unexpected end of JSON input" |}.

Definition sample_host : Host :=
  {| isPackaged := true;
     resourcesPath := str "C:\app\resources";
     dirname := str "C:\src\apps\windows";
     execPath := str "C:\app\tixbot.exe";
     userData := str "C:\data\tixbot";
     platform := str "win32";
     process_env := [(str "PATH", str "C:\Windows"); (str "NODE_ENV", str "development")];
     entropy := fun i => match Byte.of_nat (i * 7 + 3) with Some b => b | None => x00 end;
     clock := sample_clock;
     syntax_error := fun _ => sample_syntax_error |}.

(** The same machine running the shell from its source tree. *)
Definition dev_host : Host :=
  {| isPackaged := false;
     resourcesPath := str "C:\app\resources";
     dirname := str "C:\src\apps\windows";
     execPath := str "C:\src\node_modules\electron\dist\electron.exe";
     userData := str "C:\data\tixbot";
     platform := str "win32";
     process_env := [(str "PATH", str "C:\Windows")];
     entropy := fun i => match Byte.of_nat (i * 7 + 3) with Some b => b | None => x00 end;
     clock := sample_clock;
     syntax_error := fun _ => sample_syntax_error |}.

Definition sample_log_path : jsstring := str "C:\data\tixbot\tixbot.log".

Definition sample_config_path : jsstring := str "C:\data\tixbot\openclaw.json".

Definition no_files : jsstring -> option jsstring := fun _ => None.

(** The text of the config file for [token] and port 18789, as the
    bootstrap writes it. *)
Definition config_file_text (token : jsstring) : jsstring :=
  join [10]
    [dq "{";
     dq "  'gateway': {";
     dq "    'mode': 'local',";
     dq "    'bind': 'loopback',";
     dq "    'port': 18789,";
     dq "    'auth': {";
     dq "      'mode': 'token',";
     dq "      'token': " ++ quote token;
     dq "    },";
     dq "    'controlUi': {";
     dq "      'enabled': true,";
     dq "      'allowInsecureAuth': true";
     dq "    }";
     dq "  }";
     dq "}";
     []].

(** A config file that records another port and a token with white
    space around it, and what it parses to. *)
Definition padded_config : jsstring :=
  dq "{'gateway':{'port':9999,'auth':{'mode':'token','token':' abc '}}}".

Definition padded_parsed : json :=
  JObj [(str "gateway", JObj
     [(str "port", JNum (str "9999"));
      (str "auth", JObj [(str "mode", JStr (str "token"));
                         (str "token", JStr (str " abc "))])])].

(** A config file that is not JSON. *)
Definition corrupt_config : jsstring := dq "{'gateway': {'auth': ".

(** A state directory whose config file holds [content]. *)
Definition with_config (content : jsstring) : jsstring -> option jsstring :=
  write_file sample_config_path content no_files.

(** *** Reading environments, events and effects *)

(** [env[name]]: the value of a variable in an environment object,
    whose keys are distinct. *)
Fixpoint env_lookup (name : jsstring) (env : list (jsstring * jsstring))
  : option jsstring :=
  match env with
  | [] => None
  | (k, v) :: rest => if str_eqb k name then Some v else env_lookup name rest
  end.

(** The variables [startGateway] sets in the child's environment. *)
Definition gateway_variables : list jsstring :=
  [str "ELECTRON_RUN_AS_NODE"; str "OPENCLAW_NO_RESPAWN"; str "OPENCLAW_SKIP_CHANNELS";
   str "OPENCLAW_SKIP_RUNTIME_GUARD"; str "OPENCLAW_STATE_DIR";
   str "OPENCLAW_CONFIG_PATH"; str "OPENCLAW_GATEWAY_TOKEN"; str "NODE_ENV"].

(** The events whose listeners clear the handle. *)
Definition is_release (e : event) : bool :=
  match e with
  | GatewayExit _ _ | GatewayError _ => true
  | _ => false
  end.

Definition is_quit (e : event) : bool :=
  match e with Quit => true | _ => false end.

Definition is_load_failure (e : event) : bool :=
  match e with DidFailLoad _ _ _ => true | _ => false end.

(** Whether the listener of [e] calls [createWindow] in the world [w]:
    [ready] always, [activate] when [mainWindow === null]. *)
Definition creates_window (e : event) (w : World) : bool :=
  match e with
  | Ready => true
  | Activate => match mainWindow w with Null => true | _ => false end
  | _ => false
  end.

(** The log line of one chunk of the child's output. *)
Definition output_line (e : event) : list effect :=
  match e with
  | GatewayStdout data => [Log (str "info") (str "gateway stdout: " ++ trim data)]
  | GatewayStderr data => [Log (str "error") (str "gateway stderr: " ++ trim data)]
  | _ => []
  end.

Definition is_output (e : event) : bool :=
  match e with GatewayStdout _ | GatewayStderr _ => true | _ => false end.

Definition is_load (e : effect) : bool :=
  match e with LoadURL _ _ => true | _ => false end.

(** The events whose listeners may call [createWindow]. *)
Definition may_create_window (e : event) : bool :=
  match e with Ready | Activate => true | _ => false end.

(** Whether the events [evs], delivered in order from the world [w],
    go by without a call of [createWindow]. *)
Fixpoint no_window_created (evs : list event) (w : World) : bool :=
  match evs with
  | [] => true
  | e :: rest => negb (creates_window e w) && no_window_created rest (exec (dispatch e) w)
  end.

(** The state once a bootstrap has run: the config file holds the
    token in memory, which is trimmed and not empty, and the URL is
    built from it. *)
Record settled (w : World) : Prop := {
  settled_port : gatewayPort w = 18789;
  settled_file : files w (config_path w) = Some (config_file_text (gatewayToken w));
  settled_trim : trim (gatewayToken w) = gatewayToken w;
  settled_truthy : str_truthy (gatewayToken w) = true;
  settled_url : controlUiUrl w = control_url 18789 (gatewayToken w)
}.

(** Every signal sent so far went to a child that had been spawned,
    and so does the handle refer to one. *)
Definition kills_known (w : World) : Prop :=
  Forall (fun e => match e with
                   | Kill child => (child < children w)%nat
                   | _ => True
                   end) (trace w)
  /\ match gatewayProcess w with
     | Object child => (child < children w)%nat
     | _ => True
     end.

(** Config files that are JSON and hold no usable token. *)
Definition blank_token_config : jsstring :=
  dq "{'gateway':{'auth':{'mode':'token','token':'   '}}}".

Definition tokenless_documents : list jsstring :=
  [dq "null"; dq "0"; dq "true"; dq "'gateway'"; dq "[]"; dq "{}";
   dq "{'gateway':null}"; dq "{'gateway':7}"; dq "{'gateway':{'auth':null}}";
   dq "{'gateway':{'auth':'token'}}"; dq "{'gateway':{'auth':{'token':18789}}}";
   dq "{'gateway':{'auth':{'token':null}}}"; dq "{'gateway':{'auth':{'token':''}}}";
   dq "{'gateway':{'auth':{'token':'abc'}},'gateway':[]}"].

(* ================================================================== *)
(** ** The A2UI bundling script (the second source file)

    The script decides whether the UI bundle must be rebuilt: it hashes
    the input files and compares the digest with the one recorded by
    the last build.  Its [await]s run one after the other, so the model
    is sequential.  A path is the list of its components below
    [rootDir]; a file holds text, and its bytes are the UTF-8 encoding
    of that text. *)

Module Bundle.

(** What the script takes from Node and the platform. *)
Record Platform : Type := {
  sep : N;                                    (* path.sep *)
  win32 : bool;                               (* process.platform === "win32" *)
  rootDir : jsstring;
  sha256 : list N -> list byte;               (* the digest of the bytes fed to the hash *)
  localeCompare : jsstring -> jsstring -> Z;  (* String.prototype.localeCompare *)
}.

Definition path : Type := list jsstring.

(** A file system below [rootDir]: files and directories, each
    directory with its entries in the order [readdir] lists them. *)
Inductive node : Type :=
| File (text : jsstring)
| Directory (entries : list (jsstring * node)).

Fixpoint find_entry (name : jsstring) (entries : list (jsstring * node)) : option node :=
  match entries with
  | [] => None
  | (n, child) :: rest => if str_eqb n name then Some child else find_entry name rest
  end.

(** [fs.stat(p)]: what is at [p], or [None] when [stat] rejects. *)
Fixpoint stat (p : path) (root : node) : option node :=
  match p with
  | [] => Some root
  | name :: rest =>
      match root with
      | File _ => None
      | Directory entries =>
          match find_entry name entries with
          | Some child => stat rest child
          | None => None
          end
      end
  end.

(** [fs.readFile(p)]: the text of the file at [p]. *)
Definition readFile (p : path) (root : node) : option jsstring :=
  match stat p root with
  | Some (File text) => Some text
  | _ => None
  end.

(** An entry put under [name], in place when the name is there. *)
Fixpoint put_entry (name : jsstring) (child : node) (entries : list (jsstring * node))
  : list (jsstring * node) :=
  match entries with
  | [] => [(name, child)]
  | (n, old) :: rest =>
      if str_eqb n name then (n, child) :: rest else (n, old) :: put_entry name child rest
  end.

(** [fs.writeFile(p, text)]: the file system after it, or [None] when
    it rejects (no such directory, or a directory in the way). *)
Fixpoint writeFile (p : path) (text : jsstring) (root : node) : option node :=
  match p with
  | [] =>
      match root with
      | File _ => Some (File text)
      | Directory _ => None
      end
  | name :: rest =>
      match root with
      | File _ => None
      | Directory entries =>
          match find_entry name entries with
          | Some child =>
              match writeFile rest text child with
              | Some child' => Some (Directory (put_entry name child' entries))
              | None => None
              end
          | None =>
              match rest with
              | [] => Some (Directory (put_entry name (File text) entries))
              | _ :: _ => None
              end
          end
      end
  end.

(** Lines 7-10. *)
Definition hashFile : path :=
  [str "src"; str "canvas-host"; str "a2ui"; str ".bundle.hash"].
Definition outputFile : path :=
  [str "src"; str "canvas-host"; str "a2ui"; str "a2ui.bundle.js"].
Definition rendererDir : path :=
  [str "vendor"; str "a2ui"; str "renderers"; str "lit"].
Definition appDir : path :=
  [str "apps"; str "shared"; str "OpenClawKit"; str "Tools"; str "CanvasA2UI"].

(** Lines 12-19: whether [stat] succeeds. *)
Definition exists_ (p : path) (root : node) : bool :=
  match stat p root with
  | Some _ => true
  | None => false
  end.

(** Lines 21-31.  [walk] pushes the files below [entryPath] onto
    [files], a directory's entries in [readdir] order.  The [stat] of a
    listed entry finds that entry, so the recursion follows the tree. *)
Fixpoint walk_node (entryPath : path) (st : node) (files : list path) : list path :=
  match st with
  | Directory entries =>
      (fix each (entries : list (jsstring * node)) (files : list path) : list path :=
         match entries with
         | [] => files
         | (entry, child) :: rest =>
             each rest (walk_node (entryPath ++ [entry]) child files)
         end) entries files
  | File _ => files ++ [entryPath]
  end.

Definition walk (entryPath : path) (files : list path) (root : node)
  : option (list path) :=
  match stat entryPath root with
  | Some st => Some (walk_node entryPath st files)
  | None => None
  end.

(** [s.split(separator)] for a separator of one character. *)
Fixpoint split (separator : N) (s : jsstring) : list jsstring :=
  match s with
  | [] => [[]]
  | c :: rest =>
      if c =? separator then [] :: split separator rest
      else
        match split separator rest with
        | segment :: segments => (c :: segment) :: segments
        | [] => [[c]]
        end
  end.

(** Lines 33-35. *)
Definition normalize (pf : Platform) (p : jsstring) : jsstring :=
  join [47] (split (sep pf) p).

(** [path.join(rootDir, ...p)] and [path.relative(rootDir, path.join(rootDir, ...p))]
    for plain names. *)
Definition absolute (pf : Platform) (p : path) : jsstring :=
  join [sep pf] (rootDir pf :: p).
Definition relative (pf : Platform) (p : path) : jsstring := join [sep pf] p.

(** [files.sort(compare)]: a stable sort; [x] goes before the first
    element it does not compare greater than. *)
Fixpoint insert_sorted (compare : path -> path -> Z) (x : path) (sorted : list path)
  : list path :=
  match sorted with
  | [] => [x]
  | y :: rest =>
      if (compare x y <=? 0)%Z then x :: sorted
      else y :: insert_sorted compare x rest
  end.

Definition sort (compare : path -> path -> Z) (files : list path) : list path :=
  fold_right (insert_sorted compare) [] files.

(** The comparison of line 42. *)
Definition compare_paths (pf : Platform) (a b : path) : Z :=
  localeCompare pf (normalize pf (absolute pf a)) (normalize pf (absolute pf b)).

Definition utf8_bytes (s : jsstring) : list N := flat_map utf8 (code_points s).

Fixpoint path_eqb (a b : path) : bool :=
  match a, b with
  | [], [] => true
  | x :: a', y :: b' => str_eqb x y && path_eqb a' b'
  | _, _ => false
  end.

(** Whether [compare] is an order on [files]: any two of them are
    comparable, only equal paths compare equal both ways, and the
    comparison is transitive. *)
Definition orders (compare : path -> path -> Z) (files : list path) : bool :=
  forallb (fun a =>
    forallb (fun b =>
      ((compare a b <=? 0)%Z || (compare b a <=? 0)%Z)
      && (negb ((compare a b <=? 0)%Z && (compare b a <=? 0)%Z) || path_eqb a b)
      && forallb (fun c =>
           negb ((compare a b <=? 0)%Z && (compare b c <=? 0)%Z)
           || (compare a c <=? 0)%Z) files) files) files.

(** Lines 44-50: what is fed to the hash for the files, in order;
    [None] when a [readFile] rejects. *)
Fixpoint hash_input (pf : Platform) (files : list path) (root : node) : option (list N) :=
  match files with
  | [] => Some []
  | filePath :: rest =>
      let rel := normalize pf (relative pf filePath) in
      match readFile filePath root with
      | None => None
      | Some text =>
          match hash_input pf rest root with
          | None => None
          | Some more => Some (utf8_bytes rel ++ [0] ++ utf8_bytes text ++ [0] ++ more)
          end
      end
  end.

(** The loop of lines 39-41. *)
Fixpoint walk_all (inputPaths : list path) (files : list path) (root : node)
  : option (list path) :=
  match inputPaths with
  | [] => Some files
  | input :: rest =>
      match walk input files root with
      | Some files' => walk_all rest files' root
      | None => None
      end
  end.

(** Lines 37-52: the digest, or [None] when the promise rejects. *)
Definition computeHash (pf : Platform) (inputPaths : list path) (root : node)
  : option jsstring :=
  match walk_all inputPaths [] root with
  | None => None
  | Some files =>
      match hash_input pf (sort (compare_paths pf) files) root with
      | None => None
      | Some bytes => Some (toString_hex (sha256 pf bytes))
      end
  end.

(** What the script does to the outside. *)
Inductive action : Type :=
| ConsoleLog (line : jsstring)
| ConsoleError (line : jsstring)
| SpawnSync (cmd : jsstring) (args : list jsstring)
| WriteHash (p : path) (text : jsstring).

(** How the process ends: [main] returns, or [process.exit(code)]. *)
Inductive ending : Type :=
| Returned
| Exited (code : Z).

Record state : Type := {
  tree : node;
  done : list action      (* oldest first *)
}.

(** A command run by [spawnSync]: its exit status ([None] when a
    signal ended it) and the file system it leaves. *)
Definition command : Type := jsstring -> list jsstring -> node -> option Z * node.

(** Lines 54-59: [None] when [run] returns, the exit code when it
    exits the process. *)
Definition run (spawnSync : command) (cmd : jsstring) (args : list jsstring) (s : state)
  : state * option Z :=
  let (status, after) := spawnSync cmd args (tree s) in
  let s' := {| tree := after; done := done s ++ [SpawnSync cmd args] |} in
  match status with
  | Some 0%Z => (s', None)
  | Some code => (s', Some code)
  | None => (s', Some 1%Z)
  end.

Definition inputPaths : list path :=
  [[str "package.json"]; [str "pnpm-lock.yaml"]; rendererDir; appDir].

(** Lines 98-103: the handler of a rejected [main]; the third line
    is the error itself, whose text is Node's. *)
Definition rejected (s : state) : state * ending :=
  ({| tree := tree s;
      done := done s
        ++ [ConsoleError (str "A2UI bundling failed. Re-run with: pnpm canvas:a2ui:bundle");
            ConsoleError (str "If this persists, verify pnpm deps and try again.");
            ConsoleError (str "Error")] |},
   Exited 1).

Definition log (line : jsstring) (s : state) : state :=
  {| tree := tree s; done := done s ++ [ConsoleLog line] |}.

(** Lines 76-83: whether the recorded digest is the current one and
    the bundle is there; [None] when reading the record rejects. *)
Definition up_to_date (currentHash : jsstring) (root : node) : option bool :=
  if exists_ hashFile root then
    match readFile hashFile root with
    | None => None
    | Some text =>
        let previousHash := trim text in
        Some (str_eqb previousHash currentHash && exists_ outputFile root)
    end
  else Some false.

(** Lines 61-103, with the [catch] of line 98. *)
Definition main (pf : Platform) (spawnSync : command) (s : state) : state * ending :=
  let rendererExists := exists_ rendererDir (tree s) in
  let appExists := exists_ appDir (tree s) in
  if negb rendererExists || negb appExists then
    (log (str "A2UI sources missing; keeping prebuilt bundle.") s, Returned)
  else
    match computeHash pf inputPaths (tree s) with
    | None => rejected s
    | Some currentHash =>
        match up_to_date currentHash (tree s) with
        | None => rejected s
        | Some true => (log (str "A2UI bundle up to date; skipping.") s, Returned)
        | Some false =>
            let pnpmCmd := if win32 pf then str "pnpm.cmd" else str "pnpm" in
            match run spawnSync pnpmCmd
                    [str "-s"; str "exec"; str "tsc"; str "-p";
                     absolute pf (rendererDir ++ [str "tsconfig.json"])] s with
            | (s1, Some code) => (s1, Exited code)
            | (s1, None) =>
                match run spawnSync pnpmCmd
                        [str "-s"; str "exec"; str "rolldown"; str "-c";
                         absolute pf (appDir ++ [str "rolldown.config.mjs"])] s1 with
                | (s2, Some code) => (s2, Exited code)
                | (s2, None) =>
                    match writeFile hashFile (currentHash ++ [10]) (tree s2) with
                    | None => rejected s2
                    | Some written =>
                        ({| tree := written;
                            done := done s2 ++ [WriteHash hashFile (currentHash ++ [10])] |},
                         Returned)
                    end
                end
            end
        end
    end.

(** The two commands of lines 85-93. *)
Definition pnpmCmd (pf : Platform) : jsstring :=
  if win32 pf then str "pnpm.cmd" else str "pnpm".
Definition tsc_args (pf : Platform) : list jsstring :=
  [str "-s"; str "exec"; str "tsc"; str "-p";
   absolute pf (rendererDir ++ [str "tsconfig.json"])].
Definition rolldown_args (pf : Platform) : list jsstring :=
  [str "-s"; str "exec"; str "rolldown"; str "-c";
   absolute pf (appDir ++ [str "rolldown.config.mjs"])].

(** [status ?? 1]. *)
Definition exit_code (status : option Z) : Z :=
  match status with Some code => code | None => 1%Z end.

Definition is_write_hash (a : action) : bool :=
  match a with WriteHash _ _ => true | _ => false end.


(** *** Sample data *)

(** A platform to run examples on, with a stand-in for the digest
    (the first 32 bytes fed) and the comparison of code units for
    [localeCompare]. *)
Definition posix : Platform :=
  {| sep := 47; win32 := false; rootDir := str "/repo";
     sha256 := fun bytes => map (fun b => match Byte.of_N (b mod 256) with
                                          | Some x => x
                                          | None => x00
                                          end) (firstn 32 (bytes ++ repeat 0 32));
     localeCompare :=
       fix cmp (a b : jsstring) : Z :=
         match a, b with
         | [], [] => 0%Z
         | [], _ :: _ => (-1)%Z
         | _ :: _, [] => 1%Z
         | x :: a', y :: b' =>
             if N.ltb x y then (-1)%Z else if N.ltb y x then 1%Z else cmp a' b'
         end |}.

Definition file (name text : string) : jsstring * node := (str name, File (str text)).
Definition dir (name : string) (entries : list (jsstring * node)) : jsstring * node :=
  (str name, Directory entries).

(** A checkout with the sources, without a bundle. *)
Definition sample_tree : node :=
  Directory
    [file "package.json" "{}";
     file "pnpm-lock.yaml" "lockfileVersion: 9";
     dir "src" [dir "canvas-host" [dir "a2ui" []]];
     dir "vendor" [dir "a2ui" [dir "renderers" [dir "lit"
       [file "tsconfig.json" "{}";
        dir "src" [file "b.ts" "export {}"; file "a.ts" "import './b'"]]]]];
     dir "apps" [dir "shared" [dir "OpenClawKit" [dir "Tools" [dir "CanvasA2UI"
       [file "rolldown.config.mjs" "export default {}";
        file "bootstrap.js" "boot()"]]]]]].

(** The same checkout, listed by [readdir] in another order. *)
Definition relisted_tree : node :=
  Directory
    [file "package.json" "{}";
     file "pnpm-lock.yaml" "lockfileVersion: 9";
     dir "src" [dir "canvas-host" [dir "a2ui" []]];
     dir "vendor" [dir "a2ui" [dir "renderers" [dir "lit"
       [dir "src" [file "a.ts" "import './b'"; file "b.ts" "export {}"];
        file "tsconfig.json" "{}"]]]];
     dir "apps" [dir "shared" [dir "OpenClawKit" [dir "Tools" [dir "CanvasA2UI"
       [file "bootstrap.js" "boot()";
        file "rolldown.config.mjs" "export default {}"]]]]]].

(** A build that succeeds: [rolldown] writes the bundle. *)
Definition building : command :=
  fun cmd args root =>
    if str_eqb (nth 2 args []) (str "rolldown") then
      match writeFile outputFile (str "bundle") root with
      | Some after => (Some 0%Z, after)
      | None => (Some 2%Z, root)
      end
    else (Some 0%Z, root).

(** A build whose type check fails, or is killed. *)
Definition failing (status : option Z) : command :=
  fun cmd args root => (status, root).

Definition fresh (root : node) : state := {| tree := root; done := [] |}.

(** The digest of the sample checkout, and the checkout once built. *)
Definition sample_digest : jsstring :=
  match computeHash posix inputPaths sample_tree with
  | Some h => h
  | None => []
  end.

Definition bundled_tree : node :=
  snd (building (pnpmCmd posix) (rolldown_args posix) sample_tree).

Definition built_tree : node := tree (fst (main posix building (fresh sample_tree))).


End Bundle.

(* ================================================================== *)
(** ** Strings: equality and trimming *)

Lemma str_eqb_refl (s : jsstring) : str_eqb s s = true.
Proof.
  induction s as [|c s IH]; simpl; [reflexivity|].
  now rewrite N.eqb_refl, IH.
Qed.

Lemma str_eqb_eq (a b : jsstring) : str_eqb a b = true <-> a = b.
Proof.
  split.
  - revert b; induction a as [|x a IH]; intros [|y b] H; simpl in H;
      try discriminate; [reflexivity|].
    apply andb_true_iff in H as [Hx Hr].
    apply N.eqb_eq in Hx. apply IH in Hr. now subst.
  - intros ->. apply str_eqb_refl.
Qed.

Lemma write_file_same path content fs : write_file path content fs path = Some content.
Proof. unfold write_file. now rewrite str_eqb_refl. Qed.

Lemma write_file_other path content fs p :
  p <> path -> write_file path content fs p = fs p.
Proof.
  intros Hne. unfold write_file.
  destruct (str_eqb p path) eqn:E; [|reflexivity].
  apply str_eqb_eq in E. contradiction.
Qed.

(* ================================================================== *)
(** ** [path.join]: a file name stays at the end *)

Lemma segments_nonempty (s : jsstring) : segments s <> [].
Proof.
  destruct s as [|c s]; cbn [segments]; [discriminate|].
  destruct (is_sep c); [discriminate|]. destruct (segments s); discriminate.
Qed.

Lemma segments_app_sep (p : jsstring) (c : N) (s : jsstring) :
  is_sep c = true -> segments (p ++ c :: s) = segments p ++ segments s.
Proof.
  intros Hc. induction p as [|x p IH]; cbn [app segments].
  - now rewrite Hc.
  - rewrite IH. destruct (is_sep x); [reflexivity|].
    pose proof (segments_nonempty p) as Hp.
    destruct (segments p) as [|a l]; [contradiction|]. reflexivity.
Qed.

Lemma resolve_app (allow : bool) (a b kept : list jsstring) :
  exists kept', resolve allow (a ++ b) kept = resolve allow b kept'.
Proof.
  revert kept. induction a as [|piece a IH]; intros kept; cbn [app resolve].
  - now exists kept.
  - destruct (str_eqb piece [] || str_eqb piece (str ".")); [apply IH|].
    destruct (str_eqb piece (str "..")); [|apply IH].
    destruct kept as [|top below]; [apply IH|].
    destruct (str_eqb top (str "..")); apply IH.
Qed.

Lemma join_last (glue : jsstring) (xs : list jsstring) (x : jsstring) :
  exists before, join glue (xs ++ [x]) = before ++ x.
Proof.
  induction xs as [|y xs [before IH]]; cbn [app].
  - now exists [].
  - destruct xs as [|z xs]; cbn [app join] in *.
    + exists (y ++ glue). now rewrite <- app_assoc.
    + exists (y ++ glue ++ before). rewrite IH. now rewrite <- !app_assoc.
Qed.

Lemma drop_empty_last (xs : list jsstring) (x : jsstring) :
  x <> [] -> exists ys, drop_empty (xs ++ [x]) = ys ++ [x].
Proof.
  intros Hx. induction xs as [|y xs IH]; cbn [app drop_empty].
  - exists []. destruct x; [contradiction | reflexivity].
  - destruct y; [exact IH|]. now exists ((n :: y) :: xs).
Qed.

Lemma skip_seps_tailed (d : jsstring) (s : jsstring) :
  (forall c r, s = c :: r -> is_sep c = false) ->
  skip_seps (d ++ 92 :: s) = s \/ exists p, skip_seps (d ++ 92 :: s) = p ++ 92 :: s.
Proof.
  intros Hs. induction d as [|x d IH]; cbn [app skip_seps].
  - change (is_sep 92) with true. cbv iota. left.
    destruct s as [|c r]; [reflexivity|]. cbn [skip_seps]. now rewrite (Hs c r eq_refl).
  - destruct (is_sep x); [exact IH|]. right. now exists (x :: d).
Qed.

Lemma drive_letter_no_sep (c : N) : is_drive_letter c = true -> is_sep c = false.
Proof.
  unfold is_drive_letter, is_sep. intros H.
  apply orb_true_iff in H as [H|H]; apply andb_true_iff in H as [H1 H2];
    apply N.leb_le in H1, H2; apply orb_false_iff; split; apply N.eqb_neq; lia.
Qed.

Section PlainName.

(** A file name: not empty, without a separator, neither [.] nor
    [..], and not beginning like a drive ([x:]). *)
Variable name : jsstring.
Hypothesis name_chars : forallb (fun c => negb (is_sep c)) name = true.
Hypothesis name_kept :
  str_eqb name [] || str_eqb name (str ".") || str_eqb name (str "..") = false.
Hypothesis name_no_drive : (nth 1 name 0 =? 58) = false.

Lemma name_nonempty : name <> [].
Proof. intros E. rewrite E in name_kept. discriminate. Qed.

Lemma name_cons : exists c s, name = c :: s.
Proof.
  pose proof name_kept as H. destruct name as [|c s]; [discriminate|]. now exists c, s.
Qed.

Lemma name_head (c : N) (s : jsstring) : name = c :: s -> is_sep c = false.
Proof.
  intros E. rewrite E in name_chars. cbn [forallb] in name_chars.
  apply andb_true_iff in name_chars as [H _]. now apply negb_true_iff in H.
Qed.

Lemma name_last : is_sep (last name 0) = false.
Proof.
  pose proof name_nonempty as Hne.
  destruct (exists_last Hne) as (u & z & E). rewrite E, last_last.
  rewrite E, forallb_app in name_chars. apply andb_true_iff in name_chars as [_ H].
  cbn [forallb] in H. rewrite andb_true_r in H. now apply negb_true_iff in H.
Qed.

Lemma tailed_cons (c : N) (s : jsstring) :
  tailed name (c :: s) -> (is_sep c = true /\ s = name) \/ tailed name s.
Proof.
  intros (p & d & Hd & E). destruct p as [|x p]; cbn [app] in E.
  - inversion E; subst. now left.
  - inversion E; subst. right. now exists p, d.
Qed.

Lemma segments_name : segments name = [name].
Proof.
  clear name_kept name_no_drive. revert name_chars.
  induction name as [|c s IH]; intros H.
  - reflexivity.
  - cbn [forallb] in H. apply andb_true_iff in H as [Hc Hs].
    apply negb_true_iff in Hc. cbn [segments]. rewrite Hc.
    rewrite (IH Hs). reflexivity.
Qed.

Lemma segments_tailed (s : jsstring) :
  s = name \/ tailed name s -> exists before, segments s = before ++ [name].
Proof.
  intros [->|(p & c & Hc & ->)].
  - exists []. apply segments_name.
  - exists (segments p). rewrite (segments_app_sep p c name Hc). now rewrite segments_name.
Qed.

Lemma last_tailed (s : jsstring) : s = name \/ tailed name s -> is_sep (last s 0) = false.
Proof.
  pose proof name_nonempty as Hne.
  intros [->|(p & c & Hc & ->)]; [exact name_last|].
  destruct (exists_last Hne) as (u & z & E).
  replace (p ++ c :: name) with ((p ++ c :: u) ++ [z])
    by (rewrite E, <- app_assoc; reflexivity).
  rewrite last_last. pose proof name_last as H. rewrite E, last_last in H. exact H.
Qed.

Lemma resolve_name (allow : bool) (before kept : list jsstring) :
  exists kept', resolve allow (before ++ [name]) kept = kept' ++ [name].
Proof.
  destruct (resolve_app allow before [name] kept) as [k ->].
  cbn [resolve]. apply orb_false_iff in name_kept as [H1 H2].
  rewrite H1, H2. cbn [rev]. now exists (rev k).
Qed.

Lemma finish_name (path : jsstring) (device : option jsstring) (isAbsolute : bool)
    (before : list jsstring) :
  is_sep (last path 0) = false ->
  ends_in_name name (finish path device isAbsolute (before ++ [name])).
Proof.
  intros Hlast. unfold finish.
  destruct (resolve_name (negb isAbsolute) before []) as [kept ->].
  destruct (join_last [92] kept name) as [pre ->].
  pose proof name_nonempty as Hne.
  remember (pre ++ name) as whole eqn:Ew.
  destruct whole as [|c t].
  { destruct pre; [cbn in Ew; now contradiction Hne | discriminate]. }
  rewrite Hlast, Ew.
  destruct device as [d|], isAbsolute.
  - exists (d ++ 92 :: pre). left. now rewrite <- app_assoc.
  - exists (d ++ pre). left. now rewrite <- app_assoc.
  - exists (92 :: pre). now left.
  - exists pre. now left.
Qed.

Lemma path_normalize_name (s : jsstring) :
  s = name \/ tailed name s -> ends_in_name name (path_normalize s).
Proof.
  intros Hs. pose proof (last_tailed s Hs) as Hlast.
  destruct (segments_tailed s Hs) as [whole Hwhole].
  destruct s as [|c0 [|c1 rest]].
  - destruct Hs as [E|(p & c & _ & E)]; [now contradiction name_nonempty|].
    destruct p; discriminate.
  - destruct Hs as [E|(p & c & _ & E)].
    + cbn [path_normalize]. pose proof (name_head c0 [] (eq_sym E)) as Hc.
      unfold is_sep in Hc. apply orb_false_iff in Hc as [Hc _]. rewrite Hc.
      exists []. left. now rewrite <- E.
    + pose proof name_nonempty as Hne. destruct p as [|x p]; cbn [app] in E.
      * inversion E. congruence.
      * inversion E. destruct p; discriminate.
  - cbn [path_normalize].
    destruct (is_sep c0) eqn:H0.
    + assert (T1 : c1 :: rest = name \/ tailed name (c1 :: rest)).
      { destruct Hs as [E|T]; [now rewrite (name_head c0 _ (eq_sym E)) in H0|].
        destruct (tailed_cons _ _ T) as [[_ E]|T']; [now left | now right]. }
      destruct (is_sep c1) eqn:H1; [|rewrite Hwhole; now apply finish_name].
      assert (T2 : rest = name \/ tailed name rest).
      { destruct T1 as [E|T]; [now rewrite (name_head c1 _ (eq_sym E)) in H1|].
        destruct (tailed_cons _ _ T) as [[_ E]|T']; [now left | now right]. }
      destruct (segments_tailed rest T2) as [pieces Hp]. rewrite Hp.
      destruct pieces as [|firstPart pieces]; cbn [app].
      * destruct name_cons as (n0 & n1 & En). rewrite En. cbv iota.
        rewrite <- En, Hwhole. now apply finish_name.
      * destruct firstPart as [|f0 f1]; [rewrite Hwhole; now apply finish_name|].
        assert (Hmore : pieces ++ [name] <> []) by (destruct pieces; discriminate).
        destruct (pieces ++ [name]) as [|m0 m1] eqn:Em; [contradiction|].
        rewrite <- Em.
        destruct (drop_empty_last pieces name name_nonempty) as [ys ->].
        destruct ys as [|share [|y ys]]; cbn [app].
        -- exists ([92; 92] ++ (f0 :: f1) ++ [92]). right.
           now rewrite <- !app_assoc.
        -- now apply (finish_name _ _ _ []).
        -- now apply (finish_name _ _ _ (y :: ys)).
    + destruct (is_drive_letter c0 && (c1 =? 58)) eqn:Hd;
        [|rewrite Hwhole; now apply finish_name].
      apply andb_true_iff in Hd as [Hl Hc].
      assert (T2 : tailed name rest).
      { destruct Hs as [E|T].
        - rewrite <- E in name_no_drive. cbn [nth] in name_no_drive. congruence.
        - destruct (tailed_cons _ _ T) as [[E _]|T']; [congruence|].
          destruct (tailed_cons _ _ T') as [[E _]|T'']; [|exact T''].
          apply N.eqb_eq in Hc. subst c1. discriminate. }
      destruct rest as [|c2 rest3].
      { destruct T2 as (p & c & _ & E). destruct p; discriminate. }
      destruct (is_sep c2) eqn:H2.
      * destruct (tailed_cons _ _ T2) as [[_ E]|T3].
        -- destruct (segments_tailed rest3 (or_introl E)) as [b ->]. now apply finish_name.
        -- destruct (segments_tailed rest3 (or_intror T3)) as [b ->]. now apply finish_name.
      * destruct (segments_tailed _ (or_intror T2)) as [b ->]. now apply finish_name.
Qed.

(** [path.join(dir, name)] ends in the name. *)
Lemma path_join_name (dir : jsstring) : ends_in_name name (path_join dir name).
Proof.
  destruct name_cons as (n0 & n1 & En).
  pose proof (name_head n0 n1 En) as Hn0.
  replace (path_join dir name) with (path_join dir (n0 :: n1)) by now rewrite En.
  unfold path_join. destruct dir as [|d0 dir]; cbv beta iota zeta.
  - rewrite Hn0.
    match goal with
    | |- ends_in_name name (path_normalize ?t) =>
        replace t with (n0 :: n1) by (destruct n1 as [|? [|? ?]]; reflexivity)
    end.
    rewrite <- En. apply path_normalize_name. now left.
  - change ((d0 :: dir) ++ [92] ++ n0 :: n1) with ((d0 :: dir) ++ 92 :: n0 :: n1).
    rewrite <- En.
    assert (Tj : tailed name ((d0 :: dir) ++ 92 :: name))
      by (exists (d0 :: dir), 92; split; reflexivity).
    destruct (negb _ && _); [|apply path_normalize_name; now right].
    apply path_normalize_name. right.
    destruct (skip_seps_tailed (d0 :: dir) name) as [E|[p E]].
    + intros c r Hc. now apply name_head with r.
    + rewrite E. exists [], 92. split; reflexivity.
    + rewrite E. exists (92 :: p), 92. split; reflexivity.
Qed.

End PlainName.


Lemma final_ends_in_name (name s u : jsstring) (z : N) :
  name = u ++ [z] -> z <> 92 -> ends_in_name name s -> final s = z.
Proof.
  intros -> Hz [p [->| ->]]; unfold final.
  - rewrite app_assoc, rev_app_distr. cbn [rev app].
    apply N.eqb_neq in Hz. now rewrite Hz.
  - rewrite !app_assoc, rev_app_distr. cbn [rev app].
    rewrite rev_app_distr. reflexivity.
Qed.

(** The log file and the config file are two files, whatever the
    state directory is. *)
Lemma log_path_config_path (w : World) : config_path w <> log_path (host w).
Proof.
  unfold log_path, config_path. intros E.
  assert (H1 : final (path_join (userData (host w)) (str "tixbot.log")) = 103).
  { apply (final_ends_in_name (str "tixbot.log") _ (str "tixbot.lo")); [reflexivity|lia|].
    apply path_join_name; reflexivity. }
  assert (H2 : final (path_join (userData (host w)) (str "openclaw.json")) = 110).
  { apply (final_ends_in_name (str "openclaw.json") _ (str "openclaw.jso"));
      [reflexivity|lia|].
    apply path_join_name; reflexivity. }
  rewrite E in H2. rewrite H1 in H2. discriminate.
Qed.

(* ================================================================== *)
(** ** Trimming *)

Lemma trimStart_no_space c s : is_space c = false -> trimStart (c :: s) = c :: s.
Proof. intros H. simpl. now rewrite H. Qed.

Lemma trimStart_head (s : jsstring) :
  match trimStart s with
  | [] => True
  | c :: _ => is_space c = false
  end.
Proof.
  induction s as [|c s IH]; simpl; [exact I|].
  destruct (is_space c) eqn:E; [exact IH | exact E].
Qed.

Lemma trimStart_app_keep (a : jsstring) (c : N) :
  is_space c = false -> forall b, trimStart (a ++ c :: b) = trimStart (a ++ [c]) ++ b.
Proof.
  intros Hc b. induction a as [|x a IH]; simpl.
  - now rewrite Hc.
  - destruct (is_space x); [exact IH|].
    simpl. now rewrite <- app_assoc.
Qed.

Lemma trimStart_suffix (s : jsstring) : exists pre, s = pre ++ trimStart s.
Proof.
  induction s as [|c s [pre IH]]; simpl.
  - now exists [].
  - destruct (is_space c).
    + exists (c :: pre). simpl. now f_equal.
    + now exists [].
Qed.

Lemma trimEnd_head (s : jsstring) (c : N) :
  is_space c = false -> exists t, trimEnd (c :: s) = c :: t.
Proof.
  intros Hc. unfold trimEnd. simpl rev.
  rewrite (trimStart_app_keep (rev s) c Hc []), app_nil_r.
  destruct (trimStart_suffix (rev s ++ [c])) as [pre Hpre].
  assert (Hlast : exists u, trimStart (rev s ++ [c]) = u ++ [c]).
  { assert (Hne : trimStart (rev s ++ [c]) <> []).
    { clear Hpre pre. induction (rev s) as [|x r IH]; simpl.
      - now rewrite Hc.
      - destruct (is_space x); [exact IH | discriminate]. }
    destruct (exists_last Hne) as [u [z Hz]].
    exists u. rewrite Hz in Hpre |- *.
    rewrite app_assoc in Hpre. apply app_inj_tail in Hpre as [_ ->].
    reflexivity. }
  destruct Hlast as [u Hu]. rewrite Hu, rev_app_distr. simpl. now exists (rev u).
Qed.

Lemma trimStart_trim (s : jsstring) : trimStart (trim s) = trim s.
Proof.
  unfold trim. pose proof (trimStart_head s) as Hh.
  destruct (trimStart s) as [|c t]; [reflexivity|].
  destruct (trimEnd_head t c Hh) as [u ->].
  now apply trimStart_no_space.
Qed.

Lemma trimEnd_trimEnd (s : jsstring) : trimEnd (trimEnd s) = trimEnd s.
Proof.
  unfold trimEnd. rewrite rev_involutive. f_equal.
  pose proof (trimStart_head (rev s)) as Hh.
  destruct (trimStart (rev s)) as [|c t]; [reflexivity|].
  now apply trimStart_no_space.
Qed.

(** [trim] is idempotent. *)
Lemma trim_trim (s : jsstring) : trim (trim s) = trim s.
Proof.
  unfold trim at 1. rewrite trimStart_trim.
  unfold trim. apply trimEnd_trimEnd.
Qed.

(** A string without white space is its own [trim]. *)
Lemma trimStart_id (s : jsstring) :
  Forall (fun c => is_space c = false) s -> trimStart s = s.
Proof. intros H. destruct H as [|c s Hc _]; simpl; [reflexivity | now rewrite Hc]. Qed.

Lemma trim_id (s : jsstring) :
  Forall (fun c => is_space c = false) s -> trim s = s.
Proof.
  intros H. unfold trim. rewrite (trimStart_id s H).
  unfold trimEnd. rewrite trimStart_id, rev_involutive; [reflexivity|].
  apply Forall_rev. exact H.
Qed.

(* ================================================================== *)
(** ** Hexadecimal tokens *)


Lemma hex_of_byte_no_space (b : byte) :
  forallb (fun c => negb (is_space c)) (hex_of_byte b) = true.
Proof. destruct b; reflexivity. Qed.

Lemma toString_hex_length (bytes : list byte) :
  List.length (toString_hex bytes) = (2 * List.length bytes)%nat.
Proof.
  induction bytes as [|b bytes IH]; simpl; [reflexivity|].
  rewrite IH. lia.
Qed.

Lemma toString_hex_forallb (P : N -> bool) :
  (forall b, forallb P (hex_of_byte b) = true) ->
  forall bytes, forallb P (toString_hex bytes) = true.
Proof.
  intros HP bytes. induction bytes as [|b bytes IH]; [reflexivity|].
  unfold toString_hex in *. cbn [flat_map]. rewrite forallb_app, HP, IH. reflexivity.
Qed.

Lemma next_bytes_length (n : nat) (w : World) : List.length (next_bytes n w) = n.
Proof. unfold next_bytes. now rewrite length_map, length_seq. Qed.

Lemma generateToken_eq (w : World) :
  generateToken w = (toString_hex (next_bytes 24 w), set_drawn (drawn w + 24)%nat w).
Proof. reflexivity. Qed.


Lemma forallb_negb_Forall (s : jsstring) :
  forallb (fun c => negb (is_space c)) s = true ->
  Forall (fun c => is_space c = false) s.
Proof.
  intros H. apply Forall_forall. intros c Hc.
  rewrite forallb_forall in H. specialize (H c Hc).
  now apply negb_true_iff in H.
Qed.

Lemma generateToken_trim (w : World) :
  let token := fst (generateToken w) in
  trim token = token /\ str_truthy token = true.
Proof.
  rewrite generateToken_eq. cbn [fst]. split.
  - apply trim_id, forallb_negb_Forall, toString_hex_forallb, hex_of_byte_no_space.
  - destruct (toString_hex _) eqn:E; [|reflexivity].
    apply (f_equal (@List.length N)) in E.
    rewrite toString_hex_length, next_bytes_length in E. discriminate.
Qed.

(* ================================================================== *)
(** ** [JSON.parse] inverts QuoteJSONString *)

Lemma unhex_hexdigit (d : N) : d < 16 -> unhex (hexdigit d) = Some d.
Proof.
  intros H. unfold unhex, hexdigit.
  destruct (d <? 10) eqn:E.
  - apply N.ltb_lt in E.
    replace ((48 <=? 48 + d) && (48 + d <=? 57)) with true
      by (symmetry; apply andb_true_iff; split; apply N.leb_le; lia).
    f_equal. lia.
  - apply N.ltb_ge in E.
    replace ((48 <=? 87 + d) && (87 + d <=? 57)) with false
      by (symmetry; apply andb_false_iff; right; apply N.leb_gt; lia).
    replace ((97 <=? 87 + d) && (87 + d <=? 102)) with true
      by (symmetry; apply andb_true_iff; split; apply N.leb_le; lia).
    f_equal. lia.
Qed.

Lemma hex4_value (c : N) :
  c < 65536 ->
  ((c / 4096 mod 16 * 16 + c / 256 mod 16) * 16 + c / 16 mod 16) * 16 + c mod 16 = c.
Proof.
  intros H.
  replace (c / 4096) with (c / 16 / 16 / 16) by (now rewrite !N.Div0.div_div).
  replace (c / 256) with (c / 16 / 16) by (now rewrite !N.Div0.div_div).
  pose proof (N.div_mod c 16 ltac:(lia)) as E0.
  pose proof (N.div_mod (c / 16) 16 ltac:(lia)) as E1.
  pose proof (N.div_mod (c / 16 / 16) 16 ltac:(lia)) as E2.
  pose proof (N.mod_lt c 16 ltac:(lia)).
  pose proof (N.mod_lt (c / 16) 16 ltac:(lia)).
  pose proof (N.mod_lt (c / 16 / 16) 16 ltac:(lia)).
  assert (c / 16 / 16 / 16 < 16).
  { rewrite !N.Div0.div_div. apply N.Div0.div_lt_upper_bound. simpl. lia. }
  rewrite (N.mod_small (c / 16 / 16 / 16) 16) by assumption.
  set (q1 := c / 16) in *. set (q2 := q1 / 16) in *. set (q3 := q2 / 16) in *.
  set (r0 := c mod 16) in *. set (r1 := q1 mod 16) in *. set (r2 := q2 mod 16) in *.
  lia.
Qed.

Lemma parse_unicode_escape (c : N) (inp : jsstring) :
  c < 65536 ->
  parse_chars (unicode_escape c ++ inp) = cons_unit c (parse_chars inp).
Proof.
  intros H. unfold unicode_escape. cbn [app parse_chars].
  change (92 =? 34) with false. change (92 =? 92) with true.
  change (117 =? 117) with true. cbv iota.
  rewrite !unhex_hexdigit by (apply N.mod_lt; lia).
  now rewrite hex4_value.
Qed.

Lemma parse_plain_unit (c : N) (inp : jsstring) :
  32 <= c -> c <> 34 -> c <> 92 ->
  parse_chars (c :: inp) = cons_unit c (parse_chars inp).
Proof.
  intros H32 H34 H92. cbn [parse_chars].
  apply N.eqb_neq in H34, H92. rewrite H34, H92.
  replace (c <? 32) with false by (symmetry; apply N.ltb_ge; lia).
  reflexivity.
Qed.

Lemma parse_quote_unit (c : N) (inp : jsstring) :
  parse_chars (quote_unit c ++ inp) = cons_unit c (parse_chars inp).
Proof.
  unfold quote_unit.
  repeat match goal with
  | |- context [if ?x =? ?k then _ else _] =>
      destruct (N.eqb_spec x k); [subst; reflexivity|]
  end.
  destruct (N.ltb_spec c 32).
  - apply parse_unicode_escape. lia.
  - apply (parse_plain_unit c inp); assumption.
Qed.

Lemma surrogate_bounds (c : N) :
  is_high_surrogate c || is_low_surrogate c = true -> 55296 <= c < 57344.
Proof.
  unfold is_high_surrogate, is_low_surrogate. intros H.
  apply orb_true_iff in H as [H|H]; apply andb_true_iff in H as [H1 H2];
    apply N.leb_le in H1, H2; lia.
Qed.

(** Reading back what QuoteJSONString wrote gives the string. *)
Lemma parse_quote_chars (s rest : jsstring) :
  parse_chars (quote_chars s ++ 34 :: rest) = Some (s, rest).
Proof.
  remember (List.length s) as n eqn:Hn.
  assert (Hle : (List.length s <= n)%nat) by lia. clear Hn.
  revert s Hle. induction n as [|n IH]; intros s Hle.
  - destruct s; [reflexivity | simpl in Hle; lia].
  - destruct s as [|c s]; [reflexivity|].
    simpl in Hle. cbn [quote_chars].
    destruct (is_high_surrogate c) eqn:Hh.
    + pose proof (surrogate_bounds c ltac:(now rewrite Hh)) as Hc.
      destruct s as [|d s].
      * rewrite parse_unicode_escape by lia. reflexivity.
      * destruct (is_low_surrogate d) eqn:Hl.
        -- pose proof (surrogate_bounds d ltac:(rewrite Hl; apply orb_true_r)) as Hd.
           simpl in Hle.
           change ((c :: d :: quote_chars s) ++ 34 :: rest)
             with (c :: d :: (quote_chars s ++ 34 :: rest)).
           rewrite (parse_plain_unit c), (parse_plain_unit d) by lia.
           rewrite IH by lia. reflexivity.
        -- rewrite <- app_assoc, parse_unicode_escape by lia.
           rewrite IH by lia. reflexivity.
    + destruct (is_low_surrogate c) eqn:Hl.
      * pose proof (surrogate_bounds c ltac:(rewrite Hl; apply orb_true_r)) as Hc.
        rewrite <- app_assoc, parse_unicode_escape by lia.
        rewrite IH by lia. reflexivity.
      * rewrite <- app_assoc, parse_quote_unit.
        rewrite IH by lia. reflexivity.
Qed.

(* ================================================================== *)
(** ** The config file: what is written and how it reads back *)

Lemma serialize_minimal_config (token : jsstring) :
  JSON_stringify2 (minimal_config token 18789) ++ [10] = config_file_text token.
Proof.
  unfold JSON_stringify2, minimal_config, config_file_text, quote.
  cbn. repeat rewrite <- app_assoc. reflexivity.
Qed.

Lemma parse_value_eq (fuel : nat) (inp : jsstring) :
  parse_value (S fuel) inp =
  match skip_ws inp with
  | [] => None
  | c :: rest =>
      if c =? 123 then
        match skip_ws rest with
        | [] => None
        | c1 :: rest1 =>
            if c1 =? 125 then Some (JObj [], rest1)
            else
              match parse_members fuel (c1 :: rest1) with
              | Some (ms, r) => Some (JObj ms, r)
              | None => None
              end
        end
      else if c =? 91 then
        match skip_ws rest with
        | [] => None
        | c1 :: rest1 =>
            if c1 =? 93 then Some (JArr [], rest1)
            else
              match parse_elements fuel (c1 :: rest1) with
              | Some (xs, r) => Some (JArr xs, r)
              | None => None
              end
        end
      else if c =? 34 then
        match parse_chars rest with
        | Some (s, r) => Some (JStr s, r)
        | None => None
        end
      else if c =? 116 then
        match strip_prefix (str "true") (c :: rest) with
        | Some r => Some (JBool true, r)
        | None => None
        end
      else if c =? 102 then
        match strip_prefix (str "false") (c :: rest) with
        | Some r => Some (JBool false, r)
        | None => None
        end
      else if c =? 110 then
        match strip_prefix (str "null") (c :: rest) with
        | Some r => Some (JNull, r)
        | None => None
        end
      else
        match lex_number (c :: rest) with
        | Some (text, r) => Some (JNum text, r)
        | None => None
        end
  end.
Proof. reflexivity. Qed.

Lemma parse_members_eq (fuel : nat) (inp : jsstring) :
  parse_members (S fuel) inp =
  match skip_ws inp with
  | [] => None
  | q :: rest =>
      if q =? 34 then
        match parse_chars rest with
        | None => None
        | Some (key, r1) =>
            match skip_ws r1 with
            | [] => None
            | colon :: r2 =>
                if colon =? 58 then
                  match parse_value fuel r2 with
                  | None => None
                  | Some (v, r3) =>
                      match skip_ws r3 with
                      | [] => None
                      | sep :: r4 =>
                          if sep =? 44 then
                            match parse_members fuel r4 with
                            | Some (ms, r5) => Some ((key, v) :: ms, r5)
                            | None => None
                            end
                          else if sep =? 125 then Some ([(key, v)], r4)
                          else None
                      end
                  end
                else None
            end
        end
      else None
  end.
Proof. reflexivity. Qed.

Lemma parse_elements_eq (fuel : nat) (inp : jsstring) :
  parse_elements (S fuel) inp =
  match parse_value fuel inp with
  | None => None
  | Some (v, r1) =>
      match skip_ws r1 with
      | [] => None
      | sep :: r2 =>
          if sep =? 44 then
            match parse_elements fuel r2 with
            | Some (xs, r3) => Some (v :: xs, r3)
            | None => None
            end
          else if sep =? 93 then Some ([v], r2)
          else None
      end
  end.
Proof. reflexivity. Qed.

(** *** Fuel *)

Lemma skip_ws_length (inp : jsstring) :
  (List.length (skip_ws inp) <= List.length inp)%nat.
Proof.
  induction inp as [|c inp IH]; cbn [skip_ws]; [lia|].
  destruct (is_ws c); cbn [List.length]; lia.
Qed.

Lemma skip_ws_cons (inp : jsstring) (c : N) (rest : jsstring) :
  skip_ws inp = c :: rest -> (List.length rest < List.length inp)%nat.
Proof.
  intros H. pose proof (skip_ws_length inp) as L. rewrite H in L.
  cbn [List.length] in L. lia.
Qed.

Lemma cons_unit_length (c : N) (r : option (jsstring * jsstring)) (n : nat) :
  (forall s rest, r = Some (s, rest) -> (List.length rest < n)%nat) ->
  forall s rest, cons_unit c r = Some (s, rest) -> (List.length rest < n)%nat.
Proof.
  intros H s rest E. destruct r as [[s0 rest0]|]; [|discriminate].
  inversion E; subst. now apply (H s0).
Qed.

Lemma parse_chars_length (inp : jsstring) :
  forall s rest, parse_chars inp = Some (s, rest) ->
  (List.length rest < List.length inp)%nat.
Proof.
  remember (List.length inp) as n eqn:Hn.
  assert (Hle : (List.length inp <= n)%nat) by lia.
  rewrite Hn. clear Hn. revert inp Hle.
  induction n as [|n IH]; intros inp Hle s rest H.
  - destruct inp; [discriminate | cbn in Hle; lia].
  - destruct inp as [|c inp]; [discriminate|].
    cbn [List.length] in *. cbn [parse_chars] in H.
    destruct (c =? 34).
    { inversion H; subst. lia. }
    destruct (c =? 92).
    + destruct inp as [|e inp]; [discriminate|].
      cbn [List.length] in *.
      destruct (e =? 117).
      * destruct inp as [|h1 [|h2 [|h3 [|h4 inp]]]]; try discriminate.
        cbn [List.length] in *.
        destruct (unhex h1), (unhex h2), (unhex h3), (unhex h4); try discriminate.
        apply (cons_unit_length _ _ (List.length inp)) in H; [lia|].
        intros s0 r0 E. apply (IH inp ltac:(lia) s0 r0 E).
      * destruct (unescape e); [|discriminate].
        apply (cons_unit_length _ _ (List.length inp)) in H; [lia|].
        intros s0 r0 E. apply (IH inp ltac:(lia) s0 r0 E).
    + destruct (c <? 32); [discriminate|].
      apply (cons_unit_length _ _ (List.length inp)) in H; [lia|].
      intros s0 r0 E. apply (IH inp ltac:(lia) s0 r0 E).
Qed.

Lemma strip_prefix_length (lit inp rest : jsstring) :
  strip_prefix lit inp = Some rest -> (List.length rest <= List.length inp)%nat.
Proof.
  revert inp. induction lit as [|x lit IH]; intros inp H; cbn [strip_prefix] in H.
  - inversion H. lia.
  - destruct inp as [|y inp]; [discriminate|].
    destruct (x =? y); [|discriminate].
    apply IH in H. cbn [List.length]. lia.
Qed.

Lemma span_digits_length (inp : jsstring) :
  (List.length (snd (span_digits inp)) <= List.length inp)%nat.
Proof.
  induction inp as [|c inp IH]; cbn [span_digits]; [cbn; lia|].
  destruct (is_digit c); [|cbn; lia].
  destruct (span_digits inp) as [ds r]. cbn [snd List.length] in *. lia.
Qed.

Lemma lex_number_length (inp text rest : jsstring) :
  lex_number inp = Some (text, rest) -> (List.length rest <= List.length inp)%nat.
Proof.
  unfold lex_number. intros H.
  set (signed := match inp with
                 | c :: r => if c =? 45 then ([45], r) else ([], inp)
                 | [] => ([], inp)
                 end) in H.
  assert (Hs : (List.length (snd signed) <= List.length inp)%nat).
  { subst signed. destruct inp as [|c r]; [cbn; lia|].
    destruct (c =? 45); cbn; lia. }
  destruct signed as [sign rest0]. cbn [snd] in Hs.
  destruct (lex_int rest0) as [[i rest1]|] eqn:Ei; [|discriminate].
  assert (H1 : (List.length rest1 <= List.length rest0)%nat).
  { unfold lex_int in Ei. destruct rest0 as [|c r]; [discriminate|].
    destruct (c =? 48).
    - inversion Ei; subst. cbn; lia.
    - destruct (is_digit c); [|discriminate].
      pose proof (span_digits_length (c :: r)) as L.
      destruct (span_digits (c :: r)) as [ds r'].
      inversion Ei; subst. exact L. }
  destruct (lex_frac rest1) as [[f rest2]|] eqn:Ef; [|discriminate].
  assert (H2 : (List.length rest2 <= List.length rest1)%nat).
  { unfold lex_frac in Ef. destruct rest1 as [|c r]; [inversion Ef; subst; lia|].
    destruct (c =? 46).
    - pose proof (span_digits_length r) as L.
      destruct (span_digits r) as [[|d ds] r']; [discriminate|].
      inversion Ef; subst. cbn [snd List.length] in *. lia.
    - inversion Ef; subst. lia. }
  destruct (lex_exp rest2) as [[e rest3]|] eqn:Ee; [|discriminate].
  assert (H3 : (List.length rest3 <= List.length rest2)%nat).
  { unfold lex_exp in Ee. destruct rest2 as [|c r]; [inversion Ee; subst; lia|].
    destruct ((c =? 101) || (c =? 69)).
    - set (sg := match r with
                 | s :: r0 => if (s =? 43) || (s =? 45) then ([s], r0) else ([], r)
                 | [] => ([], r)
                 end) in Ee.
      assert (Hg : (List.length (snd sg) <= List.length r)%nat).
      { subst sg. destruct r as [|s r0]; [cbn; lia|].
        destruct ((s =? 43) || (s =? 45)); cbn; lia. }
      destruct sg as [sgn r1]. cbn [snd] in Hg.
      pose proof (span_digits_length r1) as L.
      destruct (span_digits r1) as [[|d ds] r']; [discriminate|].
      inversion Ee; subst. cbn [snd List.length] in *. lia.
    - inversion Ee; subst. lia. }
  inversion H; subst. lia.
Qed.

(** No parser returns more input than it was given. *)
Lemma parse_rest_length (fuel : nat) :
  (forall inp v rest, parse_value fuel inp = Some (v, rest) ->
                      (List.length rest <= List.length inp)%nat)
  /\ (forall inp ms rest, parse_members fuel inp = Some (ms, rest) ->
                          (List.length rest <= List.length inp)%nat)
  /\ (forall inp xs rest, parse_elements fuel inp = Some (xs, rest) ->
                          (List.length rest <= List.length inp)%nat).
Proof.
  induction fuel as [|fuel (IHv & IHm & IHe)].
  { repeat split; intros; discriminate. }
  split; [|split].
  - intros inp v rest H. rewrite parse_value_eq in H.
    destruct (skip_ws inp) as [|c r] eqn:Ews; [discriminate|].
    pose proof (skip_ws_cons inp c r Ews) as L0.
    destruct (c =? 123).
    { destruct (skip_ws r) as [|c1 r1] eqn:Ews1; [discriminate|].
      pose proof (skip_ws_cons r c1 r1 Ews1) as L1.
      destruct (c1 =? 125); [inversion H; subst; lia|].
      destruct (parse_members fuel (c1 :: r1)) as [[ms r2]|] eqn:Em; [|discriminate].
      apply IHm in Em. cbn [List.length] in Em. inversion H; subst. lia. }
    destruct (c =? 91).
    { destruct (skip_ws r) as [|c1 r1] eqn:Ews1; [discriminate|].
      pose proof (skip_ws_cons r c1 r1 Ews1) as L1.
      destruct (c1 =? 93); [inversion H; subst; lia|].
      destruct (parse_elements fuel (c1 :: r1)) as [[xs r2]|] eqn:Em; [|discriminate].
      apply IHe in Em. cbn [List.length] in Em. inversion H; subst. lia. }
    destruct (c =? 34).
    { destruct (parse_chars r) as [[s r2]|] eqn:Ec; [|discriminate].
      apply parse_chars_length in Ec. inversion H; subst. lia. }
    destruct (c =? 116).
    { destruct (strip_prefix (str "true") (c :: r)) as [r2|] eqn:Es; [|discriminate].
      apply strip_prefix_length in Es. cbn [List.length] in Es.
      inversion H; subst. lia. }
    destruct (c =? 102).
    { destruct (strip_prefix (str "false") (c :: r)) as [r2|] eqn:Es; [|discriminate].
      apply strip_prefix_length in Es. cbn [List.length] in Es.
      inversion H; subst. lia. }
    destruct (c =? 110).
    { destruct (strip_prefix (str "null") (c :: r)) as [r2|] eqn:Es; [|discriminate].
      apply strip_prefix_length in Es. cbn [List.length] in Es.
      inversion H; subst. lia. }
    destruct (lex_number (c :: r)) as [[text r2]|] eqn:En; [|discriminate].
    apply lex_number_length in En. cbn [List.length] in En.
    inversion H; subst. lia.
  - intros inp ms rest H. rewrite parse_members_eq in H.
    destruct (skip_ws inp) as [|q r] eqn:Ews; [discriminate|].
    pose proof (skip_ws_cons inp q r Ews) as L0.
    destruct (q =? 34); [|discriminate].
    destruct (parse_chars r) as [[key r1]|] eqn:Ec; [|discriminate].
    apply parse_chars_length in Ec.
    destruct (skip_ws r1) as [|colon r2] eqn:Ews1; [discriminate|].
    pose proof (skip_ws_cons r1 colon r2 Ews1) as L1.
    destruct (colon =? 58); [|discriminate].
    destruct (parse_value fuel r2) as [[v r3]|] eqn:Ev; [|discriminate].
    apply IHv in Ev.
    destruct (skip_ws r3) as [|sep r4] eqn:Ews3; [discriminate|].
    pose proof (skip_ws_cons r3 sep r4 Ews3) as L3.
    destruct (sep =? 44).
    { destruct (parse_members fuel r4) as [[ms' r5]|] eqn:Em; [|discriminate].
      apply IHm in Em. inversion H; subst. lia. }
    destruct (sep =? 125); [|discriminate].
    inversion H; subst. lia.
  - intros inp xs rest H. rewrite parse_elements_eq in H.
    destruct (parse_value fuel inp) as [[v r1]|] eqn:Ev; [|discriminate].
    apply IHv in Ev.
    destruct (skip_ws r1) as [|sep r2] eqn:Ews; [discriminate|].
    pose proof (skip_ws_cons r1 sep r2 Ews) as L1.
    destruct (sep =? 44).
    { destruct (parse_elements fuel r2) as [[xs' r3]|] eqn:Ee; [|discriminate].
      apply IHe in Ee. inversion H; subst. lia. }
    destruct (sep =? 93); [|discriminate].
    inversion H; subst. lia.
Qed.

(** With fuel above twice the length of the input (one more for a
    member or an element list), the result does not depend on the
    fuel. *)
Lemma parse_fuel_independent (fuel : nat) :
  (forall fuel' inp,
     (2 * List.length inp < fuel)%nat -> (2 * List.length inp < fuel')%nat ->
     parse_value fuel inp = parse_value fuel' inp)
  /\ (forall fuel' inp,
        (2 * List.length inp + 1 < fuel)%nat -> (2 * List.length inp + 1 < fuel')%nat ->
        parse_members fuel inp = parse_members fuel' inp)
  /\ (forall fuel' inp,
        (2 * List.length inp + 1 < fuel)%nat -> (2 * List.length inp + 1 < fuel')%nat ->
        parse_elements fuel inp = parse_elements fuel' inp).
Proof.
  induction fuel as [|fuel (IHv & IHm & IHe)].
  { repeat split; intros; lia. }
  split; [|split]; intros [|g] inp Hf Hg; try lia.
  - rewrite !parse_value_eq.
    destruct (skip_ws inp) as [|c r] eqn:Ews; [reflexivity|].
    pose proof (skip_ws_cons inp c r Ews) as L0.
    destruct (c =? 123).
    { destruct (skip_ws r) as [|c1 r1] eqn:Ews1; [reflexivity|].
      pose proof (skip_ws_cons r c1 r1 Ews1) as L1.
      destruct (c1 =? 125); [reflexivity|].
      rewrite (IHm g (c1 :: r1)) by (cbn [List.length]; lia). reflexivity. }
    destruct (c =? 91); [|reflexivity].
    destruct (skip_ws r) as [|c1 r1] eqn:Ews1; [reflexivity|].
    pose proof (skip_ws_cons r c1 r1 Ews1) as L1.
    destruct (c1 =? 93); [reflexivity|].
    rewrite (IHe g (c1 :: r1)) by (cbn [List.length]; lia). reflexivity.
  - rewrite !parse_members_eq.
    destruct (skip_ws inp) as [|q r] eqn:Ews; [reflexivity|].
    pose proof (skip_ws_cons inp q r Ews) as L0.
    destruct (q =? 34); [|reflexivity].
    destruct (parse_chars r) as [[key r1]|] eqn:Ec; [|reflexivity].
    apply parse_chars_length in Ec.
    destruct (skip_ws r1) as [|colon r2] eqn:Ews1; [reflexivity|].
    pose proof (skip_ws_cons r1 colon r2 Ews1) as L1.
    destruct (colon =? 58); [|reflexivity].
    rewrite (IHv g r2) by lia.
    destruct (parse_value g r2) as [[v r3]|] eqn:Ev; [|reflexivity].
    apply (proj1 (parse_rest_length g)) in Ev.
    destruct (skip_ws r3) as [|sep r4] eqn:Ews3; [reflexivity|].
    pose proof (skip_ws_cons r3 sep r4 Ews3) as L3.
    destruct (sep =? 44); [|reflexivity].
    rewrite (IHm g r4) by lia. reflexivity.
  - rewrite !parse_elements_eq.
    rewrite (IHv g inp) by lia.
    destruct (parse_value g inp) as [[v r1]|] eqn:Ev; [|reflexivity].
    apply (proj1 (parse_rest_length g)) in Ev.
    destruct (skip_ws r1) as [|sep r2] eqn:Ews; [reflexivity|].
    pose proof (skip_ws_cons r1 sep r2 Ews) as L1.
    destruct (sep =? 44); [|reflexivity].
    rewrite (IHe g r2) by lia. reflexivity.
Qed.

(** The fuel [JSON_parse] gives is enough: more changes nothing, so
    [None] is a syntax error and never an exhausted budget. *)
Lemma parse_value_fuel (fuel : nat) (text : jsstring) :
  (2 * List.length text < fuel)%nat ->
  parse_value fuel text = parse_value (S (2 * List.length text)) text.
Proof.
  intros H. apply (proj1 (parse_fuel_independent fuel)); lia.
Qed.

Ltac parse_step :=
  first [ rewrite parse_value_eq | rewrite parse_members_eq
        | rewrite parse_elements_eq | rewrite parse_quote_chars ];
  cbn -[parse_value parse_members parse_elements].

(** The file the bootstrap writes parses back to the config it was
    written from, whatever the token. *)
Lemma parse_config_file_text (token : jsstring) :
  JSON_parse (config_file_text token) = Some (minimal_config token 18789).
Proof.
  unfold JSON_parse, config_file_text, quote.
  cbn -[parse_value parse_members parse_elements].
  rewrite <- !app_assoc. cbn [app].
  repeat parse_step.
  reflexivity.
Qed.

(* ================================================================== *)
(** ** The token expression (lines 67-74) *)

(** The expression never throws: it yields the trimmed token when
    [parsed.gateway.auth.token] is a string and [""] in every other
    case, whatever the truthiness of numbers. *)
Lemma token_of_parsed_with_spec (number_truthy : jsstring -> bool) (parsed : json) :
  token_of_parsed_with number_truthy parsed =
  Ok (match token_property parsed with
      | Ok (Val (JStr t)) => trim t
      | _ => []
      end).
Proof.
  unfold token_of_parsed_with, token_condition, token_property.
  destruct parsed as [ |b|text|s|xs|ms]; cbn;
    try reflexivity;
    try (destruct b; reflexivity);
    try (destruct (number_truthy text) eqn:E; cbn; repeat (rewrite E; cbn); reflexivity);
    try (destruct s; reflexivity).
  destruct (lookup _ ms) as [|g]; [reflexivity|].
  destruct g as [ |b|text|s|xs|gs]; cbn;
    try reflexivity;
    try (destruct b; reflexivity);
    try (destruct (number_truthy text) eqn:E; cbn; repeat (rewrite E; cbn); reflexivity);
    try (destruct s; reflexivity).
  destruct (lookup _ gs) as [|a]; [reflexivity|].
  destruct a as [ |b|text|s|xs|az]; cbn;
    try reflexivity;
    try (destruct b; reflexivity);
    try (destruct (number_truthy text) eqn:E; cbn; repeat (rewrite E; cbn); reflexivity);
    try (destruct s; reflexivity).
  destruct (lookup _ az) as [|t]; [reflexivity|].
  destruct t as [ |b|text|s|xs|ts]; cbn; try reflexivity.
  destruct (trim s); reflexivity.
Qed.

Lemma token_of_parsed_spec (parsed : json) :
  token_of_parsed parsed =
  Ok (match token_property parsed with
      | Ok (Val (JStr t)) => trim t
      | _ => []
      end).
Proof. apply token_of_parsed_with_spec. Qed.

(** The truthiness of numbers plays no part in the result. *)
Lemma token_of_parsed_number_blind (f g : jsstring -> bool) (parsed : json) :
  token_of_parsed_with f parsed = token_of_parsed_with g parsed.
Proof. now rewrite !token_of_parsed_with_spec. Qed.

Lemma token_of_minimal_config (token : jsstring) (port : N) :
  token_of_parsed (minimal_config token port) = Ok (trim token).
Proof. rewrite token_of_parsed_spec. reflexivity. Qed.

(** The only exception the [try] block can catch is the parse error. *)
Lemma stored_token_throw (w : World) (e : js_error) :
  stored_token w = Throw e ->
  exists raw,
    files w (config_path w) = Some raw /\ JSON_parse raw = None
    /\ e = json_syntax_error (host w) raw.
Proof.
  unfold stored_token. intros H.
  destruct (files w (config_path w)) as [raw|]; [|discriminate].
  destruct (JSON_parse raw) as [parsed|] eqn:E.
  - rewrite token_of_parsed_spec in H. discriminate.
  - inversion H. now exists raw.
Qed.

(* ================================================================== *)
(** ** The files: the config file and the log *)

Lemma append_file_same path text fs :
  append_file path text fs path
  = Some (match fs path with Some old => old ++ text | None => text end).
Proof. unfold append_file. now rewrite str_eqb_refl. Qed.

Lemma append_file_other path text fs p :
  p <> path -> append_file path text fs p = fs p.
Proof.
  intros Hne. unfold append_file.
  destruct (str_eqb p path) eqn:E; [|reflexivity].
  apply str_eqb_eq in E. contradiction.
Qed.

Lemma touch_same path fs :
  touch path fs path = Some (match fs path with Some old => old | None => [] end).
Proof. unfold touch. now rewrite str_eqb_refl. Qed.

Lemma touch_other path fs p : p <> path -> touch path fs p = fs p.
Proof.
  intros Hne. unfold touch.
  destruct (str_eqb p path) eqn:E; [|reflexivity].
  apply str_eqb_eq in E. contradiction.
Qed.

Lemma count_logs_app (a b : list effect) :
  count_logs (a ++ b) = (count_logs a + count_logs b)%nat.
Proof. unfold count_logs. now rewrite filter_app, length_app. Qed.

Lemma files_after_app (h : Host) (a b : list effect) :
  forall n fs,
  files_after h n (a ++ b) fs = files_after h (count_logs a + n) b (files_after h n a fs).
Proof.
  induction a as [|e a IH]; intros n fs; [reflexivity|].
  destruct e; cbn [app files_after]; rewrite IH; try reflexivity.
  unfold count_logs. cbn [filter is_log List.length]. now rewrite Nat.add_succ_r.
Qed.

(** Effects that spare a file other than the log leave it as it is. *)
Lemma files_after_other (h : Host) (p : jsstring) (effs : list effect) :
  p <> log_path h -> Forall (spares p) effs ->
  forall n fs, files_after h n effs fs p = fs p.
Proof.
  intros Hlog Hall. induction Hall as [|e effs He _ IH]; intros n fs; [reflexivity|].
  destruct e; cbn [files_after spares] in *; rewrite IH; try reflexivity.
  - now apply touch_other.
  - now apply write_file_other.
  - now apply append_file_other.
Qed.

(** A file written, other than the log, holds what was written last. *)
Lemma files_after_written (h : Host) (path content : jsstring)
    (before after : list effect) (n : nat) (fs : jsstring -> option jsstring) :
  path <> log_path h -> Forall (spares path) after ->
  files_after h n (before ++ WriteFile path content :: after) fs path = Some content.
Proof.
  intros Hlog Hall. rewrite files_after_app. cbn [files_after].
  rewrite (files_after_other h path after Hlog Hall). apply write_file_same.
Qed.

Lemma extends_refl (content : option jsstring) : extends content content.
Proof. intros old ->. exists []. now rewrite app_nil_r. Qed.

Lemma extends_trans (a b c : option jsstring) : extends a b -> extends b c -> extends a c.
Proof.
  intros Hab Hbc old Ha. destruct (Hab old Ha) as [x Hb].
  destruct (Hbc _ Hb) as [y Hc]. exists (x ++ y). now rewrite Hc, app_assoc.
Qed.

Lemma append_file_extends path text fs : extends (fs path) (append_file path text fs path).
Proof.
  intros old Hold. rewrite append_file_same, Hold. now exists text.
Qed.

(** The log file is only added to, by effects that do not write it
    as a whole. *)
Lemma files_after_extends (h : Host) (effs : list effect) :
  Forall (fun e => match e with WriteFile q _ => q <> log_path h | _ => True end) effs ->
  forall n fs, extends (fs (log_path h)) (files_after h n effs fs (log_path h)).
Proof.
  intros Hall. induction Hall as [|e effs He _ IH]; intros n fs; [apply extends_refl|].
  destruct e; cbn [files_after]; try apply IH.
  - eapply extends_trans; [|apply IH].
    intros old Hold. exists []. rewrite app_nil_r.
    destruct (str_eqb (log_path h) path) eqn:E.
    + apply str_eqb_eq in E. subst path. now rewrite touch_same, Hold.
    + rewrite touch_other; [exact Hold|]. intros E'. now rewrite E', str_eqb_refl in E.
  - eapply extends_trans; [|apply IH].
    rewrite write_file_other by (intros E; now apply He). apply extends_refl.
  - eapply extends_trans; [|apply IH]. apply append_file_extends.
Qed.

(* ================================================================== *)
(** ** The bootstrap, [ensureGatewayConfig] *)

Ltac run_monad_step :=
  unfold exec, log_write, fs_mkdirSync, fs_createWriteStream, fs_existsSync,
    fs_readFileSync, fs_writeFileSync, crypto_randomBytes, child_process_spawn,
    new_BrowserWindow, loadURL, kill, perform, assign, read, ret, bind in *;
  cbn [fst snd host mainWindow gatewayProcess gatewayToken gatewayConfigPath
       gatewayStateDir gatewayPort controlUiUrl uiRetries files drawn children
       windows logged trace set_mainWindow set_gatewayProcess set_gatewayToken
       set_gatewayConfigPath set_gatewayStateDir set_controlUiUrl set_uiRetries
       set_files set_drawn set_children set_windows set_logged set_trace
       and_then str_truthy ref_truthy] in *.

Ltac run_monad := repeat (progress run_monad_step).

(** The world the bootstrap leaves, field by field. *)
Lemma ensureGatewayConfig_exec (w : World) :
  exec ensureGatewayConfig w =
  {| host := host w;
     mainWindow := mainWindow w;
     gatewayProcess := gatewayProcess w;
     gatewayToken := resolved_token w;
     gatewayConfigPath := config_path w;
     gatewayStateDir := userData (host w);
     gatewayPort := gatewayPort w;
     controlUiUrl := controlUiUrl w;
     uiRetries := uiRetries w;
     files := files_after (host w) (logged w) (bootstrap_effects w) (files w);
     drawn := if str_truthy (existing_token w) then drawn w else (drawn w + 24)%nat;
     children := children w;
     windows := windows w;
     logged := count_logs (bootstrap_effects w) + logged w;
     trace := trace w ++ bootstrap_effects w |}.
Proof.
  unfold bootstrap_effects, written_config, resolved_token, existing_token,
    parse_warning, stored_token, config_path.
  unfold ensureGatewayConfig, read_existing_token, buildMinimalGatewayConfig,
    generateToken.
  run_monad.
  destruct (files w (path_join (userData (host w)) (str "openclaw.json")))
    as [raw|] eqn:Hfile; run_monad; rewrite ?Hfile; run_monad.
  - destruct (JSON_parse raw) as [parsed|].
    + rewrite token_of_parsed_spec.
      generalize (match token_property parsed with
                  | Ok (Val (JStr t)) => trim t
                  | _ => []
                  end).
      intros tok. run_monad.
      destruct (str_truthy tok) eqn:Ht; run_monad;
        rewrite <- ?app_assoc; reflexivity.
    + run_monad. rewrite <- ?app_assoc. reflexivity.
  - rewrite <- ?app_assoc. reflexivity.
Qed.

Lemma unit_action (m : M unit) (w : World) : m w = (tt, exec m w).
Proof. unfold exec. destruct (m w) as [[] w']. reflexivity. Qed.

Lemma ensureGatewayConfig_token (w : World) :
  gatewayToken (exec ensureGatewayConfig w) = resolved_token w.
Proof. now rewrite ensureGatewayConfig_exec. Qed.

(** The log lines of the bootstrap leave the config file as written. *)
Lemma bootstrap_effects_written (w : World) (n : nat) (fs : jsstring -> option jsstring) :
  files_after (host w) n (bootstrap_effects w) fs (config_path w)
  = Some (written_config w).
Proof.
  unfold bootstrap_effects. rewrite app_assoc.
  apply files_after_written; [apply log_path_config_path|].
  repeat constructor.
Qed.

Lemma ensureGatewayConfig_file (w : World) :
  files (exec ensureGatewayConfig w) (config_path w) = Some (written_config w).
Proof. rewrite ensureGatewayConfig_exec. cbn [files]. apply bootstrap_effects_written. Qed.

(* ================================================================== *)
(** ** Environment objects *)

Lemma env_lookup_set_same (name v : jsstring) (env : list (jsstring * jsstring)) :
  env_lookup name (set_property name v env) = Some v.
Proof.
  induction env as [|[k old] env IH]; cbn [set_property env_lookup].
  - now rewrite str_eqb_refl.
  - destruct (str_eqb k name) eqn:E; cbn [env_lookup]; now rewrite E.
Qed.

Lemma env_lookup_set_other (name other v : jsstring) (env : list (jsstring * jsstring)) :
  str_eqb other name = false ->
  env_lookup name (set_property other v env) = env_lookup name env.
Proof.
  intros Hne. induction env as [|[k old] env IH]; cbn [set_property env_lookup].
  - now rewrite Hne.
  - destruct (str_eqb k other) eqn:E; cbn [env_lookup].
    + apply str_eqb_eq in E. subst k. now rewrite Hne.
    + now rewrite IH.
Qed.


(* ================================================================== *)
(** ** The supervisor, [startGateway] *)

Lemma startGateway_live (rootDir : jsstring) (w : World) :
  ref_truthy (gatewayProcess w) = true -> startGateway rootDir w = (tt, w).
Proof.
  intros H. unfold startGateway. run_monad. now rewrite H.
Qed.

Lemma startGateway_idle (rootDir : jsstring) (w : World) :
  ref_truthy (gatewayProcess w) = false ->
  startGateway rootDir w =
  (tt, {| host := host w;
          mainWindow := mainWindow w;
          gatewayProcess := Object (children w);
          gatewayToken := gatewayToken w;
          gatewayConfigPath := gatewayConfigPath w;
          gatewayStateDir := gatewayStateDir w;
          gatewayPort := gatewayPort w;
          controlUiUrl := controlUiUrl w;
          uiRetries := uiRetries w;
          files := files_after (host w) (logged w) (start_effects rootDir w) (files w);
          drawn := drawn w;
          children := S (children w);
          windows := windows w;
          logged := S (S (logged w));
          trace := trace w ++ start_effects rootDir w |}).
Proof.
  intros H. unfold startGateway, start_effects, gateway_call. run_monad.
  rewrite H. run_monad. rewrite <- ?app_assoc. reflexivity.
Qed.

Lemma buildControlUiUrl_run (w : World) :
  buildControlUiUrl w = (control_url (gatewayPort w) (gatewayToken w), w).
Proof.
  unfold buildControlUiUrl, control_url, URLSearchParams_toString. run_monad.
  rewrite <- !app_assoc. reflexivity.
Qed.

(* ================================================================== *)
(** ** One bootstrap-and-start cycle, [createWindow] *)

(** The token, the file and the warning of the bootstrap depend on the
    host, the files, the port and the random bytes drawn so far. *)
Lemma resolved_token_frame (w w' : World) :
  host w' = host w -> files w' (config_path w) = files w (config_path w) ->
  drawn w' = drawn w ->
  resolved_token w' = resolved_token w /\ parse_warning w' = parse_warning w
  /\ existing_token w' = existing_token w.
Proof.
  intros Hh Hf Hd.
  unfold resolved_token, existing_token, parse_warning, stored_token, config_path,
    next_bytes in *.
  now rewrite Hh, Hf, Hd.
Qed.

Lemma bootstrap_effects_frame (w w' : World) :
  host w' = host w -> files w' (config_path w) = files w (config_path w) ->
  drawn w' = drawn w -> gatewayPort w' = gatewayPort w ->
  bootstrap_effects w' = bootstrap_effects w.
Proof.
  intros Hh Hf Hd Hp.
  destruct (resolved_token_frame w w' Hh Hf Hd) as (Ht & Hw & _).
  unfold bootstrap_effects, written_config, config_path.
  now rewrite Ht, Hw, Hh, Hp.
Qed.

(** The world after [createWindow()], field by field. *)
Lemma createWindow_exec (w : World) :
  let live := ref_truthy (gatewayProcess w) in
  exec createWindow w =
  {| host := host w;
     mainWindow := Object (windows w);
     gatewayProcess := if live then gatewayProcess w else Object (children w);
     gatewayToken := resolved_token w;
     gatewayConfigPath := config_path w;
     gatewayStateDir := userData (host w);
     gatewayPort := gatewayPort w;
     controlUiUrl := control_url (gatewayPort w) (resolved_token w);
     uiRetries := uiRetries w;
     files := files_after (host w) (logged w) (window_effects w) (files w);
     drawn := if str_truthy (existing_token w) then drawn w else (drawn w + 24)%nat;
     children := if live then children w else S (children w);
     windows := S (windows w);
     logged := count_logs (window_effects w) + logged w;
     trace := trace w ++ window_effects w |}.
Proof.
  cbv zeta.
  unfold createWindow, ensureLogStream, resolveRootDir, window_effects, root_dir.
  run_monad.
  destruct (isPackaged (host w)); cbn [negb]; run_monad;
    match goal with
    | |- context [ensureGatewayConfig ?w0] =>
        rewrite (unit_action ensureGatewayConfig w0), ensureGatewayConfig_exec;
        assert (Hf : files w0 (config_path w) = files w (config_path w))
          by (run_monad;
              rewrite !append_file_other, touch_other
                by apply log_path_config_path;
              reflexivity);
        destruct (resolved_token_frame w w0 eq_refl Hf eq_refl) as (Ht & Hw & He);
        rewrite (bootstrap_effects_frame w w0 eq_refl Hf eq_refl eq_refl);
        rewrite Ht, He; clear Ht Hw He Hf
    end;
    unfold config_path; run_monad;
    destruct (ref_truthy (gatewayProcess w)) eqn:Hlive;
    [ rewrite startGateway_live by exact Hlive
    | rewrite startGateway_idle by exact Hlive
    | rewrite startGateway_live by exact Hlive
    | rewrite startGateway_idle by exact Hlive ];
    rewrite buildControlUiUrl_run; run_monad;
    unfold start_effects, gateway_call, booted; run_monad;
    rewrite !files_after_app, !count_logs_app;
    unfold bootstrap_effects, parse_warning; destruct (stored_token w);
    rewrite <- ?app_assoc; reflexivity.
Qed.

Lemma config_path_host (w w' : World) : host w' = host w -> config_path w' = config_path w.
Proof. unfold config_path. now intros ->. Qed.

Lemma ensureGatewayConfig_host (w : World) : host (exec ensureGatewayConfig w) = host w.
Proof. now rewrite ensureGatewayConfig_exec. Qed.

Lemma createWindow_host (w : World) : host (exec createWindow w) = host w.
Proof. now rewrite createWindow_exec. Qed.

Lemma createWindow_token (w : World) : gatewayToken (exec createWindow w) = resolved_token w.
Proof. now rewrite createWindow_exec. Qed.

(** After [createWindow] the config file holds what the bootstrap
    wrote, every file other than the config file and the log is as it
    was, and the log is as it was or longer. *)
Lemma window_effects_written (w : World) (n : nat) (fs : jsstring -> option jsstring) :
  files_after (host w) n (window_effects w) fs (config_path w)
  = Some (written_config w).
Proof.
  unfold window_effects. cbv zeta. rewrite !files_after_app.
  rewrite files_after_other;
    [| apply log_path_config_path | repeat constructor].
  rewrite files_after_other;
    [| apply log_path_config_path
     | destruct (ref_truthy (gatewayProcess w)); repeat constructor].
  apply bootstrap_effects_written.
Qed.

Lemma parse_warning_spares (p : jsstring) (w : World) : Forall (spares p) (parse_warning w).
Proof. unfold parse_warning. destruct (stored_token w); repeat constructor. Qed.

Lemma window_effects_spare (w : World) (p : jsstring) :
  p <> config_path w -> p <> log_path (host w) -> Forall (spares p) (window_effects w).
Proof.
  intros Hc Hl. unfold window_effects, bootstrap_effects. cbv zeta.
  repeat (apply Forall_app; split); try apply parse_warning_spares;
    try (destruct (ref_truthy (gatewayProcess w)); unfold start_effects);
    repeat constructor; cbn [spares]; congruence.
Qed.

Lemma window_effects_other (w : World) (p : jsstring) (n : nat)
    (fs : jsstring -> option jsstring) :
  p <> config_path w -> p <> log_path (host w) ->
  files_after (host w) n (window_effects w) fs p = fs p.
Proof.
  intros Hc Hl. apply files_after_other; [exact Hl|]. now apply window_effects_spare.
Qed.

Lemma window_effects_keep_log (w : World) :
  Forall (fun e => match e with WriteFile q _ => q <> log_path (host w) | _ => True end)
    (window_effects w).
Proof.
  unfold window_effects, bootstrap_effects. cbv zeta.
  repeat (apply Forall_app; split);
    try (unfold parse_warning; destruct (stored_token w));
    try (destruct (ref_truthy (gatewayProcess w)); unfold start_effects);
    repeat constructor; apply log_path_config_path.
Qed.

(** [createWindow] writes the config file and opens the log, and no
    other file. *)
Lemma window_effects_targets (w : World) : trace_targets w (window_effects w).
Proof.
  unfold trace_targets, window_effects, bootstrap_effects. cbv zeta.
  repeat (apply Forall_app; split);
    try (unfold parse_warning; destruct (stored_token w));
    try (destruct (ref_truthy (gatewayProcess w)); unfold start_effects);
    repeat constructor.
Qed.

Lemma window_effects_extends (w : World) (n : nat) (fs : jsstring -> option jsstring) :
  extends (fs (log_path (host w)))
    (files_after (host w) n (window_effects w) fs (log_path (host w))).
Proof. apply files_after_extends, window_effects_keep_log. Qed.

(** [createWindow] opens the log file, so there is one afterwards. *)
Lemma window_effects_open_log (w : World) (n : nat) (fs : jsstring -> option jsstring) :
  exists content,
    files_after (host w) n (window_effects w) fs (log_path (host w)) = Some content.
Proof.
  pose proof (window_effects_keep_log w) as Hkeep.
  unfold window_effects in *. cbv zeta in *.
  apply Forall_app in Hkeep as [_ Hkeep].
  rewrite files_after_app.
  match goal with
  | |- exists content, files_after ?h ?k ?effs ?f ?p = Some content =>
      assert (Hopen : exists before, f p = Some before)
        by (cbn [files_after]; rewrite !append_file_same, touch_same; eexists; reflexivity);
      destruct Hopen as [before Hb];
      destruct (files_after_extends h effs Hkeep k f before Hb) as [added Ha]
  end.
  eexists. exact Ha.
Qed.

Lemma parse_warning_filter (f : effect -> bool) (w : World) :
  (forall level message, f (Log level message) = false) ->
  filter f (parse_warning w) = [].
Proof.
  intros Hf. unfold parse_warning. destruct (stored_token w); [reflexivity|].
  cbn [filter]. now rewrite Hf.
Qed.

(** What one [createWindow] adds to the trace, kind by kind. *)
Lemma window_effects_kinds (w : World) :
  filter is_spawn (window_effects w)
    = (if ref_truthy (gatewayProcess w) then []
       else [Spawn (children w) (gateway_call (root_dir (host w)) (booted w))])
  /\ filter is_kill (window_effects w) = []
  /\ filter is_write (window_effects w) = [WriteFile (config_path w) (written_config w)]
  /\ filter is_load (window_effects w)
     = [LoadURL (windows w) (control_url (gatewayPort w) (resolved_token w))].
Proof.
  unfold window_effects, bootstrap_effects, start_effects. cbv zeta.
  rewrite !filter_app.
  rewrite !parse_warning_filter by reflexivity.
  destruct (ref_truthy (gatewayProcess w)); repeat split.
Qed.

Lemma createWindow_file (w : World) :
  gatewayPort w = 18789 ->
  files (exec createWindow w) (config_path (exec createWindow w))
  = Some (config_file_text (gatewayToken (exec createWindow w))).
Proof.
  intros Hp. rewrite (config_path_host w _ (createWindow_host w)), createWindow_token.
  rewrite createWindow_exec. cbn [files]. rewrite window_effects_written.
  unfold written_config. now rewrite Hp, serialize_minimal_config.
Qed.

(* ================================================================== *)
(** ** The retry policy of the [did-fail-load] listener *)

Lemma filter_timeout_app (a b : list effect) :
  filter is_timeout (a ++ b) = filter is_timeout a ++ filter is_timeout b.
Proof. apply filter_app. Qed.

Lemma log_write_exec (level message : jsstring) (w : World) :
  log_write level message w = (tt, with_log level message w).
Proof. reflexivity. Qed.

(** A failure that is retried: the line is logged, the counter goes
    up by one and one timer of 500 ms is set for [RetryLoad]. *)
Lemma on_did_fail_load_retry (code : Z) (description url : jsstring) (w : World) :
  loopback_url url = true -> uiRetries w < 20 ->
  exec (on_did_fail_load code description url) w =
  set_trace (trace w ++ [load_failure_log code description url; SetTimeout RetryLoad 500])
    (set_uiRetries (uiRetries w + 1)
       (with_log (str "error") (load_failure_message code description url) w)).
Proof.
  unfold loopback_url, loopback_prefix, load_failure_log, load_failure_message, with_log.
  intros Hurl Hlt. apply N.ltb_lt in Hlt.
  unfold on_did_fail_load. run_monad.
  apply andb_true_iff in Hurl as [H1 H2]. rewrite H1, H2, Hlt. cbn [andb].
  run_monad. rewrite <- app_assoc. reflexivity.
Qed.

(** A failure that is not retried: only the log line. *)
Lemma on_did_fail_load_no_retry (code : Z) (description url : jsstring) (w : World) :
  loopback_url url = false \/ 20 <= uiRetries w ->
  exec (on_did_fail_load code description url) w =
  with_log (str "error") (load_failure_message code description url) w.
Proof.
  unfold loopback_url, loopback_prefix, load_failure_message, with_log. intros H.
  unfold on_did_fail_load. run_monad.
  match goal with
  | |- context [if ?c then _ else _] => replace c with false; [reflexivity|]
  end.
  symmetry. destruct H as [H|H].
  - rewrite H. reflexivity.
  - apply andb_false_iff. right. apply N.ltb_ge. exact H.
Qed.

Lemma retries_after_retry (code : Z) (description url : jsstring) (w : World) :
  loopback_url url = true -> uiRetries w < 20 ->
  let w' := exec (on_did_fail_load code description url) w in
  retries_scheduled w' = retries_scheduled w ++ [SetTimeout RetryLoad 500]
  /\ uiRetries w' = uiRetries w + 1.
Proof.
  intros Hurl Hlt. cbv zeta. rewrite on_did_fail_load_retry by assumption.
  unfold retries_scheduled. cbn [trace uiRetries set_trace set_uiRetries].
  rewrite filter_timeout_app. split; reflexivity.
Qed.

Lemma retries_after_no_retry (code : Z) (description url : jsstring) (w : World) :
  loopback_url url = false \/ 20 <= uiRetries w ->
  let w' := exec (on_did_fail_load code description url) w in
  retries_scheduled w' = retries_scheduled w /\ uiRetries w' = uiRetries w.
Proof.
  intros H. cbv zeta. rewrite on_did_fail_load_no_retry by assumption.
  unfold retries_scheduled, with_log.
  cbn [trace uiRetries set_trace set_logged set_files].
  rewrite filter_timeout_app. cbn. rewrite app_nil_r. split; reflexivity.
Qed.

(** [n] consecutive loopback failures, [k] retries already spent. *)
Lemma loopback_failures_retries (evs : list event) :
  forall (w : World),
  forallb loopback_failure evs = true ->
  uiRetries w <= 20 ->
  retries_scheduled (run evs w) =
    retries_scheduled w
      ++ repeat (SetTimeout RetryLoad 500)
           (Nat.min (List.length evs) (N.to_nat (20 - uiRetries w)))
  /\ uiRetries (run evs w) = N.min 20 (uiRetries w + N.of_nat (List.length evs)).
Proof.
  induction evs as [|e evs IH]; intros w Hall Hle.
  - cbn. rewrite app_nil_r. split; [reflexivity|]. lia.
  - cbn [forallb] in Hall. apply andb_true_iff in Hall as [He Hall].
    destruct e; try discriminate. cbn [loopback_failure] in He.
    cbn [run dispatch List.length].
    destruct (N.ltb_spec (uiRetries w) 20) as [Hlt|Hge].
    + destruct (retries_after_retry errorCode errorDescription validatedURL w He Hlt)
        as [Hr Hu].
      destruct (IH _ Hall ltac:(rewrite Hu; lia)) as [IHr IHu].
      rewrite IHr, IHu, Hr, Hu. split; [|lia].
      rewrite <- app_assoc. f_equal.
      replace (N.to_nat (20 - uiRetries w)) with (S (N.to_nat (20 - (uiRetries w + 1))))
        by lia.
      reflexivity.
    + destruct (retries_after_no_retry errorCode errorDescription validatedURL w
                  (or_intror Hge)) as [Hr Hu].
      destruct (IH _ Hall ltac:(rewrite Hu; lia)) as [IHr IHu].
      rewrite IHr, IHu, Hr, Hu. split; [|lia].
      replace (N.to_nat (20 - uiRetries w)) with 0%nat by lia.
      now rewrite !Nat.min_0_r.
Qed.

Lemma forallb_firstn {A : Type} (f : A -> bool) (n : nat) (l : list A) :
  forallb f l = true -> forallb f (firstn n l) = true.
Proof.
  revert l. induction n as [|n IH]; intros [|x l] H; try reflexivity.
  cbn [forallb firstn] in *. apply andb_true_iff in H as [Hx Hl].
  now rewrite Hx, IH.
Qed.

(** The URL the shell loads begins with the prefix the listener looks
    for. *)
Lemma control_url_loopback (port : N) (token : jsstring) :
  loopback_url (control_url port token) = true.
Proof. reflexivity. Qed.

(* ================================================================== *)
(** ** An invariant of the event loop *)

Lemma plain_no_timeout (effs : list effect) :
  forallb plain effs = true -> filter is_timeout effs = [].
Proof.
  induction effs as [|e effs IH]; [reflexivity|].
  cbn [forallb filter]. intros H. apply andb_true_iff in H as [He Hr].
  destruct e; try discriminate; cbn; auto.
Qed.

Lemma plain_carries_port (port : N) (effs : list effect) :
  forallb plain effs = true -> Forall (carries_port port) effs.
Proof.
  induction effs as [|e effs IH]; [constructor|].
  cbn [forallb]. intros H. apply andb_true_iff in H as [He Hr].
  constructor; [|auto]. destruct e; try discriminate; exact I.
Qed.

Lemma parse_warning_plain (w : World) : forallb plain (parse_warning w) = true.
Proof. unfold parse_warning. destruct (stored_token w); reflexivity. Qed.

(** A step that keeps the port and the counter and adds effects that
    set no timer keeps the invariant. *)
Lemma invariant_step (w w' : World) (effs : list effect) :
  invariant w ->
  gatewayPort w' = gatewayPort w ->
  uiRetries w' = uiRetries w ->
  trace w' = trace w ++ effs ->
  filter is_timeout effs = [] ->
  Forall (carries_port 18789) effs ->
  (ref_truthy (mainWindow w') = true ->
   exists token, controlUiUrl w' = control_url 18789 token) ->
  invariant w'.
Proof.
  intros [Hp Hr Ht He Hu] Hport Hretries Htrace Hnotimer Hcarry Hurl.
  constructor.
  - congruence.
  - now rewrite Hretries.
  - unfold retries_scheduled in *.
    rewrite Htrace, filter_timeout_app, Hnotimer, app_nil_r, Hretries. exact Ht.
  - rewrite Htrace. apply Forall_app. split; assumption.
  - exact Hurl.
Qed.

Lemma invariant_initial (h : Host) (fs : jsstring -> option jsstring) :
  invariant (initial h fs).
Proof.
  constructor.
  - reflexivity.
  - cbn [uiRetries initial]. lia.
  - reflexivity.
  - constructor.
  - discriminate.
Qed.

Lemma window_effects_timeouts (w : World) : filter is_timeout (window_effects w) = [].
Proof.
  unfold window_effects, bootstrap_effects, start_effects. cbv zeta.
  rewrite !filter_timeout_app.
  rewrite (plain_no_timeout _ (parse_warning_plain w)).
  destruct (ref_truthy (gatewayProcess w)); reflexivity.
Qed.

Lemma window_effects_carry (w : World) :
  gatewayPort w = 18789 -> Forall (carries_port 18789) (window_effects w).
Proof.
  intros Hp. unfold window_effects, bootstrap_effects. cbv zeta.
  apply Forall_app. split; [repeat constructor|].
  apply Forall_app. split.
  { apply Forall_app. split; [repeat constructor|].
    apply Forall_app. split; [apply plain_carries_port, parse_warning_plain|].
    constructor; [|repeat constructor].
    exists (resolved_token w). unfold written_config. now rewrite Hp. }
  apply Forall_app. split.
  { destruct (ref_truthy (gatewayProcess w)); [constructor|].
    unfold start_effects. constructor; [exact I|].
    constructor; [exact I|]. constructor; [|constructor].
    unfold booted.
    cbn [carries_port gateway_call sp_args gatewayPort gatewayToken].
    rewrite Hp. eauto. }
  constructor; [exact I|]. constructor; [|constructor].
  cbn [carries_port]. rewrite Hp. eauto.
Qed.

Lemma invariant_createWindow (w : World) :
  invariant w -> invariant (exec createWindow w).
Proof.
  intros Hinv. pose proof (inv_port w Hinv) as Hp.
  rewrite createWindow_exec. cbv zeta.
  eapply (invariant_step w); [exact Hinv | reflexivity | reflexivity | .. ].
  - cbn [trace]. reflexivity.
  - apply window_effects_timeouts.
  - now apply window_effects_carry.
  - intros _. cbn [controlUiUrl]. rewrite Hp. eauto.
Qed.

(** A listener that only logs, kills or quits keeps the invariant. *)
Lemma invariant_plain_step (w w' : World) (effs : list effect) :
  invariant w ->
  gatewayPort w' = gatewayPort w ->
  uiRetries w' = uiRetries w ->
  controlUiUrl w' = controlUiUrl w ->
  mainWindow w' = mainWindow w \/ mainWindow w' = Null ->
  trace w' = trace w ++ effs ->
  forallb plain effs = true ->
  invariant w'.
Proof.
  intros Hinv Hp Hr Hu Hwin Ht Hplain.
  apply (invariant_step w w' effs Hinv Hp Hr Ht).
  - now apply plain_no_timeout.
  - now apply plain_carries_port.
  - rewrite Hu. destruct Hwin as [-> | ->]; [apply (inv_url w Hinv) | discriminate].
Qed.

Ltac plain_step Hinv :=
  eapply (invariant_plain_step _ _ _ Hinv);
  [ reflexivity | reflexivity | reflexivity
  | first [left; reflexivity | right; reflexivity]
  | cbn [trace set_trace set_mainWindow set_gatewayProcess]; reflexivity
  | reflexivity ].

(** The [activate] listener creates a window when the last one was
    closed, and does nothing otherwise. *)
Lemma on_activate_exec (w : World) :
  exec on_activate w = match mainWindow w with Null => exec createWindow w | _ => w end.
Proof.
  unfold on_activate, exec, bind, read.
  destruct (mainWindow w); reflexivity.
Qed.

(** Every listener keeps the invariant. *)
Lemma invariant_dispatch (e : event) (w : World) :
  invariant w -> invariant (exec (dispatch e) w).
Proof.
  intros Hinv. destruct e; cbn [dispatch].
  - now apply invariant_createWindow.
  - unfold on_window_all_closed. run_monad.
    destruct (negb _); run_monad; [|exact Hinv].
    plain_step Hinv.
  - unfold on_quit. run_monad.
    destruct (gatewayProcess w) as [| |child]; run_monad; try exact Hinv.
    plain_step Hinv.
  - rewrite on_activate_exec.
    destruct (mainWindow w) eqn:Hwin; try exact Hinv.
    now apply invariant_createWindow.
  - destruct (loopback_url validatedURL) eqn:Hurl;
      [destruct (N.ltb_spec (uiRetries w) 20) as [Hlt|Hge]|].
    + rewrite on_did_fail_load_retry by assumption.
      destruct Hinv as [Hp Hr Ht He Hu]. constructor.
      * exact Hp.
      * cbn [uiRetries set_trace set_uiRetries]. lia.
      * unfold retries_scheduled in *.
        cbn [trace uiRetries set_trace set_uiRetries].
        rewrite filter_timeout_app, length_app, Ht.
        unfold load_failure_log. cbn [filter is_timeout List.length]. lia.
      * cbn [trace set_trace]. apply Forall_app. split; [assumption|].
        constructor; [exact I|]. constructor; [exact I|constructor].
      * exact Hu.
    + rewrite on_did_fail_load_no_retry by (right; assumption).
      plain_step Hinv.
    + rewrite on_did_fail_load_no_retry by (left; exact Hurl).
      plain_step Hinv.
  - unfold call, retry_load. run_monad.
    destruct (mainWindow w) as [| |win] eqn:Hwin; run_monad; try exact Hinv.
    apply (invariant_step w _ [LoadURL win (controlUiUrl w)] Hinv);
      try reflexivity.
    + constructor; [|constructor]. cbn [carries_port].
      apply (inv_url w Hinv). now rewrite Hwin.
    + cbn [mainWindow controlUiUrl set_trace]. exact (inv_url w Hinv).
  - unfold on_closed. run_monad.
    eapply (invariant_plain_step w _ [] Hinv);
      [ reflexivity | reflexivity | reflexivity | right; reflexivity
      | cbn [trace set_mainWindow]; now rewrite app_nil_r | reflexivity ].
  - unfold on_gateway_stdout. run_monad. plain_step Hinv.
  - unfold on_gateway_stderr. run_monad. plain_step Hinv.
  - unfold on_gateway_exit. run_monad. plain_step Hinv.
  - unfold on_gateway_error. run_monad. plain_step Hinv.
Qed.

(** The invariant holds after any sequence of events. *)
Lemma invariant_run (evs : list event) :
  forall w, invariant w -> invariant (run evs w).
Proof.
  induction evs as [|e evs IH]; intros w Hinv; [exact Hinv|].
  cbn [run]. apply IH, invariant_dispatch, Hinv.
Qed.

Lemma invariant_reachable (h : Host) (fs : jsstring -> option jsstring)
    (evs : list event) :
  invariant (run evs (initial h fs)).
Proof. apply invariant_run, invariant_initial. Qed.

(* ================================================================== *)
(** ** The token across runs of the bootstrap *)

Lemma str_truthy_nonempty (s : jsstring) : str_truthy s = true <-> s <> [].
Proof. destruct s; cbn; split; intros H; congruence. Qed.

(** The token of a config file whose [gateway.auth.token] is the
    string [t]. *)
Lemma stored_token_string (w : World) (raw : jsstring) (parsed : json) (t : jsstring) :
  files w (config_path w) = Some raw ->
  JSON_parse raw = Some parsed ->
  token_property parsed = Ok (Val (JStr t)) ->
  stored_token w = Ok (trim t).
Proof.
  intros Hf Hp Ht. unfold stored_token.
  now rewrite Hf, Hp, token_of_parsed_spec, Ht.
Qed.

(** What the [try] block yields is trimmed already. *)
Lemma existing_token_trimmed (w : World) :
  trim (existing_token w) = existing_token w.
Proof.
  unfold existing_token, stored_token.
  destruct (files w (config_path w)) as [raw|]; [|reflexivity].
  destruct (JSON_parse raw) as [parsed|]; [|reflexivity].
  rewrite token_of_parsed_spec.
  destruct (token_property parsed) as [[|[ | | |t| | ]]|]; try reflexivity.
  apply trim_trim.
Qed.

Lemma fresh_token_trimmed (w : World) :
  let token := toString_hex (next_bytes 24 w) in
  trim token = token /\ str_truthy token = true.
Proof. exact (generateToken_trim w). Qed.

(** The token the bootstrap settles on is never empty and has no
    white space around it. *)
Lemma resolved_token_trimmed (w : World) :
  trim (resolved_token w) = resolved_token w /\ str_truthy (resolved_token w) = true.
Proof.
  unfold resolved_token.
  destruct (str_truthy (existing_token w)) eqn:E.
  - split; [apply existing_token_trimmed | exact E].
  - apply fresh_token_trimmed.
Qed.

(** After a bootstrap the file holds its token, and the next bootstrap
    finds it. *)
Lemma ensureGatewayConfig_again (w : World) :
  gatewayPort w = 18789 ->
  let w1 := exec ensureGatewayConfig w in
  files w1 (config_path w1) = Some (config_file_text (resolved_token w))
  /\ stored_token w1 = Ok (resolved_token w)
  /\ existing_token w1 = resolved_token w
  /\ resolved_token w1 = resolved_token w.
Proof.
  intros Hp. cbv zeta.
  assert (Hfile : files (exec ensureGatewayConfig w)
                    (config_path (exec ensureGatewayConfig w))
                  = Some (config_file_text (resolved_token w))).
  { rewrite (config_path_host w _ (ensureGatewayConfig_host w)), ensureGatewayConfig_file.
    unfold written_config. now rewrite Hp, serialize_minimal_config. }
  destruct (resolved_token_trimmed w) as [Htrim Hne].
  assert (Hstored : stored_token (exec ensureGatewayConfig w) = Ok (resolved_token w)).
  { unfold stored_token. rewrite Hfile, parse_config_file_text, token_of_minimal_config.
    now rewrite Htrim. }
  assert (Hex : existing_token (exec ensureGatewayConfig w) = resolved_token w).
  { unfold existing_token. now rewrite Hstored. }
  repeat split; try assumption.
  unfold resolved_token at 1. now rewrite Hex, Hne.
Qed.

Lemma ensureGatewayConfig_port (w : World) :
  gatewayPort (exec ensureGatewayConfig w) = gatewayPort w.
Proof. now rewrite ensureGatewayConfig_exec. Qed.

Lemma ensureGatewayConfig_drawn (w : World) :
  drawn (exec ensureGatewayConfig w) =
  if str_truthy (existing_token w) then drawn w else (drawn w + 24)%nat.
Proof. now rewrite ensureGatewayConfig_exec. Qed.

(** The bootstrap is idempotent on the port and the token, from any
    state: the second run finds the token of the first. *)
Lemma ensureGatewayConfig_idempotent (w : World) :
  gatewayPort w = 18789 ->
  let w1 := exec ensureGatewayConfig w in
  let w2 := exec ensureGatewayConfig w1 in
  gatewayToken w2 = gatewayToken w1 /\ gatewayPort w2 = gatewayPort w1
  /\ drawn w2 = drawn w1 /\ files w2 (config_path w2) = files w1 (config_path w1).
Proof.
  intros Hp. cbv zeta.
  destruct (ensureGatewayConfig_again w Hp) as (Hf & Hs & He & Hr).
  destruct (resolved_token_trimmed w) as [_ Hne].
  rewrite (ensureGatewayConfig_token (exec ensureGatewayConfig w)), Hr.
  rewrite (ensureGatewayConfig_token w).
  rewrite (ensureGatewayConfig_port (exec ensureGatewayConfig w)).
  rewrite (ensureGatewayConfig_drawn (exec ensureGatewayConfig w)), He, Hne.
  repeat split.
  assert (Hp1 : gatewayPort (exec ensureGatewayConfig w) = 18789)
    by now rewrite ensureGatewayConfig_port.
  destruct (ensureGatewayConfig_again _ Hp1) as (Hf2 & _).
  rewrite Hf2, Hf, Hr. reflexivity.
Qed.

(* ================================================================== *)
(** ** The specification, claim by claim *)

(** C1, as amended.  When the config file holds a token that is a
    string and is not empty once trimmed, the bootstrap reuses that
    token with the white space around it trimmed off (so unchanged when
    there is none) and draws no random bytes; a second run of the
    bootstrap settles on the same token and the same port, again
    without generating. *)
Theorem bootstrap_reuses_trimmed_token
    (w : World) (raw : jsstring) (parsed : json) (t : jsstring) :
  gatewayPort w = 18789 ->
  files w (config_path w) = Some raw ->
  JSON_parse raw = Some parsed ->
  token_property parsed = Ok (Val (JStr t)) ->
  trim t <> [] ->
  let w1 := exec ensureGatewayConfig w in
  let w2 := exec ensureGatewayConfig w1 in
  (gatewayToken w1 = trim t /\ drawn w1 = drawn w /\ gatewayPort w1 = 18789)
  /\ (gatewayToken w2 = gatewayToken w1 /\ drawn w2 = drawn w
      /\ gatewayPort w2 = gatewayPort w1)
  /\ (trim t = t -> gatewayToken w1 = t /\ gatewayToken w2 = t).
Proof.
  intros Hp Hf Hparse Ht Hne. cbv zeta.
  pose proof (stored_token_string w raw parsed t Hf Hparse Ht) as Hs.
  assert (He : existing_token w = trim t) by (unfold existing_token; now rewrite Hs).
  assert (Htr : str_truthy (trim t) = true) by now apply str_truthy_nonempty.
  assert (Hr : resolved_token w = trim t) by (unfold resolved_token; now rewrite He, Htr).
  assert (H1 : gatewayToken (exec ensureGatewayConfig w) = trim t)
    by now rewrite ensureGatewayConfig_token.
  assert (Hd1 : drawn (exec ensureGatewayConfig w) = drawn w)
    by now rewrite ensureGatewayConfig_drawn, He, Htr.
  destruct (ensureGatewayConfig_idempotent w Hp) as (H2 & Hp2 & Hd2 & _).
  split; [|split].
  - split; [exact H1|]. split; [exact Hd1|].
    now rewrite ensureGatewayConfig_port.
  - split; [exact H2|]. split; [|exact Hp2].
    now rewrite Hd2.
  - intros E. split; [now rewrite H1 | now rewrite H2, H1].
Qed.

Lemma bootstrap_reuses_trimmed_token_witness :
  let w := initial sample_host (with_config padded_config) in
  let w1 := exec ensureGatewayConfig w in
  let w2 := exec ensureGatewayConfig w1 in
  (gatewayToken w1 = trim (str " abc ") /\ drawn w1 = drawn w /\ gatewayPort w1 = 18789)
  /\ (gatewayToken w2 = gatewayToken w1 /\ drawn w2 = drawn w
      /\ gatewayPort w2 = gatewayPort w1)
  /\ (trim (str " abc ") = str " abc " ->
      gatewayToken w1 = str " abc " /\ gatewayToken w2 = str " abc ").
Proof.
  apply (bootstrap_reuses_trimmed_token
           (initial sample_host (with_config padded_config))
           padded_config padded_parsed (str " abc ")).
  - reflexivity.
  - vm_compute. reflexivity.
  - vm_compute. reflexivity.
  - vm_compute. reflexivity.
  - vm_compute. discriminate.
Defined.

(** C1 as it is stated fails: a file whose token is [" abc "] holds a
    string that is not empty once trimmed, and the bootstrap does not
    reuse it unchanged; it settles on ["abc"]. *)
Lemma bootstrap_token_unchanged_counterexample :
  let w := initial sample_host (with_config padded_config) in
  files w (config_path w) = Some padded_config
  /\ JSON_parse padded_config = Some padded_parsed
  /\ token_property padded_parsed = Ok (Val (JStr (str " abc ")))
  /\ trim (str " abc ") <> []
  /\ gatewayToken (exec ensureGatewayConfig w) = str "abc"
  /\ gatewayToken (exec ensureGatewayConfig w) <> str " abc ".
Proof.
  vm_compute. repeat split; discriminate.
Qed.

(** C2.  While a child is held, [startGateway] changes nothing: the
    state and the trace stay as they are, so no second child is spawned;
    and a start right after another start, from any state, is such a
    no-op. *)
Theorem start_is_noop_while_live (w : World) (rootDir : jsstring) (child : nat) :
  gatewayProcess w = Object child ->
  startGateway rootDir w = (tt, w)
  /\ spawns (exec (startGateway rootDir) w) = spawns w
  /\ (forall (w0 : World) (first second : jsstring),
        exec (startGateway second) (exec (startGateway first) w0)
        = exec (startGateway first) w0).
Proof.
  intros Hlive.
  assert (H : startGateway rootDir w = (tt, w))
    by (apply startGateway_live; now rewrite Hlive).
  split; [exact H|]. split.
  - unfold exec. now rewrite H.
  - intros w0 first second.
    destruct (ref_truthy (gatewayProcess w0)) eqn:E.
    + unfold exec. rewrite (startGateway_live first w0 E). cbn [snd].
      now rewrite (startGateway_live second w0 E).
    + unfold exec. rewrite (startGateway_idle first w0 E). cbn [snd].
      now rewrite startGateway_live.
Qed.

Lemma start_is_noop_while_live_witness :
  let w := run [Ready] (initial sample_host no_files) in
  startGateway (str "C:\app\resources") w = (tt, w)
  /\ spawns (exec (startGateway (str "C:\app\resources")) w) = spawns w
  /\ (forall (w0 : World) (first second : jsstring),
        exec (startGateway second) (exec (startGateway first) w0)
        = exec (startGateway first) w0).
Proof.
  apply (start_is_noop_while_live
           (run [Ready] (initial sample_host no_files)) (str "C:\app\resources") 0).
  vm_compute. reflexivity.
Defined.

(** C3, as amended.  The retry counter is never reset, so what 21
    consecutive failures to load the control-UI URL schedule depends on
    the [n] retries scheduled since the shell started, which the
    counter holds: they set exactly [20 - n] timers, each of 500 ms and each for [RetryLoad], all of
    them by the first 20 failures, so the 21st sets none; that is
    exactly 20 when none was scheduled before.  Afterwards 20 timers
    have been set in all, and after any events whatever at most 20.  A
    timer that fires while the window is open loads the control-UI URL
    into it again. *)
Theorem retry_bound
    (h : Host) (fs : jsstring -> option jsstring) (evs failures : list event) :
  let w := run evs (initial h fs) in
  ref_truthy (mainWindow w) = true ->
  List.length failures = 21%nat ->
  forallb (fun e => match e with
                    | DidFailLoad _ _ url => str_eqb url (controlUiUrl w)
                    | _ => false
                    end) failures = true ->
  retries_scheduled (run failures w)
    = retries_scheduled w
        ++ repeat (SetTimeout RetryLoad 500) (N.to_nat (20 - uiRetries w))
  /\ retries_scheduled (run (firstn 20 failures) w)
    = retries_scheduled w
        ++ repeat (SetTimeout RetryLoad 500) (N.to_nat (20 - uiRetries w))
  /\ (uiRetries w = 0 ->
      retries_scheduled (run failures w)
        = retries_scheduled w ++ repeat (SetTimeout RetryLoad 500) 20)
  /\ uiRetries (run failures w) = 20
  /\ List.length (retries_scheduled (run failures w)) = 20%nat
  /\ (forall (h' : Host) (fs' : jsstring -> option jsstring) (evs' : list event),
        (List.length (retries_scheduled (run evs' (initial h' fs'))) <= 20)%nat)
  /\ N.to_nat (uiRetries w) = List.length (retries_scheduled w)
  /\ (forall (w0 : World) (window : nat),
        mainWindow w0 = Object window ->
        exec (dispatch RetryTimer) w0
        = set_trace (trace w0 ++ [LoadURL window (controlUiUrl w0)]) w0).
Proof.
  cbv zeta. intros Hwin Hlen Hall.
  pose proof (invariant_reachable h fs evs) as Hinv.
  set (w := run evs (initial h fs)) in *.
  destruct (inv_url w Hinv Hwin) as [token Hurl].
  assert (Hloop : forallb loopback_failure failures = true).
  { apply forallb_forall. intros e He.
    rewrite forallb_forall in Hall. specialize (Hall e He).
    destruct e; try discriminate. cbn [loopback_failure].
    apply str_eqb_eq in Hall. rewrite Hall, Hurl. apply control_url_loopback. }
  pose proof (inv_retries w Hinv) as Hle.
  pose proof (inv_timers w Hinv) as Htimers.
  destruct (loopback_failures_retries failures w Hloop Hle) as [Hr Hu].
  pose proof (forallb_firstn loopback_failure 20 failures Hloop) as Hloop20.
  destruct (loopback_failures_retries (firstn 20 failures) w Hloop20 Hle) as [Hr20 _].
  rewrite length_firstn in Hr20. rewrite Hlen in *.
  replace (Nat.min 21 (N.to_nat (20 - uiRetries w))) with (N.to_nat (20 - uiRetries w))
    in Hr by lia.
  replace (Nat.min (Nat.min 20 21) (N.to_nat (20 - uiRetries w)))
    with (N.to_nat (20 - uiRetries w)) in Hr20 by lia.
  split; [exact Hr|]. split; [exact Hr20|]. split.
  { intros H0. rewrite Hr, H0. reflexivity. }
  split; [rewrite Hu; lia|]. split.
  { rewrite Hr, length_app, repeat_length, Htimers. lia. }
  split.
  { intros h' fs' evs'.
    pose proof (invariant_reachable h' fs' evs') as [_ Hb Ht _ _].
    rewrite Ht. lia. }
  split; [symmetry; exact Htimers|].
  intros w0 window Hw0. cbn [dispatch]. unfold call, retry_load. run_monad.
  rewrite Hw0. reflexivity.
Qed.

Lemma retry_bound_witness :
  let w := run [Ready] (initial sample_host no_files) in
  let failures :=
    repeat (DidFailLoad (-102) (str "ERR_CONNECTION_REFUSED") (controlUiUrl w)) 21 in
  retries_scheduled (run failures w)
    = retries_scheduled w ++ repeat (SetTimeout RetryLoad 500) 20
  /\ uiRetries (run failures w) = 20.
Proof.
  cbv zeta.
  destruct (retry_bound sample_host no_files [Ready]
              (repeat (DidFailLoad (-102) (str "ERR_CONNECTION_REFUSED")
                         (controlUiUrl (run [Ready] (initial sample_host no_files)))) 21))
    as (_ & _ & Hfresh & Hcount & _).
  - vm_compute. reflexivity.
  - vm_compute. reflexivity.
  - vm_compute. reflexivity.
  - split; [apply Hfresh; vm_compute; reflexivity | exact Hcount].
Defined.

(** C3 as it is stated fails: in a second window, opened after the
    retries of the first were spent, 21 consecutive failures to load
    the control-UI URL schedule no retry at all, not 20. *)
Lemma exactly_20_retries_counterexample :
  let opened := run [Ready] (initial sample_host no_files) in
  let failure := fun w => DidFailLoad (-102) (str "ERR_CONNECTION_REFUSED") (controlUiUrl w) in
  let reopened := run (repeat (failure opened) 21 ++ [Closed; Activate]) opened in
  let failures := repeat (failure reopened) 21 in
  mainWindow reopened = Object 1
  /\ startsWith (str "http://127.0.0.1:18789/?token=") (controlUiUrl reopened) = true
  /\ spec_loopback_url (controlUiUrl reopened) = true
  /\ List.length failures = 21%nat
  /\ retries_scheduled (run failures reopened) = retries_scheduled reopened
  /\ retries_scheduled (run failures reopened)
     <> retries_scheduled reopened ++ repeat (SetTimeout RetryLoad 500) 20.
Proof.
  vm_compute. repeat split. discriminate.
Qed.

(** C4, as amended.  A load failure whose failing URL does not begin
    with the text [http://127.0.0.1] sets no timer and leaves the retry
    counter as it is: the listener only logs the failure.  A timer is
    set only when the URL begins with that text and the counter is
    below 20, and then one is.  The control-UI URL, whose host is
    [127.0.0.1], begins with that text. *)
Theorem no_retry_off_loopback
    (w : World) (errorCode : Z) (errorDescription validatedURL : jsstring) :
  startsWith (str "http://127.0.0.1") validatedURL = false ->
  let w' := exec (on_did_fail_load errorCode errorDescription validatedURL) w in
  retries_scheduled w' = retries_scheduled w
  /\ uiRetries w' = uiRetries w
  /\ trace w' =
       trace w
         ++ [Log (str "error")
               (str "UI failed to load: " ++ str (NilZero.string_of_int (Z.to_int errorCode))
                  ++ str " "
                  ++ errorDescription ++ str " " ++ validatedURL)]
  /\ (forall (w0 : World) (code : Z) (description url : jsstring),
        retries_scheduled (exec (on_did_fail_load code description url) w0)
          <> retries_scheduled w0 ->
        startsWith (str "http://127.0.0.1") url = true /\ uiRetries w0 < 20)
  /\ (forall (w0 : World) (code : Z) (description url : jsstring),
        startsWith (str "http://127.0.0.1") url = true -> uiRetries w0 < 20 ->
        retries_scheduled (exec (on_did_fail_load code description url) w0)
          = retries_scheduled w0 ++ [SetTimeout RetryLoad 500])
  /\ (forall token : jsstring,
        spec_loopback_url (control_url 18789 token) = true
        /\ startsWith (str "http://127.0.0.1") (control_url 18789 token) = true).
Proof.
  intros Hurl. cbv zeta.
  assert (Htest : forall url, loopback_url url = startsWith (str "http://127.0.0.1") url).
  { intros [|c url]; reflexivity. }
  rewrite <- Htest in Hurl.
  destruct (retries_after_no_retry errorCode errorDescription validatedURL w
              (or_introl Hurl)) as [Hr Hu].
  split; [exact Hr|]. split; [exact Hu|]. split.
  { now rewrite on_did_fail_load_no_retry by (left; exact Hurl). }
  split.
  { intros w0 code description url Hchanged. rewrite <- Htest.
    destruct (loopback_url url) eqn:E.
    - split; [reflexivity|].
      destruct (N.ltb_spec (uiRetries w0) 20) as [Hlt|Hge]; [exact Hlt|].
      exfalso. apply Hchanged.
      apply (retries_after_no_retry code description url w0 (or_intror Hge)).
    - exfalso. apply Hchanged.
      apply (retries_after_no_retry code description url w0 (or_introl E)). }
  split.
  { intros w0 code description url Hpre Hlt. rewrite <- Htest in Hpre.
    apply (retries_after_retry code description url w0 Hpre Hlt). }
  intros token. split; reflexivity.
Qed.

Lemma no_retry_off_loopback_witness :
  let w := run [Ready] (initial sample_host no_files) in
  let url := str "https://example.com/help" in
  let w' := exec (on_did_fail_load (-105) (str "ERR_NAME_NOT_RESOLVED") url) w in
  retries_scheduled w' = retries_scheduled w
  /\ uiRetries w' = uiRetries w
  /\ trace w' =
       trace w
         ++ [Log (str "error")
               (str "UI failed to load: -105 ERR_NAME_NOT_RESOLVED https://example.com/help")].
Proof.
  cbv zeta.
  destruct (no_retry_off_loopback (run [Ready] (initial sample_host no_files))
              (-105) (str "ERR_NAME_NOT_RESOLVED") (str "https://example.com/help"))
    as (Hr & Hu & Ht & _).
  - vm_compute. reflexivity.
  - split; [exact Hr|]. split; [exact Hu|]. exact Ht.
Defined.

(** C4 as it is stated fails: the host of
    [http://127.0.0.1.example.com/] is not the loopback address, and a
    failure to load it is retried. *)
Lemma retry_off_loopback_counterexample :
  let w := run [Ready] (initial sample_host no_files) in
  let w' := exec (on_did_fail_load (-105) (str "ERR_NAME_NOT_RESOLVED") lookalike_url) w in
  url_host lookalike_url = Some (str "127.0.0.1.example.com")
  /\ spec_loopback_url lookalike_url = false
  /\ uiRetries w = 0
  /\ retries_scheduled w' = retries_scheduled w ++ [SetTimeout RetryLoad 500]
  /\ retries_scheduled w' <> retries_scheduled w.
Proof.
  vm_compute. repeat split. discriminate.
Qed.

(** C5.  When the config file does not parse, the bootstrap catches
    the parse error, logs the warning (with the text of the error,
    whatever the engine makes it), generates a fresh token, writes the
    config for that token over the file, and returns; the file it
    leaves is valid: it parses, to the minimal config holding the new
    token. *)
Theorem corrupt_config_recovered (w : World) (raw : jsstring) :
  gatewayPort w = 18789 ->
  files w (config_path w) = Some raw ->
  JSON_parse raw = None ->
  let token := toString_hex (next_bytes 24 w) in
  let w1 := exec ensureGatewayConfig w in
  ensureGatewayConfig w = (tt, w1)
  /\ stored_token w = Throw (syntax_error (host w) raw)
  /\ trace w1 =
       trace w
         ++ [Mkdir (userData (host w));
             Log (str "warn")
               (str "Failed to parse config, regenerating: "
                  ++ err_text (syntax_error (host w) raw));
             WriteFile (config_path w) (config_file_text token);
             Log (str "info") (str "Wrote gateway config: " ++ config_path w)]
  /\ gatewayToken w1 = token
  /\ drawn w1 = (drawn w + 24)%nat
  /\ files w1 (config_path w) = Some (config_file_text token)
  /\ JSON_parse (config_file_text token) = Some (minimal_config token 18789)
  /\ token_of_parsed (minimal_config token 18789) = Ok token.
Proof.
  intros Hp Hf Hparse. cbv zeta.
  assert (Hs : stored_token w = Throw (syntax_error (host w) raw))
    by (unfold stored_token; now rewrite Hf, Hparse).
  assert (He : existing_token w = []) by (unfold existing_token; now rewrite Hs).
  assert (Hr : resolved_token w = toString_hex (next_bytes 24 w))
    by (unfold resolved_token; now rewrite He).
  assert (Hw : written_config w = config_file_text (toString_hex (next_bytes 24 w)))
    by (unfold written_config; now rewrite Hr, Hp, serialize_minimal_config).
  split; [apply unit_action|]. split; [exact Hs|].
  split.
  { rewrite ensureGatewayConfig_exec. cbn [trace].
    unfold bootstrap_effects, parse_warning. rewrite Hs, Hw. reflexivity. }
  split; [now rewrite ensureGatewayConfig_token|].
  split; [now rewrite ensureGatewayConfig_drawn, He|].
  split; [now rewrite ensureGatewayConfig_file, Hw|].
  split; [apply parse_config_file_text|].
  rewrite token_of_minimal_config.
  now rewrite (proj1 (fresh_token_trimmed w)).
Qed.

Lemma corrupt_config_recovered_witness :
  let w := initial sample_host (with_config corrupt_config) in
  let token := toString_hex (next_bytes 24 w) in
  let w1 := exec ensureGatewayConfig w in
  ensureGatewayConfig w = (tt, w1)
  /\ stored_token w = Throw (syntax_error (host w) corrupt_config)
  /\ trace w1 =
       trace w
         ++ [Mkdir (userData (host w));
             Log (str "warn")
               (str "Failed to parse config, regenerating: "
                  ++ err_text (syntax_error (host w) corrupt_config));
             WriteFile (config_path w) (config_file_text token);
             Log (str "info") (str "Wrote gateway config: " ++ config_path w)]
  /\ gatewayToken w1 = token
  /\ drawn w1 = (drawn w + 24)%nat
  /\ files w1 (config_path w) = Some (config_file_text token)
  /\ JSON_parse (config_file_text token) = Some (minimal_config token 18789)
  /\ token_of_parsed (minimal_config token 18789) = Ok token.
Proof.
  cbv zeta.
  apply (corrupt_config_recovered
           (initial sample_host (with_config corrupt_config)) corrupt_config).
  - reflexivity.
  - vm_compute. reflexivity.
  - vm_compute. reflexivity.
Defined.








(** The cycle on the sample state directory: the token of the file,
    trimmed, in the URL and after [--token]. *)
Example cycle_on_padded_config :
  let w1 := run [Ready] (initial sample_host (with_config padded_config)) in
  gatewayToken w1 = str "abc"
  /\ controlUiUrl w1 = str "http://127.0.0.1:18789/?token=abc"
  /\ files w1 sample_config_path = Some (config_file_text (str "abc"))
  /\ nth 2 (rev (trace w1)) AppQuit =
       Spawn 0
         {| sp_command := str "C:\app\tixbot.exe";
            sp_args :=
              [str "C:\app\resources\openclaw.mjs"; str "gateway";
               str "--allow-unconfigured"; str "--auth"; str "token";
               str "--token"; str "abc"; str "--port"; str "18789";
               str "--bind"; str "loopback"];
            sp_cwd := str "C:\app\resources";
            sp_env :=
              [(str "PATH", str "C:\Windows");
               (str "NODE_ENV", str "production");
               (str "ELECTRON_RUN_AS_NODE", str "1");
               (str "OPENCLAW_NO_RESPAWN", str "1");
               (str "OPENCLAW_SKIP_CHANNELS", str "1");
               (str "OPENCLAW_SKIP_RUNTIME_GUARD", str "1");
               (str "OPENCLAW_STATE_DIR", str "C:\data\tixbot");
               (str "OPENCLAW_CONFIG_PATH", str "C:\data\tixbot\openclaw.json");
               (str "OPENCLAW_GATEWAY_TOKEN", str "abc")] |}.
Proof. vm_compute. repeat split. Qed.

(** The cycle of a shell run from its source tree: the root directory
    is two levels above the directory of the script, and the child is
    given [openclaw.mjs] there. *)
Example cycle_from_source_tree :
  let w1 := run [Ready] (initial dev_host (with_config padded_config)) in
  root_dir dev_host = str "C:\src"
  /\ nth 2 (rev (trace w1)) AppQuit =
       Spawn 0
         {| sp_command := str "C:\src\node_modules\electron\dist\electron.exe";
            sp_args :=
              [str "C:\src\openclaw.mjs"; str "gateway";
               str "--allow-unconfigured"; str "--auth"; str "token";
               str "--token"; str "abc"; str "--port"; str "18789";
               str "--bind"; str "loopback"];
            sp_cwd := str "C:\src";
            sp_env :=
              [(str "PATH", str "C:\Windows");
               (str "ELECTRON_RUN_AS_NODE", str "1");
               (str "OPENCLAW_NO_RESPAWN", str "1");
               (str "OPENCLAW_SKIP_CHANNELS", str "1");
               (str "OPENCLAW_SKIP_RUNTIME_GUARD", str "1");
               (str "OPENCLAW_STATE_DIR", str "C:\data\tixbot");
               (str "OPENCLAW_CONFIG_PATH", str "C:\data\tixbot\openclaw.json");
               (str "OPENCLAW_GATEWAY_TOKEN", str "abc");
               (str "NODE_ENV", str "production")] |}
  /\ nth 4 (trace w1) AppQuit = Log (str "info") (str "Root dir: C:\src").
Proof. vm_compute. repeat split. Qed.

(** A token that needs encoding: the space becomes [+] in the URL. *)
Example url_of_token_with_space :
  control_url 18789 (str "a b") = str "http://127.0.0.1:18789/?token=a+b".
Proof. reflexivity. Qed.

(** C8.  The [exit] listener logs, at level [error], the line
    [gateway exited: code=<code> signal=<signal>], with [null] for what is
    absent, and the [error] listener the line
    [gateway spawn error: <detail>], the detail being the stack of the
    error when it has one and [String(err)] otherwise; the line goes to
    the end of the log file.  Each then clears the handle and changes
    nothing else: the shell goes on, no child is spawned.  A
    [startGateway] after either spawns one new child. *)
Theorem exit_and_error_release_handle
    (w : World) (code : option N) (signal : option jsstring) (err : js_error)
    (rootDir : jsstring) :
  let exited := exec (on_gateway_exit code signal) w in
  let failed := exec (on_gateway_error err) w in
  let exit_message :=
    str "gateway exited: code="
      ++ match code with
         | Some n => str (NilZero.string_of_uint (N.to_uint n))
         | None => str "null"
         end
      ++ str " signal="
      ++ match signal with Some name => name | None => str "null" end in
  let error_message :=
    str "gateway spawn error: "
      ++ match err_stack err with
         | Some (c :: stack) => c :: stack
         | _ => err_text err
         end in
  let log_before :=
    match files w (path_join (userData (host w)) (str "tixbot.log")) with
    | Some old => old
    | None => []
    end in
  (exited = set_gatewayProcess Null (with_log (str "error") exit_message w)
   /\ trace exited = trace w ++ [Log (str "error") exit_message]
   /\ files exited (path_join (userData (host w)) (str "tixbot.log"))
      = Some (log_before ++ str "[" ++ clock (host w) (logged w) ++ str "] [error] "
                ++ exit_message ++ [10])
   /\ gatewayProcess exited = Null
   /\ spawns exited = spawns w
   /\ children exited = children w)
  /\ (failed = set_gatewayProcess Null (with_log (str "error") error_message w)
      /\ trace failed = trace w ++ [Log (str "error") error_message]
      /\ files failed (path_join (userData (host w)) (str "tixbot.log"))
         = Some (log_before ++ str "[" ++ clock (host w) (logged w) ++ str "] [error] "
                   ++ error_message ++ [10])
      /\ gatewayProcess failed = Null
      /\ spawns failed = spawns w
      /\ children failed = children w)
  /\ (spawns (exec (startGateway rootDir) exited)
        = spawns w ++ [Spawn (children w) (gateway_call rootDir exited)]
      /\ gatewayProcess (exec (startGateway rootDir) exited) = Object (children w))
  /\ (spawns (exec (startGateway rootDir) failed)
        = spawns w ++ [Spawn (children w) (gateway_call rootDir failed)]
      /\ gatewayProcess (exec (startGateway rootDir) failed) = Object (children w)).
Proof.
  cbv zeta. fold (log_path (host w)).
  set (exit_message :=
         str "gateway exited: code="
           ++ match code with
         | Some n => str (NilZero.string_of_uint (N.to_uint n))
         | None => str "null"
         end
           ++ str " signal="
           ++ match signal with Some name => name | None => str "null" end).
  set (error_message :=
         str "gateway spawn error: "
           ++ match err_stack err with
              | Some (c :: stack) => c :: stack
              | _ => err_text err
              end).
  assert (Hx : exec (on_gateway_exit code signal) w
               = set_gatewayProcess Null (with_log (str "error") exit_message w))
    by reflexivity.
  assert (Hf : exec (on_gateway_error err) w
               = set_gatewayProcess Null (with_log (str "error") error_message w)).
  { subst error_message. unfold on_gateway_error, error_detail.
    destruct (err_stack err) as [[|c stack]|]; reflexivity. }
  assert (Hlogged : forall message,
            files (set_gatewayProcess Null (with_log (str "error") message w))
              (log_path (host w))
            = Some (match files w (log_path (host w)) with
                    | Some old => old
                    | None => []
                    end ++ str "[" ++ clock (host w) (logged w) ++ str "] [error] "
                      ++ message ++ [10])).
  { intros message. unfold with_log. cbn [files set_gatewayProcess set_trace set_logged set_files].
    rewrite append_file_same. destruct (files w (log_path (host w))); reflexivity. }
  assert (Hspawns : forall message,
            spawns (set_gatewayProcess Null (with_log (str "error") message w)) = spawns w).
  { intros message. unfold spawns, with_log.
    cbn [trace set_gatewayProcess set_trace]. rewrite filter_app. cbn [filter is_spawn].
    apply app_nil_r. }
  assert (Hstart : forall message,
            let idle := set_gatewayProcess Null (with_log (str "error") message w) in
            spawns (exec (startGateway rootDir) idle)
              = spawns w ++ [Spawn (children w) (gateway_call rootDir idle)]
            /\ gatewayProcess (exec (startGateway rootDir) idle) = Object (children w)).
  { intros message idle. unfold exec. rewrite startGateway_idle by reflexivity.
    cbn [snd gatewayProcess]. split; [|reflexivity].
    unfold spawns at 1. cbn [trace]. unfold start_effects.
    rewrite filter_app. cbn [filter is_spawn]. fold (spawns idle).
    subst idle. now rewrite Hspawns. }
  rewrite Hx, Hf.
  split; [|split; [|split]].
  - split; [reflexivity|]. split; [reflexivity|]. split; [apply Hlogged|].
    split; [reflexivity|]. split; [apply Hspawns | reflexivity].
  - split; [reflexivity|]. split; [reflexivity|]. split; [apply Hlogged|].
    split; [reflexivity|]. split; [apply Hspawns | reflexivity].
  - apply (Hstart exit_message).
  - apply (Hstart error_message).
Qed.

(** The log lines of an exit by signal, of an exit with a code, and of
    a child that could not be started; and the log file after the
    first of them. *)
Example exit_log_lines :
  let w := run [Ready] (initial sample_host no_files) in
  let enoent :=
    {| err_stack := Some (str "Error: spawn C:\app\tixbot.exe ENOENT");
       err_text := str "Error: spawn C:\app\tixbot.exe ENOENT" |} in
  last (trace (run [GatewayExit None (Some (str "SIGTERM"))] w)) AppQuit
    = Log (str "error") (str "gateway exited: code=null signal=SIGTERM")
  /\ last (trace (run [GatewayExit (Some 1) None] w)) AppQuit
    = Log (str "error") (str "gateway exited: code=1 signal=null")
  /\ last (trace (run [GatewayError enoent] w)) AppQuit
    = Log (str "error") (str "gateway spawn error: Error: spawn C:\app\tixbot.exe ENOENT")
  /\ exists before,
       files w sample_log_path = Some before
       /\ files (run [GatewayExit (Some 1) None] w) sample_log_path
          = Some (before
                    ++ str "[2026-01-01T00:00:00.006Z] [error] gateway exited: code=1 signal=null"
                    ++ [10]).
Proof.
  cbv zeta. split; [|split; [|split]]; try (vm_compute; reflexivity).
  eexists. split; vm_compute; reflexivity.
Qed.

(** *** What each listener leaves alone *)

Lemma dispatch_creates (e : event) (w : World) :
  creates_window e w = true -> exec (dispatch e) w = exec createWindow w.
Proof.
  destruct e; try discriminate; cbn [dispatch creates_window]; [reflexivity|].
  intros H. rewrite on_activate_exec.
  destruct (mainWindow w); try discriminate. reflexivity.
Qed.

Ltac quiet_fields :=
  repeat split;
  try (intros p Hp; first [reflexivity | now apply append_file_other]).

(** A listener that does not call [createWindow] touches no file but
    the log, no token, no counter of children or windows; it spawns
    nothing and writes no file as a whole; only [quit] signals, and only
    the child held; only [exit] and [error] change the handle, to
    [null].  The files it leaves are those its log lines give, and it
    opens no file. *)
Lemma dispatch_quiet (e : event) (w : World) :
  creates_window e w = false ->
  let w' := exec (dispatch e) w in
  (host w' = host w
   /\ (forall p, p <> log_path (host w) -> files w' p = files w p)
   /\ gatewayToken w' = gatewayToken w
   /\ drawn w' = drawn w /\ gatewayPort w' = gatewayPort w
   /\ children w' = children w /\ windows w' = windows w
   /\ controlUiUrl w' = controlUiUrl w)
  /\ gatewayProcess w' = (if is_release e then Null else gatewayProcess w)
  /\ (is_load_failure e = false -> uiRetries w' = uiRetries w)
  /\ exists effs,
       trace w' = trace w ++ effs
       /\ filter is_spawn effs = []
       /\ filter is_write effs = []
       /\ (is_load_failure e = false -> filter is_timeout effs = [])
       /\ filter is_kill effs =
            (if is_quit e
             then match gatewayProcess w with Object child => [Kill child] | _ => [] end
             else [])
       /\ files w' = files_after (host w) (logged w) effs (files w)
       /\ logged w' = (count_logs effs + logged w)%nat
       /\ filter is_open effs = [].
Proof.
  intros Hq. cbv zeta.
  destruct e; cbn [dispatch creates_window is_release is_quit is_load_failure] in *;
    try discriminate.
  - unfold on_window_all_closed. run_monad.
    destruct (negb _); run_monad.
    + split; [quiet_fields|]. split; [reflexivity|]. split; [reflexivity|].
      exists [AppQuit]. repeat split.
    + split; [quiet_fields|]. split; [reflexivity|]. split; [reflexivity|].
      exists []. rewrite app_nil_r. repeat split.
  - unfold on_quit. run_monad.
    destruct (gatewayProcess w) as [| |child] eqn:Hproc; run_monad.
    + split; [quiet_fields|]. split; [now rewrite Hproc|]. split; [reflexivity|].
      exists []. rewrite app_nil_r. repeat split.
    + split; [quiet_fields|]. split; [now rewrite Hproc|]. split; [reflexivity|].
      exists []. rewrite app_nil_r. repeat split.
    + split; [quiet_fields|]. split; [exact Hproc|]. split; [reflexivity|].
      exists [Kill child]. repeat split.
  - rewrite on_activate_exec.
    destruct (mainWindow w); try discriminate.
    + split; [quiet_fields|]. split; [reflexivity|]. split; [reflexivity|].
      exists []. rewrite app_nil_r. repeat split.
    + split; [quiet_fields|]. split; [reflexivity|]. split; [reflexivity|].
      exists []. rewrite app_nil_r. repeat split.
  - unfold on_did_fail_load. run_monad.
    destruct (_ && _ && _); run_monad.
    + split; [quiet_fields|]. split; [reflexivity|]. split; [discriminate|].
      eexists. split; [rewrite <- app_assoc; reflexivity|].
      repeat split. discriminate.
    + split; [quiet_fields|]. split; [reflexivity|]. split; [discriminate|].
      eexists. split; [reflexivity|]. repeat split.
  - unfold call, retry_load. run_monad.
    destruct (mainWindow w) as [| |win]; run_monad.
    + split; [quiet_fields|]. split; [reflexivity|]. split; [reflexivity|].
      exists []. rewrite app_nil_r. repeat split.
    + split; [quiet_fields|]. split; [reflexivity|]. split; [reflexivity|].
      exists []. rewrite app_nil_r. repeat split.
    + split; [quiet_fields|]. split; [reflexivity|]. split; [reflexivity|].
      exists [LoadURL win (controlUiUrl w)]. repeat split.
  - unfold on_closed. run_monad.
    split; [quiet_fields|]. split; [reflexivity|]. split; [reflexivity|].
    exists []. rewrite app_nil_r. repeat split.
  - unfold on_gateway_stdout. run_monad.
    split; [quiet_fields|]. split; [reflexivity|]. split; [reflexivity|].
    eexists. split; [reflexivity|]. repeat split.
  - unfold on_gateway_stderr. run_monad.
    split; [quiet_fields|]. split; [reflexivity|]. split; [reflexivity|].
    eexists. split; [reflexivity|]. repeat split.
  - unfold on_gateway_exit. run_monad.
    split; [quiet_fields|]. split; [reflexivity|]. split; [reflexivity|].
    eexists. split; [reflexivity|]. repeat split.
  - unfold on_gateway_error. run_monad.
    split; [quiet_fields|]. split; [reflexivity|]. split; [reflexivity|].
    eexists. split; [reflexivity|]. repeat split.
Qed.

(** C9, as amended.  The [quit] listener, when a child is held, sends
    it the termination signal and changes nothing else: the handle
    stays, until the child's [exit] or [error] listener clears it.  Once
    cleared it stays cleared, and no signal is sent, whatever events
    follow, until the next start, that is until [ready] or an [activate]
    without a window calls [createWindow], which spawns a new child and
    holds it.  When no child is held, the [quit] listener does
    nothing. *)
Theorem quit_signals_child (w : World) (child : nat) :
  gatewayProcess w = Object child ->
  let w1 := exec on_quit w in
  w1 = set_trace (trace w ++ [Kill child]) w
  /\ gatewayProcess w1 = Object child
  /\ (forall code signal, gatewayProcess (exec (on_gateway_exit code signal) w1) = Null)
  /\ (forall err, gatewayProcess (exec (on_gateway_error err) w1) = Null)
  /\ (forall w0 evs,
        gatewayProcess w0 = Null ->
        no_window_created evs w0 = true ->
        gatewayProcess (run evs w0) = Null
        /\ filter is_kill (trace (run evs w0)) = filter is_kill (trace w0))
  /\ (forall w0 e,
        gatewayProcess w0 = Null ->
        creates_window e w0 = true ->
        gatewayProcess (exec (dispatch e) w0) = Object (children w0)
        /\ spawns (exec (dispatch e) w0)
           = spawns w0 ++ [Spawn (children w0) (gateway_call (root_dir (host w0)) (booted w0))])
  /\ (forall w0, ref_truthy (gatewayProcess w0) = false -> on_quit w0 = (tt, w0)).
Proof.
  intros Hlive. cbv zeta.
  assert (E : exec on_quit w = set_trace (trace w ++ [Kill child]) w).
  { unfold on_quit. run_monad. rewrite Hlive. reflexivity. }
  rewrite E.
  split; [reflexivity|]. split; [exact Hlive|].
  split; [reflexivity|]. split; [reflexivity|]. split; [|split].
  - intros w0 evs. revert w0.
    induction evs as [|e evs IH]; intros w0 Hnull Hall; [now split|].
    cbn [no_window_created] in Hall. apply andb_true_iff in Hall as [He Hall].
    apply negb_true_iff in He.
    destruct (dispatch_quiet e w0 He)
      as (_ & Hproc & _ & effs & Ht & _ & _ & _ & Hkill & _).
    rewrite Hnull in Hproc, Hkill.
    assert (Hnull1 : gatewayProcess (exec (dispatch e) w0) = Null)
      by (rewrite Hproc; now destruct (is_release e)).
    assert (Hnone : filter is_kill effs = [])
      by (rewrite Hkill; now destruct (is_quit e)).
    cbn [run]. destruct (IH _ Hnull1 Hall) as [H1 H2].
    split; [exact H1|]. rewrite H2, Ht, filter_app, Hnone. apply app_nil_r.
  - intros w0 e Hnull Hc. rewrite (dispatch_creates e w0 Hc), createWindow_exec.
    unfold spawns. cbn [gatewayProcess trace]. rewrite filter_app.
    destruct (window_effects_kinds w0) as (Hs & _). rewrite Hs, Hnull.
    split; reflexivity.
  - intros w0 Hidle. unfold on_quit. run_monad. rewrite Hidle. reflexivity.
Qed.

Lemma quit_signals_child_witness :
  let w := run [Ready] (initial sample_host no_files) in
  let w1 := exec on_quit w in
  w1 = set_trace (trace w ++ [Kill 0]) w
  /\ gatewayProcess w1 = Object 0
  /\ (forall code signal, gatewayProcess (exec (on_gateway_exit code signal) w1) = Null)
  /\ (forall err, gatewayProcess (exec (on_gateway_error err) w1) = Null)
  /\ (forall w0 evs,
        gatewayProcess w0 = Null ->
        no_window_created evs w0 = true ->
        gatewayProcess (run evs w0) = Null
        /\ filter is_kill (trace (run evs w0)) = filter is_kill (trace w0))
  /\ (forall w0 e,
        gatewayProcess w0 = Null ->
        creates_window e w0 = true ->
        gatewayProcess (exec (dispatch e) w0) = Object (children w0)
        /\ spawns (exec (dispatch e) w0)
           = spawns w0 ++ [Spawn (children w0) (gateway_call (root_dir (host w0)) (booted w0))])
  /\ (forall w0, ref_truthy (gatewayProcess w0) = false -> on_quit w0 = (tt, w0)).
Proof.
  cbv zeta.
  apply (quit_signals_child (run [Ready] (initial sample_host no_files)) 0).
  vm_compute. reflexivity.
Defined.

(** A session in which the handle is cleared and stays so, and the
    next start: the child exits, the window is closed, [activate] on
    the closed window starts child 1. *)
Example handle_cleared_until_next_start :
  let w := run [Ready] (initial sample_host no_files) in
  let quiet := [GatewayExit (Some 1) None; DidFailLoad (-102) (str "ERR_CONNECTION_REFUSED")
                  (controlUiUrl w); RetryTimer; Activate; Closed; WindowAllClosed; Quit] in
  gatewayProcess w = Object 0
  /\ no_window_created quiet w = true
  /\ gatewayProcess (run quiet w) = Null
  /\ filter is_kill (trace (run quiet w)) = []
  /\ creates_window Activate (run quiet w) = true
  /\ gatewayProcess (run (quiet ++ [Activate]) w) = Object 1.
Proof. vm_compute. repeat split. Qed.

(** C9 as it is stated fails: after the [quit] listener has run with a
    child held, the handle is not released; it still refers to the
    child, and a second [quit] signals the child again. *)
Lemma quit_releases_handle_counterexample :
  let w := run [Ready] (initial sample_host no_files) in
  let w1 := exec on_quit w in
  gatewayProcess w = Object 0
  /\ trace w1 = trace w ++ [Kill 0]
  /\ gatewayProcess w1 = Object 0
  /\ gatewayProcess w1 <> Null
  /\ ref_truthy (gatewayProcess w1) = true
  /\ trace (exec on_quit w1) = trace w ++ [Kill 0; Kill 0].
Proof.
  vm_compute. repeat split. discriminate.
Qed.

(** C10.  After any sequence of events from the start of the shell,
    whatever files the state directory holds, the port is 18789, and
    every config file written, every child spawned and every URL loaded
    so far names the port 18789; so does the next cycle: the file it
    writes, which reads back with port 18789, and the URL it builds. *)
Theorem port_is_18789
    (h : Host) (fs : jsstring -> option jsstring) (evs : list event) :
  let w := run evs (initial h fs) in
  let w1 := exec createWindow w in
  gatewayPort w = 18789
  /\ Forall (carries_port 18789) (trace w)
  /\ gatewayPort w1 = 18789
  /\ Forall (carries_port 18789) (trace w1)
  /\ files w1 (config_path w1) = Some (config_file_text (gatewayToken w1))
  /\ JSON_parse (config_file_text (gatewayToken w1))
       = Some (minimal_config (gatewayToken w1) 18789)
  /\ controlUiUrl w1 =
       str "http://127.0.0.1:18789/?token=" ++ form_urlencode (gatewayToken w1)
  /\ (ref_truthy (gatewayProcess w) = false ->
      exists entry,
        last (spawns w1) AppQuit =
          Spawn (children w) (gateway_call (root_dir (host w)) (booted w))
        /\ sp_args (gateway_call (root_dir (host w)) (booted w)) =
             [entry; str "gateway"; str "--allow-unconfigured"; str "--auth";
              str "token"; str "--token"; gatewayToken w1; str "--port";
              str "18789"; str "--bind"; str "loopback"]).
Proof.
  cbv zeta.
  pose proof (invariant_reachable h fs evs) as Hinv.
  pose proof (invariant_createWindow _ Hinv) as Hinv1.
  set (w := run evs (initial h fs)) in *.
  pose proof (inv_port w Hinv) as Hp.
  split; [exact Hp|]. split; [exact (inv_effects w Hinv)|].
  split; [exact (inv_port _ Hinv1)|]. split; [exact (inv_effects _ Hinv1)|].
  pose proof (createWindow_exec w) as E. cbv zeta in E.
  split.
  { now apply createWindow_file. }
  split; [apply parse_config_file_text|].
  split.
  { rewrite E. cbn [controlUiUrl gatewayToken]. now rewrite Hp. }
  intros Hidle. rewrite Hidle in E.
  exists (path_join (root_dir (host w)) (str "openclaw.mjs")).
  split.
  - unfold spawns. rewrite E. cbn [trace].
    rewrite filter_app, (proj1 (window_effects_kinds w)), Hidle. apply last_last.
  - rewrite E. unfold gateway_call, booted.
    cbn [sp_args gatewayToken gatewayPort]. rewrite Hp. reflexivity.
Qed.

Lemma port_is_18789_witness :
  let w := initial sample_host (with_config padded_config) in
  let w1 := exec createWindow w in
  exists entry,
    last (spawns w1) AppQuit =
      Spawn (children w) (gateway_call (root_dir (host w)) (booted w))
    /\ sp_args (gateway_call (root_dir (host w)) (booted w)) =
         [entry; str "gateway"; str "--allow-unconfigured"; str "--auth";
          str "token"; str "--token"; gatewayToken w1; str "--port";
          str "18789"; str "--bind"; str "loopback"].
Proof.
  cbv zeta.
  apply (port_is_18789 sample_host (with_config padded_config) []).
  reflexivity.
Defined.

(** A file that records port 9999 is rewritten with port 18789. *)
Example recorded_port_is_ignored :
  let w1 := run [Ready] (initial sample_host (with_config padded_config)) in
  gatewayPort w1 = 18789
  /\ files w1 sample_config_path = Some (config_file_text (str "abc"))
  /\ controlUiUrl w1 = str "http://127.0.0.1:18789/?token=abc".
Proof. vm_compute. repeat split. Qed.

(* ================================================================== *)
(** ** Further properties of main.cjs *)

(** *** The bootstrap on documents without a usable token *)

(** X1.  Lines 67-74 never throw: for every JSON value, whatever
    shape it has and whatever truthiness its numbers have, the
    expression yields a string.  When [gateway.auth.token] is a string
    the result is that string trimmed, and [""] in every other case: so
    for the document [{"gateway": {"auth": {"token": t}}}] it is [t]
    trimmed. *)
Theorem token_expression_never_throws
    (number_truthy : jsstring -> bool) (parsed : json) :
  token_of_parsed_with number_truthy parsed = token_of_parsed parsed
  /\ (exists s, token_of_parsed parsed = Ok s)
  /\ (forall t, token_property parsed = Ok (Val (JStr t)) ->
               token_of_parsed parsed = Ok (trim t))
  /\ ((forall t, token_property parsed <> Ok (Val (JStr t))) ->
      token_of_parsed parsed = Ok [])
  /\ (forall t,
        token_of_parsed_with number_truthy
          (JObj [(str "gateway", JObj [(str "auth", JObj [(str "token", JStr t)])])])
        = Ok (trim t)).
Proof.
  rewrite token_of_parsed_with_spec, token_of_parsed_spec.
  split; [reflexivity|]. split; [eexists; reflexivity|]. split; [|split].
  - intros t ->. reflexivity.
  - intros Hnone.
    destruct (token_property parsed) as [[|[ | | |t| | ]]|]; try reflexivity.
    now contradiction (Hnone t).
  - intros t. now rewrite token_of_parsed_with_spec.
Qed.

(** Documents of every shape that hold no usable token: each parses,
    and each gives [""]. *)
Example tokenless_documents_give_nothing :
  forallb (fun raw =>
             match JSON_parse raw with
             | Some parsed =>
                 match token_of_parsed parsed with
                 | Ok [] => true
                 | _ => false
                 end
             | None => false
             end) tokenless_documents = true.
Proof. vm_compute. reflexivity. Qed.

(** X2.  When the config file is valid JSON but holds no token that is
    a string with something left after trimming, the bootstrap logs no
    warning: it makes the directory, generates a token from 24 fresh
    bytes, writes the file and logs that it did. *)
Theorem tokenless_config_regenerates_silently
    (w : World) (raw : jsstring) (parsed : json) :
  files w (config_path w) = Some raw ->
  JSON_parse raw = Some parsed ->
  (forall t, token_property parsed = Ok (Val (JStr t)) -> trim t = []) ->
  let w1 := exec ensureGatewayConfig w in
  stored_token w = Ok []
  /\ gatewayToken w1 = toString_hex (next_bytes 24 w)
  /\ drawn w1 = (drawn w + 24)%nat
  /\ trace w1 =
       trace w
         ++ [Mkdir (userData (host w));
             WriteFile (config_path w)
               (JSON_stringify2
                  (minimal_config (toString_hex (next_bytes 24 w)) (gatewayPort w))
                  ++ [10]);
             Log (str "info") (str "Wrote gateway config: " ++ config_path w)]
  /\ filter (fun e => match e with
                      | Log level _ => str_eqb level (str "warn")
                      | _ => false
                      end) (trace w1)
     = filter (fun e => match e with
                        | Log level _ => str_eqb level (str "warn")
                        | _ => false
                        end) (trace w).
Proof.
  intros Hf Hparse Hnone. cbv zeta.
  assert (Hs : stored_token w = Ok []).
  { unfold stored_token. rewrite Hf, Hparse, token_of_parsed_spec.
    destruct (token_property parsed) as [[|[ | | |t| | ]]|]; try reflexivity.
    now rewrite (Hnone t eq_refl). }
  assert (He : existing_token w = []) by (unfold existing_token; now rewrite Hs).
  assert (Hr : resolved_token w = toString_hex (next_bytes 24 w))
    by (unfold resolved_token; now rewrite He).
  split; [exact Hs|].
  split; [now rewrite ensureGatewayConfig_token|].
  split; [now rewrite ensureGatewayConfig_drawn, He|].
  rewrite ensureGatewayConfig_exec. cbn [trace].
  unfold bootstrap_effects, parse_warning, written_config. rewrite Hs, Hr. cbn [app].
  split; [reflexivity|].
  rewrite filter_app. cbn. apply app_nil_r.
Qed.

Lemma tokenless_config_regenerates_silently_witness :
  let w := initial sample_host (with_config blank_token_config) in
  let w1 := exec ensureGatewayConfig w in
  stored_token w = Ok []
  /\ gatewayToken w1 = toString_hex (next_bytes 24 w)
  /\ drawn w1 = (drawn w + 24)%nat
  /\ trace w1 =
       trace w
         ++ [Mkdir (userData (host w));
             WriteFile (config_path w)
               (JSON_stringify2
                  (minimal_config (toString_hex (next_bytes 24 w)) (gatewayPort w))
                  ++ [10]);
             Log (str "info") (str "Wrote gateway config: " ++ config_path w)]
  /\ filter (fun e => match e with
                      | Log level _ => str_eqb level (str "warn")
                      | _ => false
                      end) (trace w1)
     = filter (fun e => match e with
                        | Log level _ => str_eqb level (str "warn")
                        | _ => false
                        end) (trace w).
Proof.
  cbv zeta.
  apply (tokenless_config_regenerates_silently
           (initial sample_host (with_config blank_token_config)) blank_token_config
           (JObj [(str "gateway", JObj
              [(str "auth", JObj [(str "mode", JStr (str "token"));
                                  (str "token", JStr (str "   "))])])])).
  - vm_compute. reflexivity.
  - vm_compute. reflexivity.
  - intros t H. vm_compute in H. inversion H. vm_compute. reflexivity.
Defined.

(** *** The config file for any token *)

(** X3.  Whatever the token is made of (quotes, backslashes, control
    characters, lone surrogates), the text line 83 writes for it with
    the port 18789 is JSON, and parses back to the object
    [buildMinimalGatewayConfig] built: in particular its
    [gateway.auth.token] is the token, character for character. *)
Theorem written_config_reads_back (w : World) (token : jsstring) :
  gatewayPort w = 18789 ->
  let config := fst (buildMinimalGatewayConfig token w) in
  JSON_parse (JSON_stringify2 config ++ [10]) = Some config
  /\ token_property config = Ok (Val (JStr token))
  /\ and_then (get_prop (Val config) (str "gateway"))
       (fun gateway => get_prop gateway (str "port"))
     = Ok (Val (JNum (str "18789"))).
Proof.
  intros Hp. cbv zeta.
  assert (E : fst (buildMinimalGatewayConfig token w) = minimal_config token 18789)
    by (unfold buildMinimalGatewayConfig; run_monad; now rewrite Hp).
  rewrite E, serialize_minimal_config, parse_config_file_text.
  repeat split.
Qed.

Lemma written_config_reads_back_witness :
  let w := initial sample_host no_files in
  let token := [34; 92; 10; 55296; 32; 233; 56320; 55357; 56832; 0] in
  let config := fst (buildMinimalGatewayConfig token w) in
  JSON_parse (JSON_stringify2 config ++ [10]) = Some config
  /\ token_property config = Ok (Val (JStr token))
  /\ and_then (get_prop (Val config) (str "gateway"))
       (fun gateway => get_prop gateway (str "port"))
     = Ok (Val (JNum (str "18789"))).
Proof.
  cbv zeta. apply (written_config_reads_back (initial sample_host no_files)).
  reflexivity.
Defined.

(** *** The child's environment *)

(** X4.  Whatever the shell's own environment holds, the child gets
    the eight variables of lines 115-122 with the supervisor's values
    (the token is the one passed after [--token]), and every other
    variable as the shell has it. *)
Theorem child_environment (rootDir : jsstring) (w : World) :
  let env := sp_env (gateway_call rootDir w) in
  env_lookup (str "ELECTRON_RUN_AS_NODE") env = Some (str "1")
  /\ env_lookup (str "OPENCLAW_NO_RESPAWN") env = Some (str "1")
  /\ env_lookup (str "OPENCLAW_SKIP_CHANNELS") env = Some (str "1")
  /\ env_lookup (str "OPENCLAW_SKIP_RUNTIME_GUARD") env = Some (str "1")
  /\ env_lookup (str "OPENCLAW_STATE_DIR") env = Some (gatewayStateDir w)
  /\ env_lookup (str "OPENCLAW_CONFIG_PATH") env = Some (gatewayConfigPath w)
  /\ env_lookup (str "OPENCLAW_GATEWAY_TOKEN") env = Some (gatewayToken w)
  /\ env_lookup (str "OPENCLAW_GATEWAY_TOKEN") env
     = nth_error (sp_args (gateway_call rootDir w)) 6
  /\ env_lookup (str "NODE_ENV") env = Some (str "production")
  /\ (forall name,
        forallb (fun k => negb (str_eqb k name)) gateway_variables = true ->
        env_lookup name env = env_lookup name (process_env (host w))).
Proof.
  cbv zeta. unfold gateway_call, gateway_env. cbn [sp_env sp_args gateway_args nth_error].
  repeat (split;
          [ repeat first [ apply env_lookup_set_same
                         | rewrite env_lookup_set_other by reflexivity ] |]).
  intros name H. unfold gateway_variables in H. cbn [forallb] in H.
  repeat (apply andb_true_iff in H as [?H H]).
  repeat match goal with
         | Hk : negb (str_eqb _ name) = true |- _ => apply negb_true_iff in Hk
         end.
  repeat (rewrite env_lookup_set_other by assumption). reflexivity.
Qed.

Lemma child_environment_witness :
  let w := run [Ready] (initial sample_host no_files) in
  let env := sp_env (gateway_call (str "C:\app\resources") w) in
  env_lookup (str "PATH") env = Some (str "C:\Windows")
  /\ env_lookup (str "NODE_ENV") env = Some (str "production").
Proof.
  cbv zeta.
  pose proof (child_environment (str "C:\app\resources")
                (run [Ready] (initial sample_host no_files))) as H.
  cbv zeta in H.
  destruct H as (_ & _ & _ & _ & _ & _ & _ & _ & Hnode & Hother).
  split; [|exact Hnode].
  rewrite (Hother (str "PATH")); reflexivity.
Defined.

(** *** The token over a session *)

Lemma createWindow_settles (w : World) :
  gatewayPort w = 18789 -> settled (exec createWindow w).
Proof.
  intros Hp. pose proof (createWindow_exec w) as E. cbv zeta in E.
  destruct (resolved_token_trimmed w) as [Htrim Hne].
  constructor; [| now apply createWindow_file | ..]; rewrite E.
  - exact Hp.
  - exact Htrim.
  - exact Hne.
  - cbn [controlUiUrl gatewayToken]. now rewrite Hp.
Qed.

Lemma settled_resolved (w : World) :
  settled w ->
  existing_token w = gatewayToken w /\ resolved_token w = gatewayToken w
  /\ written_config w = config_file_text (gatewayToken w).
Proof.
  intros [Hp Hf Htrim Hne _].
  assert (He : existing_token w = gatewayToken w).
  { unfold existing_token, stored_token.
    now rewrite Hf, parse_config_file_text, token_of_minimal_config, Htrim. }
  assert (Hr : resolved_token w = gatewayToken w)
    by (unfold resolved_token; now rewrite He, Hne).
  split; [exact He|]. split; [exact Hr|].
  unfold written_config. now rewrite Hr, Hp, serialize_minimal_config.
Qed.

(** Effects without a [WriteFile] write no file as a whole. *)
Lemma no_write_keeps_log (h : Host) (effs : list effect) :
  filter is_write effs = [] ->
  Forall (fun e => match e with WriteFile q _ => q <> log_path h | _ => True end) effs.
Proof.
  intros Hnone. apply Forall_forall. intros x Hx. destruct x; try exact I.
  assert (Hin : In (WriteFile path content) (filter is_write effs))
    by (apply filter_In; now split).
  rewrite Hnone in Hin. contradiction.
Qed.

(** Once a bootstrap has run, no listener changes the host, the token,
    the URL, the number of random bytes drawn or the contents of any
    file but the log, which it may add lines to. *)
Lemma settled_dispatch (e : event) (w : World) :
  settled w ->
  let w' := exec (dispatch e) w in
  settled w' /\ host w' = host w /\ gatewayToken w' = gatewayToken w
  /\ drawn w' = drawn w /\ controlUiUrl w' = controlUiUrl w
  /\ (forall p, p <> log_path (host w) -> files w' p = files w p)
  /\ extends (files w (log_path (host w))) (files w' (log_path (host w))).
Proof.
  intros Hs. cbv zeta.
  destruct (creates_window e w) eqn:Hc.
  - rewrite (dispatch_creates e w Hc).
    destruct (settled_resolved w Hs) as (He & Hr & Hw).
    pose proof (createWindow_settles w (settled_port w Hs)) as Hs'.
    pose proof (createWindow_exec w) as E. cbv zeta in E.
    split; [exact Hs'|]. rewrite E. cbn [host gatewayToken drawn controlUiUrl files].
    rewrite Hr, He, (settled_truthy w Hs), (settled_port w Hs).
    split; [reflexivity|]. split; [reflexivity|]. split; [reflexivity|].
    split; [symmetry; apply (settled_url w Hs)|]. split.
    + intros p Hp. destruct (str_eqb p (config_path w)) eqn:Ep.
      * apply str_eqb_eq in Ep. subst p.
        rewrite window_effects_written, Hw. symmetry. apply (settled_file w Hs).
      * apply window_effects_other; [|exact Hp].
        intros E'. now rewrite E', str_eqb_refl in Ep.
    + apply window_effects_extends.
  - destruct (dispatch_quiet e w Hc)
      as ((Hh & Hf & Ht & Hd & Hp & _ & _ & Hu) & _ & _ & effs & _ & _ & Hnw & _ & _ & Hfiles & _).
    destruct Hs as [Sp Sf St Sn Su].
    split.
    + constructor.
      * now rewrite Hp.
      * unfold config_path. rewrite Hh, Ht. fold (config_path w).
        rewrite Hf by apply log_path_config_path. exact Sf.
      * now rewrite Ht.
      * now rewrite Ht.
      * now rewrite Hu, Ht.
    + split; [exact Hh|]. split; [exact Ht|]. split; [exact Hd|]. split; [exact Hu|].
      split; [exact Hf|].
      rewrite Hfiles. apply files_after_extends. now apply no_write_keeps_log.
Qed.

(** X5.  After the first [ready], whatever events follow (windows
    closed and reopened, children exiting and restarted, failed loads),
    the token never changes, no further random bytes are drawn, the URL
    stays the same, the config file holds that token throughout, and no
    file changes its contents but the log, which is only added to. *)
Theorem token_is_stable_over_session
    (h : Host) (fs : jsstring -> option jsstring) (evs : list event) :
  let started := run [Ready] (initial h fs) in
  let w := run evs started in
  gatewayToken w = gatewayToken started
  /\ drawn w = drawn started
  /\ controlUiUrl w = controlUiUrl started
  /\ (forall p, p <> path_join (userData h) (str "tixbot.log") ->
                files w p = files started p)
  /\ files w (path_join (userData h) (str "openclaw.json"))
     = Some (config_file_text (gatewayToken started))
  /\ (exists before added,
        files started (path_join (userData h) (str "tixbot.log")) = Some before
        /\ files w (path_join (userData h) (str "tixbot.log")) = Some (before ++ added)).
Proof.
  cbv zeta.
  assert (Hstart : settled (run [Ready] (initial h fs)))
    by (apply createWindow_settles; reflexivity).
  assert (G : forall evs w0, settled w0 ->
              settled (run evs w0) /\ host (run evs w0) = host w0
              /\ gatewayToken (run evs w0) = gatewayToken w0
              /\ drawn (run evs w0) = drawn w0
              /\ controlUiUrl (run evs w0) = controlUiUrl w0
              /\ (forall p, p <> log_path (host w0) -> files (run evs w0) p = files w0 p)
              /\ extends (files w0 (log_path (host w0)))
                   (files (run evs w0) (log_path (host w0)))).
  { clear. induction evs as [|e evs IH]; intros w0 Hs.
    - cbn [run]. split; [exact Hs|]. repeat split. apply extends_refl.
    - cbn [run].
      destruct (settled_dispatch e w0 Hs) as (Hs1 & Hh1 & Ht1 & Hd1 & Hu1 & Hf1 & Hl1).
      destruct (IH _ Hs1) as (Hs2 & Hh2 & Ht2 & Hd2 & Hu2 & Hf2 & Hl2).
      rewrite Hh1 in Hf2, Hl2.
      split; [exact Hs2|]. split; [congruence|]. split; [congruence|].
      split; [congruence|]. split; [congruence|]. split.
      + intros p Hp. now rewrite Hf2, Hf1.
      + eapply extends_trans; [exact Hl1 | exact Hl2]. }
  destruct (G evs _ Hstart) as (Hs & Hh & Ht & Hd & Hu & Hf & Hl).
  assert (Hhost : host (run [Ready] (initial h fs)) = h)
    by (cbn [run dispatch]; now rewrite createWindow_host).
  rewrite Hhost in Hf, Hl. unfold log_path in Hf, Hl.
  split; [exact Ht|]. split; [exact Hd|]. split; [exact Hu|]. split; [exact Hf|].
  split.
  { pose proof (settled_file _ Hs) as Hfile. unfold config_path in Hfile.
    rewrite Hh, Hhost, Ht in Hfile. exact Hfile. }
  assert (Hopened : exists before,
            files (run [Ready] (initial h fs)) (path_join (userData h) (str "tixbot.log"))
            = Some before).
  { cbn [run dispatch]. rewrite createWindow_exec. cbn [files].
    apply (window_effects_open_log (initial h fs)). }
  destruct Hopened as [before Hb]. exists before.
  destruct (Hl before Hb) as [added Ha]. exists added. split; [exact Hb | exact Ha].
Qed.

(** *** Children, signals, windows and files over a session *)

(** What one [createWindow] adds to the state, kind by kind. *)
Lemma createWindow_effects (w : World) :
  let w' := exec createWindow w in
  let live := ref_truthy (gatewayProcess w) in
  spawns w' =
    spawns w ++ (if live then []
                 else [Spawn (children w) (gateway_call (root_dir (host w)) (booted w))])
  /\ filter is_kill (trace w') = filter is_kill (trace w)
  /\ retries_scheduled w' = retries_scheduled w
  /\ filter is_write (trace w') =
       filter is_write (trace w) ++ [WriteFile (config_path w) (written_config w)]
  /\ filter is_load (trace w') =
       filter is_load (trace w)
         ++ [LoadURL (windows w) (control_url (gatewayPort w) (resolved_token w))]
  /\ gatewayProcess w' = (if live then gatewayProcess w else Object (children w))
  /\ children w' = (if live then children w else S (children w))
  /\ uiRetries w' = uiRetries w
  /\ mainWindow w' = Object (windows w)
  /\ host w' = host w.
Proof.
  cbv zeta. rewrite createWindow_exec. unfold spawns, retries_scheduled.
  cbn [trace gatewayProcess children uiRetries mainWindow host].
  rewrite !filter_app.
  destruct (window_effects_kinds w) as (Hs & Hk & Hw & Hl).
  rewrite Hs, Hk, Hw, Hl, window_effects_timeouts, !app_nil_r.
  repeat split.
Qed.

(** X6.  Over any sequence of events from the start of the shell, the
    number of children spawned is at most one more than the number of
    [exit] and [error] events delivered, and at most that number while
    no child is held: a further child is spawned only after a listener
    cleared the handle.  The children are numbered as they are spawned. *)
Theorem spawns_bounded_by_releases
    (h : Host) (fs : jsstring -> option jsstring) (evs : list event) :
  let w := run evs (initial h fs) in
  (List.length (spawns w)
     + (if ref_truthy (gatewayProcess w) then 0 else 1)
   <= List.length (filter is_release evs) + 1)%nat
  /\ List.length (spawns w) = children w.
Proof.
  cbv zeta.
  assert (G : forall evs w0 n,
              (List.length (spawns w0)
                 + (if ref_truthy (gatewayProcess w0) then 0 else 1) <= n + 1)%nat ->
              List.length (spawns w0) = children w0 ->
              (List.length (spawns (run evs w0))
                 + (if ref_truthy (gatewayProcess (run evs w0)) then 0 else 1)
               <= n + List.length (filter is_release evs) + 1)%nat
              /\ List.length (spawns (run evs w0)) = children (run evs w0)).
  { clear. induction evs as [|e evs IH]; intros w0 n Hb Hc.
    - cbn [run filter List.length]. split; [lia | exact Hc].
    - cbn [run].
      destruct (creates_window e w0) eqn:Hcw.
      + rewrite (dispatch_creates e w0 Hcw).
        destruct (createWindow_effects w0) as (Hs & _ & _ & _ & _ & Hp & Hch & _).
        cbv zeta in Hs, Hp, Hch.
        assert (Hrel : is_release e = false) by (destruct e; try discriminate; reflexivity).
        cbn [filter]. rewrite Hrel.
        apply IH.
        * rewrite Hs, Hp, length_app.
          destruct (ref_truthy (gatewayProcess w0)) eqn:Hl.
          -- rewrite Hl. cbn [List.length]. lia.
          -- cbn [ref_truthy List.length]. lia.
        * rewrite Hs, Hch, length_app.
          destruct (ref_truthy (gatewayProcess w0)); cbn [List.length]; lia.
      + destruct (dispatch_quiet e w0 Hcw)
          as ((_ & _ & _ & _ & _ & Hch & _) & Hp & _ & effs & Ht & Hsp & _).
        assert (Hs : spawns (exec (dispatch e) w0) = spawns w0).
        { unfold spawns. rewrite Ht, filter_app, Hsp. apply app_nil_r. }
        cbn [filter]. destruct (is_release e) eqn:Hrel.
        * cbn [List.length].
          destruct (IH (exec (dispatch e) w0) (S n)) as [H1 H2].
          -- rewrite Hs, Hp. cbn [ref_truthy].
             destruct (ref_truthy (gatewayProcess w0)); lia.
          -- now rewrite Hs, Hch.
          -- split; [lia | exact H2].
        * apply IH.
          -- now rewrite Hs, Hp.
          -- now rewrite Hs, Hch. }
  destruct (G evs (initial h fs) 0%nat) as [H1 H2].
  - cbn. lia.
  - reflexivity.
  - split; [exact H1 | exact H2].
Qed.

(** X7.  Over any sequence of events from the start of the shell, the
    supervisor sends at most one termination signal for each [quit]
    event and none otherwise, and only ever to a child it spawned. *)
Theorem signals_only_at_quit
    (h : Host) (fs : jsstring -> option jsstring) (evs : list event) :
  let w := run evs (initial h fs) in
  (List.length (filter is_kill (trace w)) <= List.length (filter is_quit evs))%nat
  /\ kills_known w.
Proof.
  cbv zeta.
  assert (G : forall evs w0,
              kills_known w0 ->
              (List.length (filter is_kill (trace (run evs w0)))
               <= List.length (filter is_kill (trace w0))
                  + List.length (filter is_quit evs))%nat
              /\ kills_known (run evs w0)).
  { clear. induction evs as [|e evs IH]; intros w0 [Hk Hp].
    - cbn [run filter List.length]. split; [lia | now split].
    - cbn [run].
      destruct (creates_window e w0) eqn:Hcw.
      + rewrite (dispatch_creates e w0 Hcw).
        destruct (createWindow_effects w0) as (_ & Hkill & _ & _ & _ & Hproc & Hch & _).
        cbv zeta in Hkill, Hproc, Hch.
        assert (Hq : is_quit e = false) by (destruct e; try discriminate; reflexivity).
        cbn [filter]. rewrite Hq.
        assert (Hmono : (children w0 <= children (exec createWindow w0))%nat)
          by (rewrite Hch; destruct (ref_truthy (gatewayProcess w0)); lia).
        destruct (IH (exec createWindow w0)) as [H1 H2].
        * split.
          -- revert Hmono. generalize (children (exec createWindow w0)) as k.
             intros k Hmono. rewrite createWindow_exec. cbn [trace].
             apply Forall_app. split.
             ++ eapply Forall_impl; [|exact Hk].
                intros [ ] Ha; try exact I. cbn in *. lia.
             ++ unfold window_effects, bootstrap_effects. cbv zeta.
                repeat (apply Forall_app; split); unfold parse_warning, start_effects;
                  try destruct (stored_token w0);
                  try destruct (ref_truthy (gatewayProcess w0));
                  repeat constructor.
          -- rewrite Hproc, Hch.
             destruct (ref_truthy (gatewayProcess w0)) eqn:Hl; [|lia].
             destruct (gatewayProcess w0); try exact I. exact Hp.
        * rewrite Hkill in H1. split; [exact H1 | exact H2].
      + destruct (dispatch_quiet e w0 Hcw)
          as ((_ & _ & _ & _ & _ & Hch & _) & Hproc & _
              & effs & Ht & _ & _ & _ & Hkill & _).
        destruct (IH (exec (dispatch e) w0)) as [H1 H2].
        * split.
          -- rewrite Ht, Hch. apply Forall_app. split; [exact Hk|].
             assert (Hin : forall x, In x effs -> is_kill x = true -> In x (filter is_kill effs))
               by (intros x Hx Hkx; apply filter_In; now split).
             apply Forall_forall. intros x Hx.
             destruct x; try exact I.
             specialize (Hin _ Hx eq_refl). rewrite Hkill in Hin.
             destruct (is_quit e); [|contradiction].
             destruct (gatewayProcess w0) as [| |c]; try contradiction.
             destruct Hin as [Heq|[]]. inversion Heq; subst. exact Hp.
          -- rewrite Hproc, Hch. destruct (is_release e); [exact I | exact Hp].
        * split; [|exact H2].
          rewrite Ht, filter_app, length_app, Hkill in H1.
          cbn [filter]. destruct (is_quit e); cbn [List.length] in *.
          -- destruct (gatewayProcess w0); cbn [List.length] in H1; lia.
          -- lia. }
  destruct (G evs (initial h fs)) as [H1 H2].
  - split; [constructor | exact I].
  - split; [exact H1 | exact H2].
Qed.

(** X8.  The retry counter is never reset: once 20 retries have been
    spent, no event whatever (a new window, a restarted child, further
    failures on the control-UI URL) sets another timer, and the counter
    stays at 20. *)
Theorem retry_budget_is_never_restored (w : World) (evs : list event) :
  uiRetries w = 20 ->
  uiRetries (run evs w) = 20
  /\ retries_scheduled (run evs w) = retries_scheduled w.
Proof.
  revert w. induction evs as [|e evs IH]; intros w H20; [now split|].
  cbn [run].
  assert (Hstep : uiRetries (exec (dispatch e) w) = 20
                  /\ retries_scheduled (exec (dispatch e) w) = retries_scheduled w).
  { destruct (creates_window e w) eqn:Hcw.
    - rewrite (dispatch_creates e w Hcw).
      destruct (createWindow_effects w) as (_ & _ & Hr & _ & _ & _ & _ & Hu & _).
      cbv zeta in Hr, Hu. split; [now rewrite Hu | exact Hr].
    - destruct (is_load_failure e) eqn:Hfail.
      + destruct e; try discriminate. cbn [dispatch].
        destruct (retries_after_no_retry errorCode errorDescription validatedURL w)
          as [Hr Hu]; [right; lia|].
        split; [now rewrite Hu | exact Hr].
      + destruct (dispatch_quiet e w Hcw) as (_ & _ & Hu & effs & Ht & _ & _ & Hto & _).
        split; [now rewrite (Hu Hfail)|].
        unfold retries_scheduled. rewrite Ht, filter_app, (Hto Hfail). apply app_nil_r. }
  destruct Hstep as [Hu Hr].
  destruct (IH _ Hu) as [IHu IHr].
  split; [exact IHu | now rewrite IHr].
Qed.

Lemma retry_budget_is_never_restored_witness :
  let started := run [Ready] (initial sample_host no_files) in
  let url := controlUiUrl started in
  let failure := DidFailLoad (-102) (str "ERR_CONNECTION_REFUSED") url in
  let spent := run (repeat failure 20) started in
  let later := [Closed; GatewayExit (Some 1) None; Activate; failure; failure] in
  uiRetries (run later spent) = 20
  /\ retries_scheduled (run later spent) = retries_scheduled spent.
Proof.
  cbv zeta. apply retry_budget_is_never_restored. vm_compute. reflexivity.
Defined.

(** X9.  Once the window has been closed, nothing is loaded until a
    listener creates a new window: retry timers that fire in between,
    however many, load nothing. *)
Theorem nothing_loads_after_close (w : World) (evs : list event) :
  forallb (fun e => negb (may_create_window e)) evs = true ->
  let w' := run (Closed :: evs) w in
  filter is_load (trace w') = filter is_load (trace w)
  /\ mainWindow w' = Null.
Proof.
  intros Hall. cbv zeta. cbn [run dispatch].
  assert (G : forall evs w0,
              forallb (fun e => negb (may_create_window e)) evs = true ->
              mainWindow w0 = Null ->
              filter is_load (trace (run evs w0)) = filter is_load (trace w0)
              /\ mainWindow (run evs w0) = Null).
  { clear. induction evs as [|e evs IH]; intros w0 Hall Hnull; [now split|].
    cbn [forallb] in Hall. apply andb_true_iff in Hall as [He Hall].
    cbn [run].
    assert (Hstep : filter is_load (trace (exec (dispatch e) w0))
                    = filter is_load (trace w0)
                    /\ mainWindow (exec (dispatch e) w0) = Null).
    { destruct e; try discriminate; cbn [dispatch].
      - unfold on_window_all_closed. run_monad.
        destruct (negb (str_eqb _ _)); run_monad; [|now split].
        rewrite filter_app. cbn. rewrite app_nil_r. now split.
      - unfold on_quit. run_monad.
        destruct (gatewayProcess w0); run_monad; try now split.
        rewrite filter_app. cbn. rewrite app_nil_r. now split.
      - unfold on_did_fail_load. run_monad.
        destruct (_ && _ && _); run_monad;
          rewrite ?filter_app; cbn [filter is_load]; rewrite ?app_nil_r; now split.
      - unfold call, retry_load. run_monad. rewrite Hnull. run_monad. now split.
      - unfold on_closed. run_monad. now split.
      - unfold on_gateway_stdout. run_monad.
        rewrite filter_app. cbn. rewrite app_nil_r. now split.
      - unfold on_gateway_stderr. run_monad.
        rewrite filter_app. cbn. rewrite app_nil_r. now split.
      - unfold on_gateway_exit. run_monad.
        rewrite filter_app. cbn. rewrite app_nil_r. now split.
      - unfold on_gateway_error. run_monad.
        rewrite filter_app. cbn. rewrite app_nil_r. now split. }
    destruct Hstep as [Hl Hn].
    destruct (IH _ Hall Hn) as [IHl IHn].
    split; [now rewrite IHl | exact IHn]. }
  apply (G evs (exec on_closed w) Hall). reflexivity.
Qed.

Lemma nothing_loads_after_close_witness :
  let started := run [Ready] (initial sample_host no_files) in
  let failure :=
    DidFailLoad (-102) (str "ERR_CONNECTION_REFUSED") (controlUiUrl started) in
  let w := run [failure; failure] started in
  let w' := run [Closed; RetryTimer; RetryTimer; Quit] w in
  filter is_load (trace w') = filter is_load (trace w)
  /\ mainWindow w' = Null.
Proof.
  cbv zeta.
  apply (nothing_loads_after_close
           (run [DidFailLoad (-102) (str "ERR_CONNECTION_REFUSED")
                   (controlUiUrl (run [Ready] (initial sample_host no_files)));
                 DidFailLoad (-102) (str "ERR_CONNECTION_REFUSED")
                   (controlUiUrl (run [Ready] (initial sample_host no_files)))]
              (run [Ready] (initial sample_host no_files)))
           [RetryTimer; RetryTimer; Quit]).
  reflexivity.
Defined.

(** X10.  Over any sequence of events from the start of the shell,
    the only files the shell writes are the config file and the log:
    every [writeFileSync] in the trace is to [<userData>\openclaw.json]
    and every stream is opened on [<userData>\tixbot.log], which are two
    files; every other path reads as it did at the start; the log keeps
    what it held and is only added to; and the files are those the
    effects of the trace give, one line in the log for each [Log]. *)
Theorem only_config_and_log_are_written
    (h : Host) (fs : jsstring -> option jsstring) (evs : list event) :
  let w := run evs (initial h fs) in
  let config := path_join (userData h) (str "openclaw.json") in
  let log := path_join (userData h) (str "tixbot.log") in
  config <> log
  /\ Forall (fun e => match e with
                      | WriteFile path _ => path = config
                      | CreateWriteStream path => path = log
                      | _ => True
                      end) (trace w)
  /\ (forall p, p <> config -> p <> log -> files w p = fs p)
  /\ (forall old, fs log = Some old -> exists added, files w log = Some (old ++ added))
  /\ files w = files_after h 0 (trace w) fs.
Proof.
  cbv zeta.
  split; [apply (log_path_config_path (initial h fs))|].
  assert (G : forall evs w0,
              trace_targets w0 (trace w0) ->
              logged w0 = count_logs (trace w0) ->
              files w0 = files_after (host w0) 0 (trace w0) fs ->
              let w := run evs w0 in
              host w = host w0
              /\ trace_targets w0 (trace w)
              /\ logged w = count_logs (trace w)
              /\ files w = files_after (host w0) 0 (trace w) fs
              /\ (forall p, p <> config_path w0 -> p <> log_path (host w0) ->
                            files w p = files w0 p)
              /\ extends (files w0 (log_path (host w0))) (files w (log_path (host w0)))).
  { clear. induction evs as [|e evs IH]; intros w0 Hw Hn Hf.
    - cbn [run]. repeat split; try assumption. apply extends_refl.
    - cbn [run].
      assert (Hstep : host (exec (dispatch e) w0) = host w0
                /\ trace_targets w0 (trace (exec (dispatch e) w0))
                /\ logged (exec (dispatch e) w0) = count_logs (trace (exec (dispatch e) w0))
                /\ files (exec (dispatch e) w0)
                   = files_after (host w0) 0 (trace (exec (dispatch e) w0)) fs
                /\ (forall p, p <> config_path w0 -> p <> log_path (host w0) ->
                              files (exec (dispatch e) w0) p = files w0 p)
                /\ extends (files w0 (log_path (host w0)))
                     (files (exec (dispatch e) w0) (log_path (host w0)))).
      { destruct (creates_window e w0) eqn:Hcw.
        - rewrite (dispatch_creates e w0 Hcw), createWindow_exec.
          cbn [host trace files logged].
          split; [reflexivity|]. split.
          { apply Forall_app. split; [exact Hw | apply window_effects_targets]. }
          split; [rewrite count_logs_app; lia|]. split.
          { rewrite files_after_app, Nat.add_0_r, <- Hn, <- Hf. reflexivity. }
          split; [intros p Hc Hl; now apply window_effects_other|].
          apply window_effects_extends.
        - destruct (dispatch_quiet e w0 Hcw)
            as ((Hh & Hother & _) & _ & _ & effs & Ht & _ & Hnw & _ & _ & Hfiles & Hlogged & Hno).
          split; [exact Hh|]. rewrite Ht. split.
          { apply Forall_app. split; [exact Hw|].
            apply Forall_forall. intros x Hx. destruct x; try exact I.
            - assert (Hin : In (CreateWriteStream path) (filter is_open effs))
                by (apply filter_In; now split).
              rewrite Hno in Hin. contradiction.
            - assert (Hin : In (WriteFile path content) (filter is_write effs))
                by (apply filter_In; now split).
              rewrite Hnw in Hin. contradiction. }
          split; [rewrite Hlogged, count_logs_app; lia|]. split.
          { rewrite Hfiles, files_after_app, Nat.add_0_r, <- Hn, <- Hf. reflexivity. }
          split; [intros p _ Hl; now apply Hother|].
          rewrite Hfiles. apply files_after_extends. now apply no_write_keeps_log. }
      destruct Hstep as (Hh1 & Hw1 & Hn1 & Hf1 & Ho1 & He1).
      assert (Hc1 : config_path (exec (dispatch e) w0) = config_path w0)
        by now apply config_path_host.
      specialize (IH (exec (dispatch e) w0)). cbv zeta in IH.
      unfold trace_targets in *. rewrite Hh1, Hc1 in IH.
      destruct (IH Hw1 Hn1 Hf1) as (Hh2 & Hw2 & Hn2 & Hf2 & Ho2 & He2).
      split; [congruence|]. split; [exact Hw2|]. split; [exact Hn2|].
      split; [exact Hf2|]. split.
      + intros p Hc Hl. now rewrite Ho2, Ho1.
      + eapply extends_trans; [exact He1 | exact He2]. }
  destruct (G evs (initial h fs)) as (_ & Hw & _ & Hf & Ho & He);
    [constructor | reflexivity | reflexivity |].
  split; [exact Hw|]. split; [exact Ho|]. split; [exact He | exact Hf].
Qed.

(** X11.  The child's output is forwarded chunk by chunk: a run of
    [stdout] and [stderr] chunks adds one log line for each, in the
    order received, at level [info] for [stdout] and [error] for
    [stderr], each with the chunk trimmed; the lines are at the end of
    the log file, each with the time the clock gave it, and nothing
    else changes. *)
Theorem output_is_forwarded_in_order (w : World) (chunks : list event) :
  forallb is_output chunks = true ->
  run chunks w
  = set_trace (trace w ++ flat_map output_line chunks)
      (set_logged (List.length chunks + logged w)
         (set_files
            (files_after (host w) (logged w) (flat_map output_line chunks) (files w))
            w)).
Proof.
  revert w. induction chunks as [|e chunks IH]; intros w Hall.
  - cbn [run flat_map files_after List.length Nat.add]. rewrite app_nil_r.
    destruct w; reflexivity.
  - cbn [forallb] in Hall. apply andb_true_iff in Hall as [He Hall].
    cbn [run]. rewrite (IH _ Hall).
    destruct e; try discriminate; cbn [dispatch output_line flat_map List.length];
      [unfold on_gateway_stdout | unfold on_gateway_stderr];
      run_monad; cbn [app files_after];
      rewrite <- app_assoc, Nat.add_succ_r; reflexivity.
Qed.

Lemma output_is_forwarded_in_order_witness :
  let w := run [Ready] (initial sample_host no_files) in
  let lines := [Log (str "info") (str "gateway stdout: listening on 18789");
                Log (str "error") (str "gateway stderr: warn: slow");
                Log (str "info") (str "gateway stdout: ready")] in
  run [GatewayStdout (str " listening on 18789 "); GatewayStderr (str "warn: slow");
       GatewayStdout (str "ready")] w
  = set_trace (trace w ++ lines)
      (set_logged (3 + logged w)
         (set_files (files_after sample_host (logged w) lines (files w)) w)).
Proof.
  cbv zeta.
  apply (output_is_forwarded_in_order (run [Ready] (initial sample_host no_files))
           [GatewayStdout (str " listening on 18789 "); GatewayStderr (str "warn: slow");
            GatewayStdout (str "ready")]).
  reflexivity.
Defined.

(** The same three chunks, as the log file shows them after the six
    lines of the start. *)
Example output_in_the_log_file :
  let w := run [Ready] (initial sample_host no_files) in
  let w' := run [GatewayStdout (str " listening on 18789 ");
                 GatewayStderr (str "warn: slow"); GatewayStdout (str "ready")] w in
  exists before,
    files w sample_log_path = Some before
    /\ files w' sample_log_path
       = Some (before
                 ++ str "[2026-01-01T00:00:00.006Z] [info] gateway stdout: listening on 18789"
                 ++ [10]
                 ++ str "[2026-01-01T00:00:00.007Z] [error] gateway stderr: warn: slow"
                 ++ [10]
                 ++ str "[2026-01-01T00:00:00.008Z] [info] gateway stdout: ready"
                 ++ [10]).
Proof.
  cbv zeta. eexists. split; vm_compute; reflexivity.
Qed.

(* ================================================================== *)
(** ** The bundling script *)

Section BundleFacts.

Import Bundle.

(** *** [normalize] *)

Lemma split_nonempty (separator : N) (s : jsstring) : split separator s <> [].
Proof.
  destruct s as [|c s]; cbn [split]; [discriminate|].
  destruct (c =? separator); [discriminate|].
  destruct (split separator s); discriminate.
Qed.

Lemma join_cons_nonempty (glue x : jsstring) (xs : list jsstring) :
  xs <> [] -> join glue (x :: xs) = x ++ glue ++ join glue xs.
Proof. destruct xs; [contradiction | reflexivity]. Qed.

Lemma normalize_map (pf : Platform) (p : jsstring) :
  normalize pf p = map (fun c => if c =? sep pf then 47 else c) p.
Proof.
  unfold normalize. induction p as [|c p IH]; [reflexivity|].
  cbn [split map]. destruct (c =? sep pf).
  - rewrite join_cons_nonempty by apply split_nonempty. cbn [app]. now rewrite IH.
  - pose proof (split_nonempty (sep pf) p) as Hne.
    destruct (split (sep pf) p) as [|segment segments]; [contradiction|].
    rewrite <- IH. destruct segments; reflexivity.
Qed.

(** X12.  [normalize] rewrites a path character by character: each
    separator becomes [/] and nothing else changes.  So it keeps the
    length, applying it twice is applying it once, it is the identity
    where the separator is [/], and elsewhere its result holds no
    separator. *)
Theorem normalize_replaces_separators (pf : Platform) (p : jsstring) :
  normalize pf p = map (fun c => if c =? sep pf then 47 else c) p
  /\ List.length (normalize pf p) = List.length p
  /\ normalize pf (normalize pf p) = normalize pf p
  /\ (sep pf = 47 -> normalize pf p = p)
  /\ (sep pf <> 47 -> ~ In (sep pf) (normalize pf p)).
Proof.
  split; [apply normalize_map|]. rewrite !normalize_map.
  split; [apply length_map|]. split; [|split].
  - rewrite map_map. apply map_ext. intros c.
    destruct (N.eqb_spec c (sep pf)) as [->|Hc].
    + destruct (N.eqb_spec 47 (sep pf)); reflexivity.
    + destruct (N.eqb_spec c (sep pf)); [contradiction | reflexivity].
  - intros Hsep. rewrite Hsep. rewrite <- (map_id p) at 2. apply map_ext. intros c.
    destruct (N.eqb_spec c 47); congruence.
  - intros Hsep Hin. apply in_map_iff in Hin as (c & Hc & _).
    destruct (N.eqb_spec c (sep pf)); congruence.
Qed.

Example normalize_windows_path :
  normalize {| sep := 92; win32 := true; rootDir := str "C:\repo";
               sha256 := sha256 posix; localeCompare := localeCompare posix |}
    (str "vendor\a2ui\renderers/lit\index.ts")
  = str "vendor/a2ui/renderers/lit/index.ts".
Proof. reflexivity. Qed.

(** *** Sorting the files *)

Lemma path_eqb_eq (a b : path) : path_eqb a b = true -> a = b.
Proof.
  revert b. induction a as [|x a IH]; intros [|y b] H; try discriminate; [reflexivity|].
  cbn [path_eqb] in H. apply andb_true_iff in H as [Hx Hr].
  apply str_eqb_eq in Hx. apply IH in Hr. now subst.
Qed.

(** What [orders] checks, as facts about members of the list. *)
Lemma orders_spec (compare : path -> path -> Z) (files : list path) :
  orders compare files = true ->
  (forall a b, In a files -> In b files ->
     (compare a b <= 0)%Z \/ (compare b a <= 0)%Z)
  /\ (forall a b, In a files -> In b files ->
        (compare a b <= 0)%Z -> (compare b a <= 0)%Z -> a = b)
  /\ (forall a b c, In a files -> In b files -> In c files ->
        (compare a b <= 0)%Z -> (compare b c <= 0)%Z -> (compare a c <= 0)%Z).
Proof.
  unfold orders. intros H. rewrite forallb_forall in H.
  assert (K : forall a b, In a files -> In b files ->
              ((compare a b <=? 0)%Z || (compare b a <=? 0)%Z = true)
              /\ (negb ((compare a b <=? 0)%Z && (compare b a <=? 0)%Z) || path_eqb a b = true)
              /\ forall c, In c files ->
                   negb ((compare a b <=? 0)%Z && (compare b c <=? 0)%Z)
                   || (compare a c <=? 0)%Z = true).
  { intros a b Ha Hb. specialize (H a Ha). rewrite forallb_forall in H.
    specialize (H b Hb). apply andb_true_iff in H as [H H3].
    apply andb_true_iff in H as [H1 H2]. rewrite forallb_forall in H3. auto. }
  split; [|split].
  - intros a b Ha Hb. destruct (K a b Ha Hb) as (H1 & _).
    apply orb_true_iff in H1 as [H1|H1]; apply Z.leb_le in H1; auto.
  - intros a b Ha Hb Hab Hba. destruct (K a b Ha Hb) as (_ & H2 & _).
    apply Z.leb_le in Hab, Hba. rewrite Hab, Hba in H2. now apply path_eqb_eq.
  - intros a b c Ha Hb Hc Hab Hbc. destruct (K a b Ha Hb) as (_ & _ & H3).
    specialize (H3 c Hc). apply Z.leb_le in Hab, Hbc. rewrite Hab, Hbc in H3.
    now apply Z.leb_le.
Qed.

Lemma insert_sorted_perm (compare : path -> path -> Z) (x : path) (l : list path) :
  Permutation (insert_sorted compare x l) (x :: l).
Proof.
  induction l as [|y l IH]; cbn [insert_sorted]; [reflexivity|].
  destruct (compare x y <=? 0)%Z; [reflexivity|].
  rewrite IH. apply perm_swap.
Qed.

Lemma sort_perm (compare : path -> path -> Z) (l : list path) :
  Permutation (sort compare l) l.
Proof.
  induction l as [|x l IH]; [reflexivity|].
  cbn [sort fold_right]. fold (sort compare l).
  rewrite insert_sorted_perm. now constructor.
Qed.

Section Sorting.

Variable compare : path -> path -> Z.
Variable universe : list path.
Hypothesis total : forall a b, In a universe -> In b universe ->
  (compare a b <= 0)%Z \/ (compare b a <= 0)%Z.
Hypothesis antisymmetric : forall a b, In a universe -> In b universe ->
  (compare a b <= 0)%Z -> (compare b a <= 0)%Z -> a = b.
Hypothesis transitive : forall a b c, In a universe -> In b universe -> In c universe ->
  (compare a b <= 0)%Z -> (compare b c <= 0)%Z -> (compare a c <= 0)%Z.

Let before (a b : path) : Prop := (compare a b <= 0)%Z.

Lemma insert_sorted_sorted (x : path) (l : list path) :
  In x universe -> incl l universe ->
  StronglySorted before l -> StronglySorted before (insert_sorted compare x l).
Proof.
  intros Hx Hl Hs. induction l as [|y l IH]; cbn [insert_sorted].
  - repeat constructor.
  - apply StronglySorted_inv in Hs as [Hs Hy].
    assert (HyU : In y universe) by (apply Hl; now left).
    assert (HlU : incl l universe) by (intros z Hz; apply Hl; now right).
    destruct (Z.leb_spec (compare x y) 0) as [Hle|Hgt].
    + constructor; [constructor; assumption|].
      constructor; [exact Hle|].
      apply Forall_forall. intros z Hz. rewrite Forall_forall in Hy.
      apply (transitive x y z); auto. exact (Hy z Hz).
    + constructor; [now apply IH|].
      assert (Hyx : before y x) by (destruct (total x y Hx HyU); [lia | assumption]).
      apply Forall_forall. intros z Hz.
      apply (Permutation_in _ (insert_sorted_perm compare x l)) in Hz.
      destruct Hz as [<-|Hz]; [exact Hyx|].
      rewrite Forall_forall in Hy. exact (Hy z Hz).
Qed.

Lemma sort_sorted (l : list path) :
  incl l universe -> StronglySorted before (sort compare l).
Proof.
  induction l as [|x l IH]; intros Hl; [constructor|].
  cbn [sort fold_right]. fold (sort compare l).
  apply insert_sorted_sorted.
  - apply Hl. now left.
  - intros z Hz. apply (Permutation_in _ (sort_perm compare l)) in Hz.
    apply Hl. now right.
  - apply IH. intros z Hz. apply Hl. now right.
Qed.

(** Two sorted lists with the same members are the same list. *)
Lemma sorted_unique (l1 l2 : list path) :
  incl l1 universe ->
  StronglySorted before l1 -> StronglySorted before l2 ->
  Permutation l1 l2 -> l1 = l2.
Proof.
  revert l2. induction l1 as [|x l1 IH]; intros l2 HU H1 H2 Hp.
  - apply Permutation_nil in Hp. now subst.
  - destruct l2 as [|y l2]; [apply Permutation_sym, Permutation_nil in Hp; discriminate|].
    apply StronglySorted_inv in H1 as [H1 Hx].
    apply StronglySorted_inv in H2 as [H2 Hy].
    rewrite Forall_forall in Hx, Hy.
    assert (HxU : In x universe) by (apply HU; now left).
    assert (HyU : In y universe).
    { apply HU. apply (Permutation_in _ (Permutation_sym Hp)). now left. }
    assert (Exy : x = y).
    { assert (Hx2 : In x (y :: l2)) by (apply (Permutation_in _ Hp); now left).
      assert (Hy1 : In y (x :: l1))
        by (apply (Permutation_in _ (Permutation_sym Hp)); now left).
      destruct Hx2 as [->|Hx2]; [reflexivity|].
      destruct Hy1 as [->|Hy1]; [reflexivity|].
      apply antisymmetric; auto; [exact (Hx y Hy1) | exact (Hy x Hx2)]. }
    subst y. f_equal. apply IH; auto.
    + intros z Hz. apply HU. now right.
    + now apply Permutation_cons_inv in Hp.
Qed.

(** Sorting forgets the order the files were found in. *)
Lemma sort_of_permutation (l1 l2 : list path) :
  incl l1 universe -> Permutation l1 l2 -> sort compare l1 = sort compare l2.
Proof.
  intros HU Hp.
  assert (HU2 : incl l2 universe)
    by (intros z Hz; apply HU; apply (Permutation_in _ (Permutation_sym Hp) Hz)).
  apply sorted_unique.
  - intros z Hz. apply HU. apply (Permutation_in _ (sort_perm compare l1) Hz).
  - now apply sort_sorted.
  - now apply sort_sorted.
  - rewrite sort_perm, Hp. symmetry. apply sort_perm.
Qed.

End Sorting.

(** *** Walking the tree *)

(** Induction over a tree, with the property for every entry of a
    directory. *)
Fixpoint node_induction (P : node -> Prop)
    (on_file : forall text, P (File text))
    (on_directory : forall entries,
        Forall (fun e => P (snd e)) entries -> P (Directory entries))
    (n : node) : P n :=
  match n with
  | File text => on_file text
  | Directory entries =>
      on_directory entries
        ((fix each (es : list (jsstring * node)) : Forall (fun e => P (snd e)) es :=
            match es with
            | [] => Forall_nil _
            | e :: rest =>
                Forall_cons e (node_induction P on_file on_directory (snd e)) (each rest)
            end) entries)
  end.

(** The files a directory's entries hold, entry by entry. *)
Definition walk_entries (entryPath : path) (entries : list (jsstring * node))
  : list path :=
  flat_map (fun e => walk_node (entryPath ++ [fst e]) (snd e) []) entries.

(** [walk] only pushes: what it finds does not depend on [files]. *)
Lemma walk_node_app (st : node) :
  forall entryPath files,
  walk_node entryPath st files = files ++ walk_node entryPath st [].
Proof.
  induction st as [text|entries IH] using node_induction; intros entryPath files.
  - reflexivity.
  - cbn [walk_node].
    assert (G : forall acc,
      (fix each (entries : list (jsstring * node)) (files : list path) : list path :=
         match entries with
         | [] => files
         | (entry, child) :: rest =>
             each rest (walk_node (entryPath ++ [entry]) child files)
         end) entries acc
      = acc ++ walk_entries entryPath entries).
    { induction IH as [|[entry child] rest Hchild _ IHrest]; intros acc.
      - cbn. now rewrite app_nil_r.
      - cbn [walk_entries flat_map fst snd]. rewrite IHrest.
        cbn [snd] in Hchild. rewrite (Hchild (entryPath ++ [entry]) acc).
        unfold walk_entries. now rewrite <- app_assoc. }
    rewrite (G files), (G []). reflexivity.
Qed.

Lemma walk_node_directory (entryPath : path) (entries : list (jsstring * node))
    (files : list path) :
  walk_node entryPath (Directory entries) files = files ++ walk_entries entryPath entries.
Proof.
  cbn [walk_node]. revert files.
  induction entries as [|[entry child] rest IH]; intros files.
  - cbn. now rewrite app_nil_r.
  - cbn [walk_entries flat_map fst snd]. rewrite IH, (walk_node_app child).
    unfold walk_entries. now rewrite <- app_assoc.
Qed.

(** In whatever order [readdir] lists a directory, [walk] finds the
    same files. *)
Lemma walk_node_relisted (entryPath : path) (entries entries' : list (jsstring * node))
    (files : list path) :
  Permutation entries entries' ->
  Permutation (walk_node entryPath (Directory entries) files)
              (walk_node entryPath (Directory entries') files).
Proof.
  intros Hp. rewrite !walk_node_directory. apply Permutation_app_head.
  unfold walk_entries. now apply Permutation_flat_map.
Qed.

Lemma hash_input_ext (pf : Platform) (files : list path) (root root' : node) :
  (forall p, In p files -> readFile p root = readFile p root') ->
  hash_input pf files root = hash_input pf files root'.
Proof.
  induction files as [|p files IH]; intros H; [reflexivity|].
  cbn [hash_input]. rewrite (H p (or_introl eq_refl)).
  rewrite IH; [reflexivity|]. intros q Hq. apply H. now right.
Qed.

(** X13.  The digest does not depend on the order in which the files
    were found: when the walks of two file systems find the same files,
    in any order, with the same contents, and the comparison of line 42
    orders them, [computeHash] gives the same result for both.  The
    order [readdir] lists a directory in only permutes what [walk]
    finds. *)
Theorem digest_ignores_listing_order
    (pf : Platform) (inputs : list path) (root root' : node)
    (files files' : list path) :
  walk_all inputs [] root = Some files ->
  walk_all inputs [] root' = Some files' ->
  Permutation files files' ->
  (forall p, In p files -> readFile p root = readFile p root') ->
  orders (compare_paths pf) files = true ->
  computeHash pf inputs root = computeHash pf inputs root'
  /\ sort (compare_paths pf) files = sort (compare_paths pf) files'
  /\ (forall entryPath entries entries' found,
        Permutation entries entries' ->
        Permutation (walk_node entryPath (Directory entries) found)
                    (walk_node entryPath (Directory entries') found)).
Proof.
  intros Hw Hw' Hp Hread Horders.
  destruct (orders_spec _ _ Horders) as (Htotal & Hanti & Htrans).
  assert (Hsort : sort (compare_paths pf) files = sort (compare_paths pf) files').
  { apply (sort_of_permutation (compare_paths pf) files Htotal Hanti Htrans).
    - intros z Hz. exact Hz.
    - exact Hp. }
  split; [|split; [exact Hsort | intros; now apply walk_node_relisted]].
  unfold computeHash. rewrite Hw, Hw', <- Hsort.
  rewrite (hash_input_ext pf _ root root'); [reflexivity|].
  intros p Hin. apply Hread.
  apply (Permutation_in _ (sort_perm (compare_paths pf) files) Hin).
Qed.

Lemma digest_ignores_listing_order_witness :
  computeHash posix inputPaths sample_tree = computeHash posix inputPaths relisted_tree.
Proof.
  refine (proj1 (digest_ignores_listing_order posix inputPaths sample_tree relisted_tree
            [[str "package.json"]; [str "pnpm-lock.yaml"];
             rendererDir ++ [str "tsconfig.json"];
             rendererDir ++ [str "src"; str "b.ts"];
             rendererDir ++ [str "src"; str "a.ts"];
             appDir ++ [str "rolldown.config.mjs"];
             appDir ++ [str "bootstrap.js"]]
            [[str "package.json"]; [str "pnpm-lock.yaml"];
             rendererDir ++ [str "src"; str "a.ts"];
             rendererDir ++ [str "src"; str "b.ts"];
             rendererDir ++ [str "tsconfig.json"];
             appDir ++ [str "bootstrap.js"];
             appDir ++ [str "rolldown.config.mjs"]]
            _ _ _ _ _)).
  - vm_compute. reflexivity.
  - vm_compute. reflexivity.
  - do 2 apply perm_skip.
    eapply perm_trans; [apply perm_swap|].
    eapply perm_trans; [apply perm_skip, perm_swap|].
    eapply perm_trans; [apply perm_swap|].
    do 3 apply perm_skip. apply perm_swap.
  - intros p Hin.
    repeat (destruct Hin as [<-|Hin]; [vm_compute; reflexivity|]).
    contradiction.
  - vm_compute. reflexivity.
Defined.

(** The order [posix] sorts the sample's files in. *)
Example sample_files_sorted :
  option_map (sort (compare_paths posix)) (walk_all inputPaths [] sample_tree)
  = Some [appDir ++ [str "bootstrap.js"];
          appDir ++ [str "rolldown.config.mjs"];
          [str "package.json"]; [str "pnpm-lock.yaml"];
          rendererDir ++ [str "src"; str "a.ts"];
          rendererDir ++ [str "src"; str "b.ts"];
          rendererDir ++ [str "tsconfig.json"]].
Proof. vm_compute. reflexivity. Qed.

(** *** [main] *)

Lemma trim_line (s : jsstring) :
  Forall (fun c => is_space c = false) s -> trim (s ++ [10]) = s.
Proof.
  intros H. unfold trim.
  assert (Hstart : trimStart (s ++ [10]) = match s with [] => [] | _ => s ++ [10] end).
  { destruct H as [|c s Hc _]; [reflexivity|]. cbn [app trimStart]. now rewrite Hc. }
  rewrite Hstart. destruct s as [|c s]; [reflexivity|].
  unfold trimEnd. rewrite rev_app_distr.
  change (rev [10] ++ rev (c :: s)) with (10 :: rev (c :: s)).
  cbn [trimStart]. change (is_space 10) with true. cbv iota.
  rewrite trimStart_id by (apply Forall_rev; exact H).
  apply rev_involutive.
Qed.

Lemma computeHash_trim_line (pf : Platform) (inputs : list path) (root : node)
    (h : jsstring) :
  computeHash pf inputs root = Some h -> trim (h ++ [10]) = h.
Proof.
  unfold computeHash. intros H.
  destruct (walk_all inputs [] root) as [files|]; [|discriminate].
  destruct (hash_input pf _ root) as [bytes|]; [|discriminate].
  inversion H. apply trim_line.
  apply forallb_negb_Forall, toString_hex_forallb, hex_of_byte_no_space.
Qed.

Lemma find_entry_put (name : jsstring) (child : node) (entries : list (jsstring * node)) :
  find_entry name (put_entry name child entries) = Some child.
Proof.
  induction entries as [|[n old] entries IH]; cbn [put_entry find_entry].
  - now rewrite str_eqb_refl.
  - destruct (str_eqb n name) eqn:E; cbn [find_entry]; now rewrite E.
Qed.

(** What [writeFile] wrote is what [readFile] reads. *)
Lemma readFile_writeFile (p : path) (text : jsstring) :
  forall root written,
  writeFile p text root = Some written -> readFile p written = Some text.
Proof.
  unfold readFile. induction p as [|name rest IH]; intros root written H.
  - cbn [writeFile] in H. destruct root; [|discriminate]. inversion H. reflexivity.
  - cbn [writeFile] in H. destruct root as [|entries]; [discriminate|].
    destruct (find_entry name entries) as [child|].
    + destruct (writeFile rest text child) as [child'|] eqn:E; [|discriminate].
      inversion H. cbn [stat]. rewrite find_entry_put. now apply (IH child).
    + destruct rest; [|discriminate]. inversion H.
      cbn [stat]. rewrite find_entry_put. reflexivity.
Qed.

(** A record that is the current digest and a newline, beside an
    existing bundle, passes the test of lines 77 to 79. *)
Lemma up_to_date_recorded (pf : Platform) (root : node) (h : jsstring) :
  computeHash pf inputPaths root = Some h ->
  readFile hashFile root = Some (h ++ [10]) ->
  exists_ outputFile root = true ->
  up_to_date h root = Some true.
Proof.
  intros Hh Hfile Hout. unfold up_to_date.
  assert (He : exists_ hashFile root = true).
  { unfold exists_. unfold readFile in Hfile.
    destruct (stat hashFile root); [reflexivity | discriminate]. }
  rewrite He, Hfile, (computeHash_trim_line pf _ _ _ Hh), str_eqb_refl, Hout.
  reflexivity.
Qed.

(** X14.  When both source directories are there, the recorded digest
    followed by a newline (what a build writes) is the current digest,
    and the bundle exists, [main] only logs that the bundle is up to
    date: it runs no command and writes nothing. *)
Theorem main_skips_when_up_to_date
    (pf : Platform) (spawnSync : command) (s : state) (h : jsstring) :
  exists_ rendererDir (tree s) = true ->
  exists_ appDir (tree s) = true ->
  computeHash pf inputPaths (tree s) = Some h ->
  readFile hashFile (tree s) = Some (h ++ [10]) ->
  exists_ outputFile (tree s) = true ->
  main pf spawnSync s = (log (str "A2UI bundle up to date; skipping.") s, Returned).
Proof.
  intros Hr Ha Hh Hfile Hout.
  unfold main. rewrite Hr, Ha, Hh, (up_to_date_recorded pf _ _ Hh Hfile Hout).
  reflexivity.
Qed.

(** X15.  When the bundle is not up to date and both commands
    succeed, [main] runs [tsc], then [rolldown], then records the digest
    it computed before the build, followed by a newline; the record
    reads back as written, so a later run over a tree with the same
    digest and a bundle skips the build. *)
Theorem main_builds_and_records
    (pf : Platform) (spawnSync : command) (s : state) (h : jsstring)
    (compiled bundled written : node) :
  exists_ rendererDir (tree s) = true ->
  exists_ appDir (tree s) = true ->
  computeHash pf inputPaths (tree s) = Some h ->
  up_to_date h (tree s) = Some false ->
  spawnSync (pnpmCmd pf) (tsc_args pf) (tree s) = (Some 0%Z, compiled) ->
  spawnSync (pnpmCmd pf) (rolldown_args pf) compiled = (Some 0%Z, bundled) ->
  writeFile hashFile (h ++ [10]) bundled = Some written ->
  main pf spawnSync s =
    ({| tree := written;
        done := done s ++ [SpawnSync (pnpmCmd pf) (tsc_args pf);
                           SpawnSync (pnpmCmd pf) (rolldown_args pf);
                           WriteHash hashFile (h ++ [10])] |}, Returned)
  /\ readFile hashFile written = Some (h ++ [10])
  /\ (forall (again : command) (s' : state),
        tree s' = written ->
        exists_ rendererDir written = true ->
        exists_ appDir written = true ->
        computeHash pf inputPaths written = Some h ->
        exists_ outputFile written = true ->
        main pf again s' = (log (str "A2UI bundle up to date; skipping.") s', Returned)).
Proof.
  intros Hr Ha Hh Hup Htsc Hroll Hwrite.
  pose proof (readFile_writeFile _ _ _ _ Hwrite) as Hread.
  split; [|split; [exact Hread|]].
  - unfold main. rewrite Hr, Ha, Hh, Hup. cbn [negb orb].
    fold (pnpmCmd pf). fold (tsc_args pf). fold (rolldown_args pf).
    unfold run. rewrite Htsc. cbn [tree done]. rewrite Hroll. cbn [tree done].
    rewrite Hwrite. rewrite <- !app_assoc. reflexivity.
  - intros again s' Ht Hr' Ha' Hh' Hout'.
    unfold main. rewrite Ht, Hr', Ha', Hh'.
    rewrite (up_to_date_recorded pf _ _ Hh' Hread Hout'). reflexivity.
Qed.

(** X16.  When [tsc] does not end with status 0, [main] exits at once
    with that status, or with 1 when a signal ended the command:
    [rolldown] is not run and no digest is recorded.  The same holds
    when [tsc] succeeds and [rolldown] does not. *)
Theorem main_stops_at_failed_command
    (pf : Platform) (spawnSync : command) (s : state) (h : jsstring)
    (status : option Z) (after : node) :
  exists_ rendererDir (tree s) = true ->
  exists_ appDir (tree s) = true ->
  computeHash pf inputPaths (tree s) = Some h ->
  up_to_date h (tree s) = Some false ->
  status <> Some 0%Z ->
  (spawnSync (pnpmCmd pf) (tsc_args pf) (tree s) = (status, after) ->
   main pf spawnSync s =
     ({| tree := after; done := done s ++ [SpawnSync (pnpmCmd pf) (tsc_args pf)] |},
      Exited (exit_code status)))
  /\ (forall compiled,
        spawnSync (pnpmCmd pf) (tsc_args pf) (tree s) = (Some 0%Z, compiled) ->
        spawnSync (pnpmCmd pf) (rolldown_args pf) compiled = (status, after) ->
        main pf spawnSync s =
          ({| tree := after;
              done := done s ++ [SpawnSync (pnpmCmd pf) (tsc_args pf);
                                 SpawnSync (pnpmCmd pf) (rolldown_args pf)] |},
           Exited (exit_code status)))
  /\ exit_code status <> 0%Z.
Proof.
  intros Hr Ha Hh Hup Hfail.
  assert (Hrun : forall cmd args s0,
            spawnSync cmd args (tree s0) = (status, after) ->
            run spawnSync cmd args s0 =
              ({| tree := after; done := done s0 ++ [SpawnSync cmd args] |},
               Some (exit_code status))).
  { intros cmd args s0 E. unfold run. rewrite E.
    destruct status as [[|c|c]|]; try reflexivity. contradiction. }
  split; [|split].
  - intros Htsc. unfold main. rewrite Hr, Ha, Hh, Hup. cbn [negb orb].
    fold (pnpmCmd pf). fold (tsc_args pf).
    now rewrite (Hrun _ _ s Htsc).
  - intros compiled Htsc Hroll. unfold main. rewrite Hr, Ha, Hh, Hup. cbn [negb orb].
    fold (pnpmCmd pf). fold (tsc_args pf). fold (rolldown_args pf).
    unfold run at 1. rewrite Htsc.
    rewrite (Hrun _ _ {| tree := compiled;
                         done := done s ++ [SpawnSync (pnpmCmd pf) (tsc_args pf)] |} Hroll).
    cbn [done]. rewrite <- app_assoc. reflexivity.
  - destruct status as [[|c|c]|]; cbn; try discriminate. contradiction.
Qed.


Lemma main_skips_when_up_to_date_witness :
  main posix building (fresh built_tree)
  = (log (str "A2UI bundle up to date; skipping.") (fresh built_tree), Returned).
Proof.
  apply (main_skips_when_up_to_date posix building (fresh built_tree) sample_digest).
  - vm_compute. reflexivity.
  - vm_compute. reflexivity.
  - vm_compute. reflexivity.
  - vm_compute. reflexivity.
  - vm_compute. reflexivity.
Defined.

Lemma main_builds_and_records_witness :
  main posix building (fresh sample_tree) =
    ({| tree := built_tree;
        done := [SpawnSync (pnpmCmd posix) (tsc_args posix);
                 SpawnSync (pnpmCmd posix) (rolldown_args posix);
                 WriteHash hashFile (sample_digest ++ [10])] |}, Returned)
  /\ readFile hashFile built_tree = Some (sample_digest ++ [10]).
Proof.
  destruct (main_builds_and_records posix building (fresh sample_tree) sample_digest
              sample_tree bundled_tree built_tree) as (Hmain & Hread & _).
  - vm_compute. reflexivity.
  - vm_compute. reflexivity.
  - vm_compute. reflexivity.
  - vm_compute. reflexivity.
  - vm_compute. reflexivity.
  - vm_compute. reflexivity.
  - vm_compute. reflexivity.
  - split; [exact Hmain | exact Hread].
Defined.

Lemma main_stops_at_failed_command_witness :
  main posix (failing None) (fresh sample_tree) =
    ({| tree := sample_tree;
        done := [SpawnSync (pnpmCmd posix) (tsc_args posix)] |}, Exited 1).
Proof.
  destruct (main_stops_at_failed_command posix (failing None) (fresh sample_tree)
              sample_digest None sample_tree) as (Htsc & _ & _).
  - vm_compute. reflexivity.
  - vm_compute. reflexivity.
  - vm_compute. reflexivity.
  - vm_compute. reflexivity.
  - discriminate.
  - apply Htsc. reflexivity.
Defined.


End BundleFacts.
